(** * noise2read: data generation from edit-distance read graphs

    A shallow embedding of [src/noise2read/data_generation.py] (class
    [DataGneration]) together with the small part of the Python runtime and
    of NetworkX that the class relies on, followed by the properties of the
    annotator, the graph builder and the per-component classifiers, and then
    of the merge of the passes, the high-ambiguous and amplicon extractors,
    the split into isolates and non-isolates, and [data_files].

    Logging, progress bars ([tqdm]), CSV export and plotting only observe
    the data and are left out of the embedding. *)

From Stdlib Require Import List String Ascii ZArith QArith Lia Bool Arith.
Import ListNotations.

Local Open Scope string_scope.
Local Open Scope list_scope.
Local Open Scope Z_scope.

(** ** Python runtime *)

Module Py.

(** The exceptions (and the interpreter exit) that the embedded code can end
    with. *)
Inductive exn : Type :=
  | ValueError
  | IndexError
  | KeyError
  | TypeError
  | UnboundLocalError
  | NetworkXPointlessConcept
  | SystemExit (code : Z).

(** How a call ends.  A call that raises is not followed any further: the
    state it leaves behind is not kept. *)
Inductive result (A : Type) : Type :=
  | Ok (a : A)
  | Raise (e : exn).

Arguments Ok {A} a.
Arguments Raise {A} e.

Definition bind {A B : Type} (m : result A) (k : A -> result B) : result B :=
  match m with
  | Ok a => k a
  | Raise e => Raise e
  end.

(** Values stored in the rows handed to pandas: reads are [str], counts,
    degrees and positions are [int]. *)
Inductive pyval : Type :=
  | PStr (s : string)
  | PInt (n : Z).

Definition row : Type := list pyval.

Definition as_str (v : pyval) : result string :=
  match v with
  | PStr s => Ok s
  | PInt _ => Raise TypeError
  end.

Definition pyval_eqb (v w : pyval) : bool :=
  match v, w with
  | PStr s, PStr t => String.eqb s t
  | PInt n, PInt m => Z.eqb n m
  | _, _ => false
  end.

(** [len(s)] *)
Definition len (s : string) : Z := Z.of_nat (String.length s).

(** [s[i]] on a [str]: negative indices count from the end, anything out of
    range raises [IndexError]; the result is a one-character [str]. *)
Definition str_getitem (s : string) (i : Z) : result string :=
  let n := len s in
  let j := if i <? 0 then i + n else i in
  if (j <? 0) || (n <=? j) then Raise IndexError
  else match String.get (Z.to_nat j) s with
       | Some c => Ok (String c EmptyString)
       | None => Raise IndexError
       end.

(** Bound adjustment of a slice with step 1. *)
Definition adjust (n i : Z) : Z :=
  if i <? 0 then Z.max 0 (i + n) else Z.min i n.

(** [s[lo:hi]]; [None] stands for an omitted bound. *)
Definition str_slice (s : string) (lo hi : option Z) : string :=
  let n := len s in
  let a := match lo with None => 0 | Some i => adjust n i end in
  let b := match hi with None => n | Some i => adjust n i end in
  if b <=? a then EmptyString
  else substring (Z.to_nat a) (Z.to_nat (b - a)) s.

(** [l[i]] on a list. *)
Definition list_getitem {A : Type} (l : list A) (i : Z) : result A :=
  let n := Z.of_nat (List.length l) in
  let j := if i <? 0 then i + n else i in
  if (j <? 0) || (n <=? j) then Raise IndexError
  else match nth_error l (Z.to_nat j) with
       | Some x => Ok x
       | None => Raise IndexError
       end.

(** The value a [for x in l] loop leaves in [x]: the last element, if any. *)
Fixpoint last_opt {A : Type} (l : list A) : option A :=
  match l with
  | [] => None
  | [x] => Some x
  | _ :: l' => last_opt l'
  end.

(** [range(n)] *)
Definition range (n : Z) : list Z :=
  map Z.of_nat (seq 0 (Z.to_nat n)).

(** The Levenshtein distance, which is what [editdistance.eval] computes:
    the least number of single-character insertions, deletions and
    substitutions turning one string into the other. *)
Fixpoint levenshtein (a : string) : string -> nat :=
  match a with
  | EmptyString => String.length
  | String x a' =>
      fix inner (b : string) : nat :=
        match b with
        | EmptyString => S (String.length a')
        | String y b' =>
            Nat.min (Nat.min (S (levenshtein a' b)) (S (inner b')))
                    ((if Ascii.eqb x y then 0 else 1) + levenshtein a' b')%nat
        end
  end.

Definition editdistance_eval (a b : string) : Z :=
  Z.of_nat (levenshtein a b).

(** [l.sort(key=..., reverse=True)]: a stable sort in descending key order
    (elements with equal keys keep their original relative order). *)
Fixpoint insert_desc {A K : Type} (ltb : K -> K -> bool) (key : A -> K)
    (x : A) (l : list A) : list A :=
  match l with
  | [] => [x]
  | y :: l' =>
      if ltb (key x) (key y) then y :: insert_desc ltb key x l'
      else x :: y :: l'
  end.

Definition sort_desc {A K : Type} (ltb : K -> K -> bool) (key : A -> K)
    (l : list A) : list A :=
  fold_right (insert_desc ltb key) [] l.

End Py.

Import Py.

Declare Scope py_scope.
Delimit Scope py_scope with py.
Notation "x <- m ;; k" := (Py.bind m (fun x => k))
  (at level 61, m at next level, right associativity) : py_scope.
Notation "' p <- m ;; k" := (Py.bind m (fun x => match x with p => k end))
  (at level 61, p pattern, m at next level, right associativity) : py_scope.
Local Open Scope py_scope.

(** [s + t] on [str] values. *)
Infix "+++" := String.append (at level 60, right associativity) : py_scope.

(** ** The error-type annotator *)

(** The scanning loops of [err_type_classification]:
    [for index in range(..): if read1[index] == read2[index]: num = num + 1
     else: position = index; break].  The loop of the equal-length case
    has no [num]; there the counter is simply not read afterwards. *)
Fixpoint scan_mismatch (read1 read2 : string) (indices : list Z)
    (position num : Z) : result (Z * Z) :=
  match indices with
  | [] => Ok (position, num)
  | index :: rest =>
      c1 <- str_getitem read1 index ;;
      c2 <- str_getitem read2 index ;;
      if String.eqb c1 c2
      then scan_mismatch read1 read2 rest position (num + 1)
      else Ok (index, num)
  end.

(** The three length cases under [if dis == 1]: the values of [first],
    [second], [position], [f_kmer] and [s_kmer]. *)
Definition locate_error (read1 read2 : string)
    : result (string * string * Z * string * string) :=
  let f_len := len read1 in
  let s_len := len read2 in
  if f_len =? s_len then
    '(position, _) <- scan_mismatch read1 read2 (range f_len) (-1) 0 ;;
    first <- str_getitem read1 position ;;
    second <- str_getitem read2 position ;;
    if position =? 0 then
      Ok (first, second, position,
          str_slice read1 (Some 0) (Some 2),
          str_slice read2 (Some 0) (Some 2))
    else if position =? f_len then
      Ok (first, second, position,
          str_slice read1 (Some (-2)) None,
          str_slice read2 (Some (-2)) None)
    else
      Ok (first, second, position,
          str_slice read1 (Some (position - 1)) (Some (position + 2)),
          str_slice read2 (Some (position - 1)) (Some (position + 2)))
  else if f_len <? s_len then
    '(position, num) <- scan_mismatch read1 read2 (range f_len) (-1) 0 ;;
    let position := if num =? f_len then f_len else position in
    let first := "X" in
    second <- str_getitem read2 position ;;
    if position =? 0 then
      c <- str_getitem read1 0 ;;
      Ok (first, second, position,
          "X" +++ c, str_slice read2 (Some 0) (Some 2))
    else if position =? f_len then
      c <- str_getitem read1 (-1) ;;
      Ok (first, second, position,
          c +++ "X", str_slice read2 (Some (-2)) None)
    else
      c <- str_getitem read1 (position - 1) ;;
      d <- str_getitem read1 position ;;
      Ok (first, second, position,
          c +++ "X" +++ d,
          str_slice read2 (Some (position - 1)) (Some (position + 2)))
  else if s_len <? f_len then
    '(position, num) <- scan_mismatch read1 read2 (range s_len) (-1) 0 ;;
    let position := if num =? s_len then s_len else position in
    first <- str_getitem read1 position ;;
    let second := "X" in
    if position =? 0 then
      c <- str_getitem read2 0 ;;
      Ok (first, second, position,
          str_slice read1 (Some 0) (Some 2), "X" +++ c)
    else if position =? s_len then
      c <- str_getitem read2 (-1) ;;
      Ok (first, second, position,
          str_slice read1 (Some (-2)) None, c +++ "X")
    else
      c <- str_getitem read2 (position - 1) ;;
      d <- str_getitem read2 position ;;
      Ok (first, second, position,
          str_slice read1 (Some (position - 1)) (Some (position + 2)),
          c +++ "X" +++ d)
  else Raise UnboundLocalError.

Definition err_type_classification (line : row) : result row :=
  l0 <- list_getitem line 0 ;;
  read1 <- as_str l0 ;;
  read1_fre <- list_getitem line 1 ;;
  l3 <- list_getitem line 3 ;;
  read2 <- as_str l3 ;;
  read2_fre <- list_getitem line 4 ;;
  let dis := editdistance_eval read1 read2 in
  if dis =? 1 then
    '(first, second, position, f_kmer, s_kmer) <- locate_error read1 read2 ;;
    let errorType := first +++ "-" +++ second in
    l2 <- list_getitem line 2 ;;
    l5 <- list_getitem line 5 ;;
    Ok [PStr read1; read1_fre; l2; PStr errorType; PInt position;
        PStr f_kmer; PStr s_kmer; PStr read2; read2_fre; l5]
  else Raise ValueError.

(** ** NetworkX graphs *)

Module Nx.

(** A node of an undirected [nx.Graph]: its attribute dictionary (the class
    only ever uses the keys ['count'] and ['flag']) and its adjacency, in
    insertion order.  A graph is the insertion-ordered dictionary of its
    nodes. *)
Record node_data : Type := mk_node {
  attr_count : option Z;
  attr_flag : option bool;
  adj : list string
}.

Definition graph : Type := list (string * node_data).

Definition mem (x : string) (l : list string) : bool :=
  existsb (String.eqb x) l.

Fixpoint lookup (g : graph) (n : string) : option node_data :=
  match g with
  | [] => None
  | (k, d) :: g' => if String.eqb k n then Some d else lookup g' n
  end.

(** [list(G.nodes)] *)
Definition nodes (g : graph) : list string := map fst g.

(** [G.has_node(n)] *)
Definition has_node (g : graph) (n : string) : bool :=
  match lookup g n with Some _ => true | None => false end.

(** [G.nodes[n]['count']] *)
Definition node_count (g : graph) (n : string) : result Z :=
  match lookup g n with
  | Some d => match attr_count d with Some c => Ok c | None => Raise KeyError end
  | None => Raise KeyError
  end.

(** [G.nodes[n]['flag']] *)
Definition node_flag (g : graph) (n : string) : result bool :=
  match lookup g n with
  | Some d => match attr_flag d with Some b => Ok b | None => Raise KeyError end
  | None => Raise KeyError
  end.

(** [G.nodes[n]['flag'] = b] *)
Fixpoint set_flag (g : graph) (n : string) (b : bool) : result graph :=
  match g with
  | [] => Raise KeyError
  | (k, d) :: g' =>
      if String.eqb k n
      then Ok ((k, mk_node (attr_count d) (Some b) (adj d)) :: g')
      else g'' <- set_flag g' n b ;; Ok ((k, d) :: g'')
  end.

(** [[m for m in G.neighbors(n)]] *)
Definition neighbors (g : graph) (n : string) : result (list string) :=
  match lookup g n with
  | Some d => Ok (adj d)
  | None => Raise KeyError
  end.

(** [G.degree[n]]: the number of neighbours, a self-loop counting twice. *)
Definition degree (g : graph) (n : string) : result Z :=
  match lookup g n with
  | Some d =>
      Ok (Z.of_nat (List.length (adj d)) + (if mem n (adj d) then 1 else 0))
  | None => Raise KeyError
  end.

(** [[e for e in G.edges()]]: every edge once, reported from the endpoint
    that comes first in node order. *)
Fixpoint edges_from (g : graph) (seen : list string) : list (string * string) :=
  match g with
  | [] => []
  | (n, d) :: g' =>
      map (fun nbr => (n, nbr)) (filter (fun nbr => negb (mem nbr seen)) (adj d))
      ++ edges_from g' (n :: seen)
  end.

Definition edges (g : graph) : list (string * string) := edges_from g [].

(** [G.add_node(n, count=c, flag=f)] *)
Fixpoint add_node (g : graph) (n : string) (c : Z) (f : bool) : graph :=
  match g with
  | [] => [(n, mk_node (Some c) (Some f) [])]
  | (k, d) :: g' =>
      if String.eqb k n then (k, mk_node (Some c) (Some f) (adj d)) :: g'
      else (k, d) :: add_node g' n c f
  end.

(** One direction of [G.add_edge(u, v)]: [v] enters the adjacency of [u]; a
    node that is not in the graph yet is created without attributes. *)
Fixpoint add_adj (g : graph) (u v : string) : graph :=
  match g with
  | [] => [(u, mk_node None None [v])]
  | (k, d) :: g' =>
      if String.eqb k u
      then (k, mk_node (attr_count d) (attr_flag d)
                 (if mem v (adj d) then adj d else adj d ++ [v])) :: g'
      else (k, d) :: add_adj g' u v
  end.

Fixpoint ensure_node (g : graph) (n : string) : graph :=
  match g with
  | [] => [(n, mk_node None None [])]
  | (k, d) :: g' =>
      if String.eqb k n then g else (k, d) :: ensure_node g' n
  end.

Definition add_edge (g : graph) (e : string * string) : graph :=
  let '(u, v) := e in
  add_adj (add_adj (ensure_node (ensure_node g u) v) u v) v u.

(** [G.add_edges_from(ebunch)] *)
Definition add_edges_from (g : graph) (ebunch : list (string * string)) : graph :=
  fold_left add_edge ebunch g.

(** [nx.isolates(G)]: the nodes of degree 0. *)
Definition isolates (g : graph) : list string :=
  filter (fun n => match degree g n with Ok 0 => true | _ => false end)
         (nodes g).

(** Breadth-first search from [frontier]; every node enters the queue at
    most once, so one unit of fuel per node is enough. *)
Fixpoint bfs (fuel : nat) (g : graph) (seen frontier : list string) : list string :=
  match fuel with
  | O => seen
  | S fuel' =>
      match frontier with
      | [] => seen
      | v :: rest =>
          let nbrs := match lookup g v with Some d => adj d | None => [] end in
          let fresh :=
            fold_left (fun acc w => if mem w seen || mem w acc then acc
                                    else acc ++ [w]) nbrs [] in
          bfs fuel' g (seen ++ fresh) (rest ++ fresh)
      end
  end.

(** [nx.is_connected(G)] *)
Definition is_connected (g : graph) : result bool :=
  match nodes g with
  | [] => Raise NetworkXPointlessConcept
  | source :: _ =>
      Ok (Nat.eqb (List.length (bfs (S (List.length g)) g [source] [source]))
                  (List.length g))
  end.

(** What NetworkX and [generate_graph] guarantee of a graph: the node keys
    are distinct, every node carries both attributes, and every neighbour is
    a node of the graph. *)
Fixpoint distinct (l : list string) : bool :=
  match l with
  | [] => true
  | x :: l' => negb (mem x l') && distinct l'
  end.

Definition wf_graph (g : graph) : bool :=
  distinct (nodes g)
  && forallb (fun kd =>
       match attr_count (snd kd), attr_flag (snd kd) with
       | Some _, Some _ => forallb (has_node g) (adj (snd kd))
       | _, _ => false
       end) g.

End Nx.

(** ** The class [DataGneration] *)

(** The configuration values read by the embedded methods. *)
Record config : Type := mk_config {
  high_freq_thre : Z;
  max_error_freq : Z;
  ambiguous_error_node_degree : Z
}.

Definition classifier_state : Type :=
  (Nx.graph * list row * list (list row))%type.

Section Classifier.

Variable cfg : config.
Variable edit_dis : Z.

(** First inner loop of the [elif] branch: count and collect the
    high-frequency neighbours. *)
Fixpoint collect_high (sub_graph : Nx.graph) (node_neis : list string)
    (high_num : Z) (nei2count : list (string * Z))
    : result (Z * list (string * Z)) :=
  match node_neis with
  | [] => Ok (high_num, nei2count)
  | nei :: rest =>
      nei_count <- Nx.node_count sub_graph nei ;;
      nei_degree <- Nx.degree sub_graph nei ;;
      if high_freq_thre cfg <=? nei_count
      then collect_high sub_graph rest (high_num + 1)
                        (nei2count ++ [(nei, nei_count)])
      else collect_high sub_graph rest high_num nei2count
  end.

(** A genuine or candidate row: annotated in edit-distance-1 mode, the bare
    six-element line otherwise. *)
Definition finish_line (line : row) : result row :=
  if edit_dis =? 1 then err_type_classification line else Ok line.

(** Second inner loop, the ambiguous case.  [nei] is the loop variable left
    over from [collect_high]: the last neighbour of the node.  It is only
    read when [nei2count] is not empty, hence when the node has a neighbour. *)
Fixpoint ambiguous_candidates (sub_graph : Nx.graph) (nei : option string)
    (node : string) (node_count node_degree : Z)
    (nei2count : list (string * Z)) (tmp_lst : list row) : result (list row) :=
  match nei2count with
  | [] => Ok tmp_lst
  | (cre_nei, cur_nei_count) :: rest =>
      if high_freq_thre cfg <=? cur_nei_count then
        nei' <- match nei with Some n => Ok n | None => Raise UnboundLocalError end ;;
        cur_nei_degree <- Nx.degree sub_graph nei' ;;
        let line := [PStr cre_nei; PInt cur_nei_count; PInt cur_nei_degree;
                     PStr node; PInt node_count; PInt node_degree] in
        newline <- finish_line line ;;
        ambiguous_candidates sub_graph nei node node_count node_degree rest
                             (tmp_lst ++ [newline])
      else
        ambiguous_candidates sub_graph nei node node_count node_degree rest
                             tmp_lst
  end.

(** The [if node_degree == 1: ... elif ...: ...] statement of the loop body,
    from the two result lists to the two result lists. *)
Definition classify_node (sub_graph : Nx.graph) (node : string)
    (node_count node_degree : Z) (node_neis : list string)
    (lists : list row * list (list row)) : result (list row * list (list row)) :=
  let '(gen_lst, ambi_lst) := lists in
  if node_degree =? 1 then
    nei <- list_getitem node_neis 0 ;;
    nei_count <- Nx.node_count sub_graph nei ;;
    nei_degree <- Nx.degree sub_graph nei ;;
    if high_freq_thre cfg <=? nei_count then
      newline <- finish_line [PStr nei; PInt nei_count; PInt nei_degree;
                              PStr node; PInt node_count; PInt node_degree] ;;
      Ok (gen_lst ++ [newline], ambi_lst)
    else Ok (gen_lst, ambi_lst)
  else if node_degree <=? ambiguous_error_node_degree cfg then
    '(high_num, nei2count) <- collect_high sub_graph node_neis 0 [] ;;
    if high_num =? 1 then
      let nei2count := sort_desc Z.ltb snd nei2count in
      '(first_nei, first_nei_count) <- list_getitem nei2count 0 ;;
      first_nei_degree <- Nx.degree sub_graph first_nei ;;
      if high_freq_thre cfg <=? first_nei_count then
        newline <- finish_line [PStr first_nei; PInt first_nei_count;
                                PInt first_nei_degree;
                                PStr node; PInt node_count; PInt node_degree] ;;
        Ok (gen_lst ++ [newline], ambi_lst)
      else Ok (gen_lst, ambi_lst)
    else
      tmp_lst <- ambiguous_candidates sub_graph (last_opt node_neis)
                   node node_count node_degree nei2count [] ;;
      match tmp_lst with
      | [] => Ok (gen_lst, ambi_lst)
      | _ :: _ => Ok (gen_lst, ambi_lst ++ [tmp_lst])
      end
  else Ok (gen_lst, ambi_lst).

(** [node_count <= max_error_freq and not sub_graph.nodes[node]['flag']];
    the flag is only looked up when the count passes. *)
Definition eligible (sub_graph : Nx.graph) (node : string) (node_count : Z)
    : result bool :=
  if node_count <=? max_error_freq cfg
  then f <- Nx.node_flag sub_graph node ;; Ok (negb f)
  else Ok false.

(** Body of [for node in nodes_lst] in
    [extract_genuine_ambi_errs_subgraph]. *)
Definition visit_node (st : classifier_state) (node : string)
    : result classifier_state :=
  let '(sub_graph, gen_lst, ambi_lst) := st in
  node_count <- Nx.node_count sub_graph node ;;
  node_degree <- Nx.degree sub_graph node ;;
  go <- eligible sub_graph node node_count ;;
  if go : bool then
    node_neis <- Nx.neighbors sub_graph node ;;
    '(gen_lst, ambi_lst) <-
      classify_node sub_graph node node_count node_degree node_neis
                    (gen_lst, ambi_lst) ;;
    sub_graph <- Nx.set_flag sub_graph node true ;;
    Ok (sub_graph, gen_lst, ambi_lst)
  else Ok st.

(** The loop body in two halves: what it adds to the two lists for [node]
    ([node_emission]) and what it does to the graph ([mark]); [visit_node]
    is the two put together (lemma [visit_node_eq]). *)
Definition node_emission (sub_graph : Nx.graph) (node : string)
    : result (list row * list (list row)) :=
  node_count <- Nx.node_count sub_graph node ;;
  node_degree <- Nx.degree sub_graph node ;;
  go <- eligible sub_graph node node_count ;;
  if go : bool then
    node_neis <- Nx.neighbors sub_graph node ;;
    classify_node sub_graph node node_count node_degree node_neis ([], [])
  else Ok ([], []).

Definition mark (sub_graph : Nx.graph) (node : string) : result Nx.graph :=
  node_count <- Nx.node_count sub_graph node ;;
  go <- eligible sub_graph node node_count ;;
  if go : bool then Nx.set_flag sub_graph node true else Ok sub_graph.

(** A [for] loop whose body may raise. *)
Fixpoint for_each {S A : Type} (body : S -> A -> result S) (st : S)
    (l : list A) : result S :=
  match l with
  | [] => Ok st
  | x :: l' => st' <- body st x ;; for_each body st' l'
  end.

(** The pass over one subgraph object; together with the two lists it
    returns the subgraph as the pass leaves it (the [flag] attributes are
    updated in place). *)
Definition classify_subgraph (sub_graph : Nx.graph) : result classifier_state :=
  let edges_lst := Nx.edges sub_graph in
  if 0 <? Z.of_nat (List.length edges_lst) then
    let nodes_lst := Nx.nodes sub_graph in
    for_each visit_node (sub_graph, [], []) nodes_lst
  else Ok (sub_graph, [], []).

End Classifier.

(** [l[i] = x] on a list whose index [i] is known to be valid. *)
Fixpoint list_update {A : Type} (l : list A) (i : nat) (x : A) : list A :=
  match l, i with
  | [], _ => []
  | _ :: l', O => x :: l'
  | y :: l', S i' => y :: list_update l' i' x
  end.

Definition list_setitem {A : Type} (l : list A) (i : Z) (x : A) : list A :=
  let n := Z.of_nat (List.length l) in
  list_update l (Z.to_nat (if i <? 0 then i + n else i)) x.

(** [extract_genuine_ambi_errs_subgraph(self, shared_obs, ii)]: the result is
    the returned pair [[gen_lst, ambi_lst]] and the list of subgraphs with
    the visited one as it now stands. *)
Definition extract_genuine_ambi_errs_subgraph (cfg : config)
    (shared_obs : list Nx.graph * Z) (ii : Z)
    : result ((list row * list (list row)) * list Nx.graph) :=
  let '(sub_graphs, edit_dis) := shared_obs in
  sub_graph <- list_getitem sub_graphs ii ;;
  '(sub_graph', gen_lst, ambi_lst) <- classify_subgraph cfg edit_dis sub_graph ;;
  Ok ((gen_lst, ambi_lst), list_setitem sub_graphs ii sub_graph').

(** *** The scoring variant for UMI graphs *)

(** [x < y] on scores.  The source computes the scores in floating point;
    halving and adding integers of the size of read counts and degrees is
    exact there, so the scores are taken as rationals. *)
Definition Qltb (x y : Q) : bool := negb (Qle_bool y x).

Definition umi_state : Type := (Nx.graph * list row)%type.

Section Umi.

Variable cfg : config.

(** [for nei in node_neis: ... nei_degree_count.append((nei, tt, nei_count))] *)
Fixpoint umi_scores (sub_graph : Nx.graph) (node_neis : list string)
    (nei_degree_count : list (string * Q * Z))
    : result (list (string * Q * Z)) :=
  match node_neis with
  | [] => Ok nei_degree_count
  | nei :: rest =>
      nei_count <- Nx.node_count sub_graph nei ;;
      nei_degree <- Nx.degree sub_graph nei ;;
      let tt' := Qplus (Qmult (inject_Z nei_degree) (1 # 2))
                      (Qmult (inject_Z nei_count) (1 # 2)) in
      umi_scores sub_graph rest (nei_degree_count ++ [(nei, tt', nei_count)])
  end.

(** Body of [for node in nodes_lst] in [extract_umi_genuine_errs]. *)
Definition umi_visit_node (st : umi_state) (node : string) : result umi_state :=
  let '(sub_graph, genuine_df) := st in
  node_count <- Nx.node_count sub_graph node ;;
  node_degree <- Nx.degree sub_graph node ;;
  go <-
    (if (1 <=? node_degree) && (node_degree <=? 4)
        && (node_count <=? max_error_freq cfg)
     then f <- Nx.node_flag sub_graph node ;; Ok (negb f)
     else Ok false) ;;
  if go : bool then
    node_neis <- Nx.neighbors sub_graph node ;;
    nei_degree_count <- umi_scores sub_graph node_neis [] ;;
    let nei_degree_count :=
      sort_desc Qltb (fun x => snd (fst x)) nei_degree_count in
    '(first_nei, tt', first_nei_count) <- list_getitem nei_degree_count 0 ;;
    first_nei_degree <- Nx.degree sub_graph first_nei ;;
    if high_freq_thre cfg <=? first_nei_count then
      newline <- err_type_classification
                   [PStr first_nei; PInt first_nei_count; PInt first_nei_degree;
                    PStr node; PInt node_count; PInt node_degree] ;;
      sub_graph <- Nx.set_flag sub_graph node true ;;
      Ok (sub_graph, genuine_df ++ [newline])
    else Ok st
  else Ok st.

(** One iteration of [for sub_graph in subgraphs]. *)
Definition umi_subgraph (st : umi_state) : result umi_state :=
  let '(sub_graph, genuine_df) := st in
  let edges_lst := Nx.edges sub_graph in
  if 0 <? Z.of_nat (List.length edges_lst) then
    for_each umi_visit_node st (Nx.nodes sub_graph)
  else Ok st.

Fixpoint umi_loop (subgraphs : list Nx.graph) (genuine_df : list row)
    : result (list Nx.graph * list row) :=
  match subgraphs with
  | [] => Ok ([], genuine_df)
  | sub_graph :: rest =>
      '(sub_graph', genuine_df) <- umi_subgraph (sub_graph, genuine_df) ;;
      '(rest', genuine_df) <- umi_loop rest genuine_df ;;
      Ok (sub_graph' :: rest', genuine_df)
  end.

(** [extract_umi_genuine_errs], from the list of component copies on: the
    rows of [genuine_df] and the subgraphs as the pass leaves them. *)
Definition extract_umi_genuine_errs (subgraphs : list Nx.graph)
    : result (list Nx.graph * list row) :=
  umi_loop subgraphs [].

End Umi.

(** *** Isolated negatives *)

(** [for k in isolates: ...] *)
Fixpoint negatives_loop (cfg : config) (graph : Nx.graph)
    (isolates : list string) (negative_df : list row) : result (list row) :=
  match isolates with
  | [] => Ok negative_df
  | k :: rest =>
      k_count <- Nx.node_count graph k ;;
      if high_freq_thre cfg <=? k_count then
        k_degree <- Nx.degree graph k ;;
        negatives_loop cfg graph rest
          (negative_df ++ [[PStr k; PInt k_count; PInt k_degree]])
      else negatives_loop cfg graph rest negative_df
  end.

(** [extract_isolated_negatives]: [isolates] is only assigned when the graph
    is not connected.  The set of isolates is listed in node order. *)
Definition extract_isolated_negatives (cfg : config) (graph : Nx.graph)
    (edit_dis : Z) : result (list row) :=
  connected <- Nx.is_connected graph ;;
  let isolates := if negb connected then Some (Nx.isolates graph) else None in
  isolates <- match isolates with
              | Some s => Ok s
              | None => Raise UnboundLocalError
              end ;;
  negatives_loop cfg graph isolates [].

(** *** Graph construction *)

(** What the worker pool is asked to do: one task per dispatched read. *)
Inductive event : Type :=
  | Dispatch (read : string).

(** [Counter(total_seqs)]: occurrence counts, keyed in order of first
    occurrence. *)
Fixpoint counter_add (c : list (string * Z)) (s : string) : list (string * Z) :=
  match c with
  | [] => [(s, 1)]
  | (k, n) :: c' =>
      if String.eqb k s then (k, n + 1) :: c' else (k, n) :: counter_add c' s
  end.

Definition Counter (l : list string) : list (string * Z) :=
  fold_left counter_add l [].

(** [seqs2id_dict.setdefault(seq, []).append(id)] *)
Fixpoint setdefault_append (d : list (string * list string)) (seq id : string)
    : list (string * list string) :=
  match d with
  | [] => [(seq, [id])]
  | (k, ids) :: d' =>
      if String.eqb k seq then (k, ids ++ [id]) :: d'
      else (k, ids) :: setdefault_append d' seq id
  end.

(** [set(l)], listed in order of first occurrence. *)
Fixpoint set_of {A : Type} (eqb : A -> A -> bool) (l : list A) : list A :=
  match l with
  | [] => []
  | x :: l' => x :: filter (fun y => negb (eqb x y)) (set_of eqb l')
  end.

Record graph_output : Type := mk_output {
  out_graph : Nx.graph;
  out_seq_lens_set : option (list Z);
  out_seqs2id_dict : option (list (string * list string));
  out_unique_seqs : list string
}.

Section GraphBuilder.

Variable cfg : config.

(** The neighbourhood enumerators of [noise2read.utils]; their results are
    sets, listed here in some order. *)
Variable enumerate_ed1_seqs : string -> list string.
Variable enumerate_ed2_seqs : string -> list string.

(** [real_ed1_seqs(total_seqs, read)] *)
Definition real_ed1_seqs (total_seqs : list string) (read : string)
    : list (string * string) :=
  let possible_ed1 := enumerate_ed1_seqs read in
  let real_seqs := filter (fun s => Nx.mem s possible_ed1) total_seqs in
  map (fun s => (read, s)) real_seqs.

(** [real_ed2_seqs(low_seqs, read)] *)
Definition real_ed2_seqs (low_seqs : list string) (read : string)
    : list (string * string) :=
  let possible_ed2 := set_of String.eqb (enumerate_ed2_seqs read) in
  let real_ed2_seqs := filter (fun s => Nx.mem s low_seqs) possible_ed2 in
  map (fun s => (read, s)) real_ed2_seqs.

(** [for read, frequency in read_count.items(): ...] *)
Fixpoint count_loop (read_count : list (string * Z))
    (st : Nx.graph * list string * list string)
    : Nx.graph * list string * list string :=
  match read_count with
  | [] => st
  | (read, frequency) :: rest =>
      let '(graph, high_freq, low_freq) := st in
      let graph := if negb (Nx.has_node graph read)
                   then Nx.add_node graph read frequency false else graph in
      if high_freq_thre cfg <=? frequency
      then count_loop rest (graph, high_freq ++ [read], low_freq)
      else count_loop rest (graph, high_freq, low_freq ++ [read])
  end.

(** [pool.imap(f, high_freq)] followed by [edges_lst.extend(edge_lst)]: one
    task per read, results gathered in order. *)
Definition pool_imap (f : string -> list (string * string))
    (high_freq : list string) : list event * list (string * string) :=
  (map Dispatch high_freq, flat_map f high_freq).

(** [generate_graph(data_set, edit_dis)], from the parsed records
    (identifier and sequence) on: the tasks handed to the pool and the way
    the call ends. *)
Definition generate_graph (records : list (string * string)) (edit_dis : Z)
    : list event * result graph_output :=
  let total_seqs := map snd records in
  let seq_lens_set := set_of Z.eqb (map len total_seqs) in
  let seqs2id_dict :=
    fold_left (fun d item => setdefault_append d (snd item) (fst item))
              records [] in
  let unique_seqs := set_of String.eqb total_seqs in
  let read_count := Counter total_seqs in
  let '(graph, high_freq, low_freq) := count_loop read_count ([], [], []) in
  if Z.of_nat (List.length high_freq) =? 0 then ([], Raise (SystemExit 1))
  else
    let shared_unique_seqs :=
      if edit_dis =? 1 then Some unique_seqs
      else if edit_dis =? 2 then Some low_freq
      else None in
    match shared_unique_seqs with
    | None => ([], Raise UnboundLocalError)
    | Some shared_unique_seqs =>
        let '(events, edges_lst) :=
          if edit_dis =? 1
          then pool_imap (real_ed1_seqs shared_unique_seqs) high_freq
          else pool_imap (real_ed2_seqs shared_unique_seqs) high_freq in
        let graph :=
          if 0 <? Z.of_nat (List.length edges_lst)
          then Nx.add_edges_from graph edges_lst else graph in
        (events,
         Ok (if edit_dis =? 1
             then mk_output graph (Some seq_lens_set) (Some seqs2id_dict) unique_seqs
             else mk_output graph None None unique_seqs))
    end.

End GraphBuilder.

(** Modelled from the spec: [enumerate_ed1_seqs] of [noise2read.utils] is not
    part of the sources at hand.  "For every position, substitute with every
    alphabet symbol other than the original", over the alphabet A, C, G, T. *)
Definition alphabet : list ascii := ["A"; "C"; "G"; "T"]%char.

Fixpoint substitutions (s : string) : list string :=
  match s with
  | EmptyString => []
  | String c s' =>
      map (fun a => String a s') (filter (fun a => negb (Ascii.eqb a c)) alphabet)
      ++ map (String c) (substitutions s')
  end.

Definition enumerate_ed1_seqs : string -> list string := substitutions.

(** Modelled from the spec: [enumerate_ed2_seqs] of [noise2read.utils] is not
    part of the sources at hand.  "Same but over every unordered pair of
    positions with every combination of two substitutions". *)
Fixpoint enumerate_ed2_seqs (s : string) : list string :=
  match s with
  | EmptyString => []
  | String c s' =>
      flat_map (fun a => map (String a) (substitutions s'))
               (filter (fun a => negb (Ascii.eqb a c)) alphabet)
      ++ map (String c) (enumerate_ed2_seqs s')
  end.

(** *** Merging the passes *)

(** The column lists of [extract_genuine_ambi_errs]; for an [edit_dis] other
    than 1, 2 and 3 neither name is bound. *)
Definition genu_columns (edit_dis : Z) : option (list string) :=
  if edit_dis =? 1 then
    Some ["StartRead"; "StartReadCount"; "StartDegree"; "ErrorTye";
          "ErrorPosition"; "StartErrKmer"; "EndErrKmer"; "EndRead";
          "EndReadCount"; "EndDegree"]
  else if (edit_dis =? 2) || (edit_dis =? 3) then
    Some ["StartRead"; "StartReadCount"; "StartDegree"; "EndRead";
          "EndReadCount"; "EndDegree"]
  else None.

Definition ambiguous_columns (edit_dis : Z) : option (list string) :=
  if edit_dis =? 1 then
    Some ["idx"; "StartRead"; "StartReadCount"; "StartDegree"; "ErrorTye";
          "ErrorPosition"; "StartErrKmer"; "EndErrKmer"; "EndRead";
          "EndReadCount"; "EndDegree"]
  else if (edit_dis =? 2) || (edit_dis =? 3) then
    Some ["idx"; "StartRead"; "StartReadCount"; "StartDegree"; "EndRead";
          "EndReadCount"; "EndDegree"]
  else None.

(** A [DataFrame]: its column names and its rows, in order. *)
Definition frame : Type := (list string * list row)%type.

(** [for genu_ambi_lst in pool.imap(self.extract_genuine_ambi_errs_subgraph,
    range(subgraph_num)): if genu_ambi_lst[0]: ...].  The workers are forked:
    the flags that a task sets stay in the worker, and every task reads the
    subgraphs as they were handed to the pool. *)
Fixpoint gather_results (cfg : config) (shared_obs : list Nx.graph * Z)
    (indices : list Z) (genuine_lst : list row) (ambiguous_lst : list (list row))
    : result (list row * list (list row)) :=
  match indices with
  | [] => Ok (genuine_lst, ambiguous_lst)
  | ii :: rest =>
      '(genu_ambi_lst, _) <- extract_genuine_ambi_errs_subgraph cfg shared_obs ii ;;
      match fst genu_ambi_lst with
      | [] => gather_results cfg shared_obs rest genuine_lst ambiguous_lst
      | _ :: _ =>
          gather_results cfg shared_obs rest
            (genuine_lst ++ fst genu_ambi_lst)
            (ambiguous_lst ++ snd genu_ambi_lst)
      end
  end.

(** [for a_item in ambiguous_lst: for sub_item in a_item:
    sub_item.insert(0, idx); ambiguous_df.loc[len(ambiguous_df)] = sub_item]
    and then [idx += 1]. *)
Fixpoint number_groups (ambiguous_lst : list (list row)) (idx : Z)
    (ambiguous_df : list row) : list row :=
  match ambiguous_lst with
  | [] => ambiguous_df
  | a_item :: rest =>
      number_groups rest (idx + 1)
        (ambiguous_df ++ map (fun sub_item => PInt idx :: sub_item) a_item)
  end.

(** [extract_genuine_ambi_errs(subgraphs, edit_dis)]: the two frames.  That
    the rows have the width of the column lists, as pandas requires, is
    proved among the properties of the merge. *)
Definition extract_genuine_ambi_errs (cfg : config) (subgraphs : list Nx.graph)
    (edit_dis : Z) : result (frame * frame) :=
  let subgraph_num := Z.of_nat (List.length subgraphs) in
  let shared_obs := (subgraphs, edit_dis) in
  '(genuine_lst, ambiguous_lst) <-
    gather_results cfg shared_obs (range subgraph_num) [] [] ;;
  match genu_columns edit_dis, ambiguous_columns edit_dis with
  | Some genu_columns, Some ambiguous_columns =>
      Ok ((genu_columns, genuine_lst),
          (ambiguous_columns, number_groups ambiguous_lst 0 []))
  | _, _ => Raise UnboundLocalError
  end.

(** *** High-ambiguous pairs *)

(** Body of [for (a, b) in edges_lst] in [extract_high_ambiguous_errs]. *)
Definition high_ambiguous_edge (cfg : config) (s : Nx.graph)
    (st : list row * Z) (e : string * string) : result (list row * Z) :=
  let '(high_ambiguous_df, idx) := st in
  let '(a, b) := e in
  a_count <- Nx.node_count s a ;;
  b_count <- Nx.node_count s b ;;
  a_degree <- Nx.degree s a ;;
  b_degree <- Nx.degree s b ;;
  if (high_freq_thre cfg <? a_count) && (high_freq_thre cfg <? b_count) then
    new_a2b <- err_type_classification
                 [PStr a; PInt a_count; PInt a_degree;
                  PStr b; PInt b_count; PInt b_degree] ;;
    let high_ambiguous_df := high_ambiguous_df ++ [PInt idx :: new_a2b] in
    new_b2a <- err_type_classification
                 [PStr b; PInt b_count; PInt b_degree;
                  PStr a; PInt a_count; PInt a_degree] ;;
    let high_ambiguous_df := high_ambiguous_df ++ [PInt idx :: new_b2a] in
    Ok (high_ambiguous_df, idx + 1)
  else Ok st.

(** One iteration of [for s in subgraphs]. *)
Definition high_ambiguous_subgraph (cfg : config) (st : list row * Z)
    (s : Nx.graph) : result (list row * Z) :=
  let edges_lst := Nx.edges s in
  if 0 <? Z.of_nat (List.length edges_lst)
  then for_each (high_ambiguous_edge cfg s) st edges_lst
  else Ok st.

(** [extract_high_ambiguous_errs(subgraphs)]: the rows of
    [high_ambiguous_df]. *)
Definition extract_high_ambiguous_errs (cfg : config)
    (subgraphs : list Nx.graph) : result (list row) :=
  '(high_ambiguous_df, _) <-
    for_each (high_ambiguous_subgraph cfg) ([], 0) subgraphs ;;
  Ok high_ambiguous_df.

(** *** Amplicon errors *)

(** The first loop of [extract_amplicon_err_samples] on one subgraph:
    [sub_graph.nodes[node]['flag'] = False] for every node, when the
    subgraph has an edge. *)
Definition amplicon_reset (sub_graph : Nx.graph) : result Nx.graph :=
  let edges_lst := Nx.edges sub_graph in
  if 0 <? Z.of_nat (List.length edges_lst) then
    for_each (fun g node => Nx.set_flag g node false) sub_graph
             (Nx.nodes sub_graph)
  else Ok sub_graph.

Fixpoint amplicon_reset_all (subgraphs : list Nx.graph)
    : result (list Nx.graph) :=
  match subgraphs with
  | [] => Ok []
  | sub_graph :: rest =>
      sub_graph' <- amplicon_reset sub_graph ;;
      rest' <- amplicon_reset_all rest ;;
      Ok (sub_graph' :: rest')
  end.

Definition amplicon_state : Type := (Nx.graph * list row * Z)%type.

Section Amplicon.

(** [amplicon_low_freq] and [amplicon_high_freq] are arguments of the
    method; [amplicon_error_node_degree] is read from the configuration. *)
Variable amplicon_low_freq : Z.
Variable amplicon_high_freq : Z.
Variable amplicon_error_node_degree : Z.

(** [for nei in node_neis: ...] *)
Fixpoint amplicon_neighbors (sub_graph : Nx.graph) (node : string)
    (node_count node_degree idx : Z) (node_neis : list string)
    (amplicon_df : list row) : result (list row) :=
  match node_neis with
  | [] => Ok amplicon_df
  | nei :: rest =>
      nei_count <- Nx.node_count sub_graph nei ;;
      nei_degree <- Nx.degree sub_graph nei ;;
      if amplicon_high_freq <=? nei_count then
        new_line <- err_type_classification
                      [PStr nei; PInt nei_count; PInt nei_degree;
                       PStr node; PInt node_count; PInt node_degree] ;;
        amplicon_neighbors sub_graph node node_count node_degree idx rest
                           (amplicon_df ++ [PInt idx :: new_line])
      else
        amplicon_neighbors sub_graph node node_count node_degree idx rest
                           amplicon_df
  end.

(** Body of [for node in nodes_lst] in the second loop; the three tests of
    the [if] are made from left to right. *)
Definition amplicon_visit_node (st : amplicon_state) (node : string)
    : result amplicon_state :=
  let '(sub_graph, amplicon_df, idx) := st in
  node_count <- Nx.node_count sub_graph node ;;
  node_degree <- Nx.degree sub_graph node ;;
  go <-
    (if node_count <=? amplicon_low_freq then
       f <- Nx.node_flag sub_graph node ;;
       Ok (negb f && (node_degree <=? amplicon_error_node_degree))
     else Ok false) ;;
  if go : bool then
    node_neis <- Nx.neighbors sub_graph node ;;
    amplicon_df <- amplicon_neighbors sub_graph node node_count node_degree
                     idx node_neis amplicon_df ;;
    sub_graph <- Nx.set_flag sub_graph node true ;;
    Ok (sub_graph, amplicon_df, idx + 1)
  else Ok st.

(** One iteration of the second [for sub_graph in subgraphs]. *)
Definition amplicon_subgraph (st : list row * Z) (sub_graph : Nx.graph)
    : result (list row * Z) :=
  let '(amplicon_df, idx) := st in
  let edges_lst := Nx.edges sub_graph in
  if 0 <? Z.of_nat (List.length edges_lst) then
    '(_, amplicon_df, idx) <-
      for_each amplicon_visit_node (sub_graph, amplicon_df, idx)
               (Nx.nodes sub_graph) ;;
    Ok (amplicon_df, idx)
  else Ok st.

(** [extract_amplicon_err_samples], from the list of component copies on:
    the rows of [amplicon_df]. *)
Definition extract_amplicon_err_samples (subgraphs : list Nx.graph)
    : result (list row) :=
  subgraphs <- amplicon_reset_all subgraphs ;;
  '(amplicon_df, _) <- for_each amplicon_subgraph ([], 0) subgraphs ;;
  Ok amplicon_df.

End Amplicon.

(** *** Isolates *)

(** [s.split(sep)] for a one-character separator. *)
Fixpoint str_split (sep : ascii) (s : string) : list string :=
  match s with
  | EmptyString => [EmptyString]
  | String c s' =>
      if Ascii.eqb c sep then EmptyString :: str_split sep s'
      else match str_split sep s' with
           | h :: t => String c h :: t
           | [] => [String c EmptyString]
           end
  end.

(** [d[k]] on a dictionary. *)
Fixpoint dict_getitem {V : Type} (d : list (string * V)) (k : string)
    : result V :=
  match d with
  | [] => Raise KeyError
  | (k', v) :: d' => if String.eqb k' k then Ok v else dict_getitem d' k
  end.

(** [for k in keys: name_lst.extend(seqs2id_dict[k])] *)
Fixpoint extend_names (seqs2id_dict : list (string * list string))
    (keys : list string) (name_lst : list string) : result (list string) :=
  match keys with
  | [] => Ok name_lst
  | k :: rest =>
      ids <- dict_getitem seqs2id_dict k ;;
      extend_names seqs2id_dict rest (name_lst ++ ids)
  end.

(** [extract_isolates(graph, unique_seqs, seqs2id_dict)], with
    [self.config.input_file], [self.config.result_dir] and [self.file_type]
    as further arguments.  The result is the two file names returned, each
    with the list of identifiers that [extract_records] is asked to write to
    it.  The two sets are listed in node order and in the order of
    [unique_seqs]. *)
Definition extract_isolates (input_file result_dir file_type : string)
    (graph : Nx.graph) (unique_seqs : list string)
    (seqs2id_dict : list (string * list string))
    : result ((string * list string) * (string * list string)) :=
  connected <- Nx.is_connected graph ;;
  let isolates := if negb connected then Some (Nx.isolates graph) else None in
  isolates <- match isolates with
              | Some s => Ok s
              | None => Raise UnboundLocalError
              end ;;
  let nonisolated_seqs :=
    filter (fun s => negb (Nx.mem s isolates)) unique_seqs in
  name_lst <- extend_names seqs2id_dict isolates [] ;;
  non_name_lst <- extend_names seqs2id_dict nonisolated_seqs [] ;;
  bases <- list_getitem (str_split "/" input_file) (-1) ;;
  let base := str_split "." bases in
  files <-
    (if Nx.mem file_type ["fastq"; "fq"; "fastq.gz"; "fq.gz"] then
       base0 <- list_getitem base 0 ;;
       Ok (Some (result_dir +++ base0 +++ "_isolates.fastq",
                 result_dir +++ base0 +++ "_non_isolates.fastq"))
     else if Nx.mem file_type ["fasta"; "fa"; "fasta.gz"; "fas.gz"] then
       base0 <- list_getitem base 0 ;;
       Ok (Some (result_dir +++ base0 +++ "_isolates.fasta",
                 result_dir +++ base0 +++ "_non_isolates.fasta"))
     else Ok None) ;;
  match files with
  | Some (isolates_file, non_isolates_file) =>
      Ok ((isolates_file, name_lst), (non_isolates_file, non_name_lst))
  | None => Raise UnboundLocalError
  end.

(** *** The samples of one graph *)

(** [extract_err_samples(graph, edit_dis)].  [subgraphs] stands for the list
    of component copies that the method makes first,
    [[graph.subgraph(c).copy() for c in nx.connected_components(graph)]],
    and [high_ambiguous] for [self.config.high_ambiguous]; the
    high-ambiguous frame is only extracted, and returned as a fourth value,
    in edit-distance-1 mode with that option set. *)
Definition extract_err_samples (cfg : config) (high_ambiguous : bool)
    (graph : Nx.graph) (subgraphs : list Nx.graph) (edit_dis : Z)
    : result (frame * list row * frame * option (list row)) :=
  '(genuine_df, ambiguous_df) <-
    extract_genuine_ambi_errs cfg subgraphs edit_dis ;;
  negative_df <- extract_isolated_negatives cfg graph edit_dis ;;
  if (edit_dis =? 1) && high_ambiguous then
    high_ambiguous_df <- extract_high_ambiguous_errs cfg subgraphs ;;
    Ok (genuine_df, negative_df, ambiguous_df, Some high_ambiguous_df)
  else Ok (genuine_df, negative_df, ambiguous_df, None).

(** *** The results of the class *)

(** [max(l)] and [min(l)]; both raise [ValueError] on an empty argument. *)
Definition py_max (l : list Z) : result Z :=
  match l with
  | [] => Raise ValueError
  | x :: l' => Ok (fold_left Z.max l' x)
  end.

Definition py_min (l : list Z) : result Z :=
  match l with
  | [] => Raise ValueError
  | x :: l' => Ok (fold_left Z.min l' x)
  end.

(** What [data_files] returns; the last field is the ninth value of the
    tuple, present when [self.config.high_ambiguous] is set. *)
Record data_files_output : Type := mk_data_files {
  res_isolates_file : string * list string;
  res_non_isolates_file : string * list string;
  res_unique_seqs : list string;
  res_seq_max_len : Z;
  res_seq_min_len : Z;
  res_genuine_df : frame;
  res_negative_df : list row;
  res_ambiguous_df : frame;
  res_high_ambiguous_df : option (list row)
}.

Section DataFiles.

Variable cfg : config.
Variable high_ambiguous : bool.
(** The neighbourhood enumerators of [noise2read.utils]. *)
Variables ed1 ed2 : string -> list string.

(** The component copies that [extract_err_samples] makes of a graph. *)
Variable component_copies : Nx.graph -> list Nx.graph.

Variable input_file : string.
Variable result_dir : string.
Variable file_type : string.

(** [data_files(edit_dis)], from the parsed records of
    [self.config.input_file] on.  Unpacking the result of [generate_graph]
    into four names, and that of [extract_err_samples] into four or three,
    raises [ValueError] when the number of values is another. *)
Definition data_files (records : list (string * string)) (edit_dis : Z)
    : list event * result data_files_output :=
  let '(events, returned) :=
    generate_graph cfg ed1 ed2 records edit_dis in
  (events,
   out <- returned ;;
   '(seqs_lens_lst, seqs2id_dict) <-
     match out_seq_lens_set out, out_seqs2id_dict out with
     | Some l, Some d => Ok (l, d)
     | _, _ => Raise ValueError
     end ;;
   let graph := out_graph out in
   let unique_seqs := out_unique_seqs out in
   seq_max_len <- py_max seqs_lens_lst ;;
   seq_min_len <- py_min seqs_lens_lst ;;
   samples <-
     (if (edit_dis =? 1) && high_ambiguous then
        '(genuine_df, negative_df, ambiguous_df, fourth) <-
          extract_err_samples cfg high_ambiguous graph
                              (component_copies graph) edit_dis ;;
        match fourth with
        | Some high_ambiguous_df =>
            Ok (Some (genuine_df, negative_df, ambiguous_df,
                      Some high_ambiguous_df))
        | None => Raise ValueError
        end
      else if (edit_dis =? 2) || (edit_dis =? 1) then
        '(genuine_df, negative_df, ambiguous_df, fourth) <-
          extract_err_samples cfg high_ambiguous graph
                              (component_copies graph) edit_dis ;;
        match fourth with
        | None => Ok (Some (genuine_df, negative_df, ambiguous_df, None))
        | Some _ => Raise ValueError
        end
      else Ok None) ;;
   '(isolates_file, non_isolates_file) <-
     extract_isolates input_file result_dir file_type graph unique_seqs
                      seqs2id_dict ;;
   match samples with
   | Some (genuine_df, negative_df, ambiguous_df, fourth) =>
       if high_ambiguous then
         match fourth with
         | Some high_ambiguous_df =>
             Ok (mk_data_files isolates_file non_isolates_file unique_seqs
                   seq_max_len seq_min_len genuine_df negative_df ambiguous_df
                   (Some high_ambiguous_df))
         | None => Raise UnboundLocalError
         end
       else
         Ok (mk_data_files isolates_file non_isolates_file unique_seqs
               seq_max_len seq_min_len genuine_df negative_df ambiguous_df None)
   | None => Raise UnboundLocalError
   end).

End DataFiles.

(** ** Reading the input and the graph *)

(** How often a read occurs among the input sequences. *)
Definition occurrences (read : string) (total_seqs : list string) : Z :=
  Z.of_nat (count_occ string_dec total_seqs read).

(** [c[read]] on a [Counter]: 0 for a read that is not a key. *)
Fixpoint counter_get (c : list (string * Z)) (read : string) : Z :=
  match c with
  | [] => 0
  | (k, n) :: c' => if String.eqb k read then n else counter_get c' read
  end.

(** [v] is in the adjacency of [u]. *)
Definition adjacent (g : Nx.graph) (u v : string) : Prop :=
  exists d, In (u, d) g /\ In v (Nx.adj d).

(** The node keys of a graph with their two attributes: what adding edges
    between existing nodes never changes. *)
Definition attributes (g : Nx.graph) : list (string * (option Z * option bool)) :=
  map (fun kd => (fst kd, (Nx.attr_count (snd kd), Nx.attr_flag (snd kd)))) g.

(** [d.get(k)] on a dictionary. *)
Fixpoint dict_get {V : Type} (d : list (string * V)) (k : string) : option V :=
  match d with
  | [] => None
  | (k', v) :: d' => if String.eqb k' k then Some v else dict_get d' k
  end.

(** The identifiers of the records that carry the sequence [seq], in input
    order. *)
Definition ids_of (seq : string) (records : list (string * string))
    : list string :=
  map fst (filter (fun item => String.eqb (snd item) seq) records).

(** ** Reading the rows *)

(** [StartRead] is the first column of every row; [EndRead] is column 7 of
    an annotated row and column 3 of a bare one (the column lists of
    [extract_genuine_ambi_errs]). *)
Definition parent_of (r : row) : option pyval := nth_error r 0.

Definition start_degree_of (r : row) : option pyval := nth_error r 2.

Definition child_of (edit_dis : Z) (r : row) : option pyval :=
  nth_error r (if edit_dis =? 1 then 7 else 3).

Definition is_child (edit_dis : Z) (node : string) (r : row) : bool :=
  match child_of edit_dis r with
  | Some v => pyval_eqb v (PStr node)
  | None => false
  end.

(** The rows of [gen_lst] and the groups of [ambi_lst] that a node is the
    child of. *)
Definition records_of (edit_dis : Z) (node : string) (gen_lst : list row)
    : list row :=
  filter (is_child edit_dis node) gen_lst.

Definition groups_of (edit_dis : Z) (node : string) (ambi_lst : list (list row))
    : list (list row) :=
  filter (existsb (is_child edit_dis node)) ambi_lst.

(** The four classes of a pass that returned [gen_lst] and [ambi_lst]. *)
Definition in_genuine (edit_dis : Z) (gen_lst : list row) (n : string) : bool :=
  existsb (is_child edit_dis n) gen_lst.

Definition in_ambiguous (edit_dis : Z) (ambi_lst : list (list row)) (n : string)
    : bool :=
  existsb (existsb (is_child edit_dis n)) ambi_lst.

Definition filtered_by_count (cfg : config) (g : Nx.graph) (n : string) : bool :=
  match Nx.node_count g n with
  | Ok c => max_error_freq cfg <? c
  | Raise _ => false
  end.

Definition unclassified (cfg : config) (edit_dis : Z) (g : Nx.graph)
    (gen_lst : list row) (ambi_lst : list (list row)) (n : string) : bool :=
  match Nx.node_count g n with
  | Ok c => (c <=? max_error_freq cfg)
            && negb (in_genuine edit_dis gen_lst n)
            && negb (in_ambiguous edit_dis ambi_lst n)
  | Raise _ => false
  end.

Definition exactly_one (a b c d : bool) : bool :=
  match a, b, c, d with
  | true, false, false, false
  | false, true, false, false
  | false, false, true, false
  | false, false, false, true => true
  | _, _, _, _ => false
  end.

(** The high-frequency neighbours among [node_neis], in order. *)
Definition high_neighbors (cfg : config) (g : Nx.graph) (node_neis : list string)
    : list string :=
  filter (fun nei => match Nx.node_count g nei with
                     | Ok c => high_freq_thre cfg <=? c
                     | Raise _ => false
                     end) node_neis.

(** The same with their counts: what the first inner loop collects. *)
Definition high_pairs (cfg : config) (g : Nx.graph) (node_neis : list string)
    : list (string * Z) :=
  flat_map (fun nei => match Nx.node_count g nei with
                       | Ok c => if high_freq_thre cfg <=? c then [(nei, c)] else []
                       | Raise _ => []
                       end) node_neis.

(** Every edge joins two non-empty reads at edit distance 1. *)
Definition ed1_graph (g : Nx.graph) : bool :=
  forallb (fun kd =>
    forallb (fun v => (0 <? len (fst kd)) && (0 <? len v)
                      && (editdistance_eval v (fst kd) =? 1))
            (Nx.adj (snd kd))) g.

(** The first element of greatest key: what heads a stable sort in
    descending order. *)
Fixpoint first_max {A K : Type} (ltb : K -> K -> bool) (key : A -> K)
    (l : list A) : option A :=
  match l with
  | [] => None
  | x :: l' =>
      match first_max ltb key l' with
      | None => Some x
      | Some m => if ltb (key x) (key m) then Some m else Some x
      end
  end.

(** The score of a neighbour in the UMI variant and the best-scored
    neighbour of a node, with its count. *)
Definition umi_score (g : Nx.graph) (nei : string) : Q :=
  match Nx.degree g nei, Nx.node_count g nei with
  | Ok d, Ok c => Qplus (Qmult (inject_Z d) (1 # 2)) (Qmult (inject_Z c) (1 # 2))
  | _, _ => 0%Q
  end.

Definition best_neighbor (g : Nx.graph) (node : string) : option (string * Z) :=
  match Nx.neighbors g node with
  | Ok neis =>
      match first_max Qltb (umi_score g) neis with
      | Some nei =>
          match Nx.node_count g nei with
          | Ok c => Some (nei, c)
          | Raise _ => None
          end
      | None => None
      end
  | Raise _ => None
  end.

(** [row] is the genuine row of the UMI variant for [node] in [g]. *)
Definition umi_emits (cfg : config) (g : Nx.graph) (node : string) (r : row)
    : Prop :=
  exists c d first fc fd,
    Nx.node_count g node = Ok c /\ Nx.degree g node = Ok d /\
    1 <= d <= 4 /\ c <= max_error_freq cfg /\
    best_neighbor g node = Some (first, fc) /\ high_freq_thre cfg <= fc /\
    Nx.degree g first = Ok fd /\
    err_type_classification
      [PStr first; PInt fc; PInt fd; PStr node; PInt c; PInt d] = Ok r.

(** What a classification pass never changes: the node keys in order, the
    counts and the adjacency (everything but the [flag] attributes). *)
Definition view (d : Nx.node_data) : option Z * list string :=
  (Nx.attr_count d, Nx.adj d).

Definition skeleton (g : Nx.graph) : list (string * (option Z * list string)) :=
  map (fun kd => (fst kd, view (snd kd))) g.

(** One row [read, count, 0] per isolated read with count at least
    [high_freq_thre], in order. *)
Definition negative_rows (cfg : config) (g : Nx.graph) (isolates : list string)
    : list row :=
  flat_map (fun k => match Nx.node_count g k with
                     | Ok c => if high_freq_thre cfg <=? c
                               then [[PStr k; PInt c; PInt 0]] else []
                     | Raise _ => []
                     end) isolates.

(** The record of the same two reads taken the other way round: the reads
    with their counts and degrees exchanged, the two letters of the error
    type exchanged, the two k-mers exchanged, the position kept. *)
Definition mirror_type (t : string) : string :=
  match t with
  | String x (String m (String y EmptyString)) =>
      String y (String m (String x EmptyString))
  | _ => t
  end.

Definition mirror (r : row) : row :=
  match r with
  | [a; b; c; PStr t; p; k1; k2; d; e; f] =>
      [d; e; f; PStr (mirror_type t); p; k2; k1; a; b; c]
  | _ => r
  end.

(** A pass result that has at least one genuine row. *)
Definition has_genuine (res : list row * list (list row)) : bool :=
  match fst res with
  | [] => false
  | _ :: _ => true
  end.

(** Groups with a leading [idx]: the rows of the first group carry [idx],
    those of the next [idx + 1], and so on. *)
Fixpoint numbered (idx : Z) (groups : list (list row)) : list row :=
  match groups with
  | [] => []
  | grp :: rest =>
      map (fun r => PInt idx :: r) grp ++ numbered (idx + 1) rest
  end.

(** An edge both of whose ends have a count above [high_freq_thre]. *)
Definition high_pair (cfg : config) (s : Nx.graph) (e : string * string)
    : bool :=
  match Nx.node_count s (fst e), Nx.node_count s (snd e) with
  | Ok a_count, Ok b_count =>
      (high_freq_thre cfg <? a_count) && (high_freq_thre cfg <? b_count)
  | _, _ => false
  end.

Definition high_edges (cfg : config) (subgraphs : list Nx.graph)
    : list (Nx.graph * (string * string)) :=
  flat_map (fun s => map (pair s) (filter (high_pair cfg s) (Nx.edges s)))
           subgraphs.

(** [r] is the annotated line of the edge [e] of [s], read from its first
    end to its second. *)
Definition pair_row (se : Nx.graph * (string * string)) (r : row) : Prop :=
  let '(s, (a, b)) := se in
  exists a_count a_degree b_count b_degree,
    Nx.node_count s a = Ok a_count /\ Nx.degree s a = Ok a_degree /\
    Nx.node_count s b = Ok b_count /\ Nx.degree s b = Ok b_degree /\
    err_type_classification
      [PStr a; PInt a_count; PInt a_degree;
       PStr b; PInt b_count; PInt b_degree] = Ok r.

(** Every row followed by its mirror image, both under the same [idx],
    which grows by one from pair to pair. *)
Fixpoint number_pairs (idx : Z) (rows : list row) : list row :=
  match rows with
  | [] => []
  | r :: rest =>
      (PInt idx :: r) :: (PInt idx :: mirror r) :: number_pairs (idx + 1) rest
  end.

(** The file types for which [extract_isolates] has file names. *)
Definition known_file_type (file_type : string) : bool :=
  Nx.mem file_type ["fastq"; "fq"; "fastq.gz"; "fq.gz"]
  || Nx.mem file_type ["fasta"; "fa"; "fasta.gz"; "fas.gz"].

(** ** Predicates used in the proofs *)

(** After the body has run on a node, the node is filtered by its count or
    flagged. *)
Definition settled (cfg : config) (g : Nx.graph) (n : string) : Prop :=
  exists c d, Nx.node_count g n = Ok c /\ Nx.degree g n = Ok d /\
    (max_error_freq cfg < c \/ Nx.node_flag g n = Ok true).

(** [r] is a row with parent [fst p] and child [node]. *)
Definition candidate_of (edit_dis : Z) (node : string) (p : string * Z)
    (r : row) : Prop :=
  parent_of r = Some (PStr (fst p)) /\ child_of edit_dis r = Some (PStr node).

(** How a subgraph [g'] left by the pass relates to the subgraph [g] it
    started from, [new] being rows that the pass has added. *)
Definition umi_related (cfg : config) (new : list row) (g g' : Nx.graph)
    : Prop :=
  skeleton g' = skeleton g /\
  forall m,
    Nx.node_flag g' m = Nx.node_flag g m \/
    (Nx.node_flag g m = Ok false /\ Nx.node_flag g' m = Ok true /\
     exists r, In r new /\ umi_emits cfg g m r).

(** What the UMI loop needs of a graph, in a form that setting flags
    preserves. *)
Definition umi_ready (g : Nx.graph) : Prop :=
  forall n, Nx.lookup g n <> None ->
    (exists c, Nx.node_count g n = Ok c) /\
    (exists f, Nx.node_flag g n = Ok f) /\
    forall neis, Nx.neighbors g n = Ok neis ->
      forall v, In v neis ->
        Nx.lookup g v <> None /\ 0 < len v /\ 0 < len n /\
        editdistance_eval v n = 1.

(** [r] is a row that a pass over [g] may add for the node [n]: the line of
    [n], whose count is at most [max_error_freq], and of one of its
    neighbours [p] with count at least [high_freq_thre], as [finish_line]
    returns it.  The third value of the line is the degree of [p] in a
    genuine row and the degree of the last neighbour of [n] in a row of an
    ambiguous group. *)
Definition emitted_row (cfg : config) (edit_dis : Z) (g : Nx.graph)
    (genuine : bool) (n : string) (r : row) : Prop :=
  exists p pc pd c d neis,
    finish_line edit_dis
      [PStr p; PInt pc; PInt pd; PStr n; PInt c; PInt d] = Ok r /\
    Nx.node_count g n = Ok c /\ c <= max_error_freq cfg /\
    Nx.degree g n = Ok d /\
    (d = 1 \/ d <= ambiguous_error_node_degree cfg) /\
    Nx.neighbors g n = Ok neis /\ In p neis /\
    Nx.node_count g p = Ok pc /\ high_freq_thre cfg <= pc /\
    (if genuine then Nx.degree g p = Ok pd
     else exists nei, last_opt neis = Some nei /\ Nx.degree g nei = Ok pd).

Definition emitted_genuine (cfg : config) (edit_dis : Z) (g : Nx.graph)
    (r : row) : Prop :=
  exists n, emitted_row cfg edit_dis g true n r.

(** An ambiguous group as a pass may add it: at least two rows, all for the
    same node. *)
Definition emitted_group (cfg : config) (edit_dis : Z) (g : Nx.graph)
    (grp : list row) : Prop :=
  exists n, (2 <= List.length grp)%nat /\
    Forall (emitted_row cfg edit_dis g false n) grp.

(** A flag that a pass leaves as it was or turns from [False] to [True]. *)
Definition flag_raised (g g' : Nx.graph) (m : string) : Prop :=
  Nx.node_flag g' m = Nx.node_flag g m \/
  (Nx.node_flag g m = Ok false /\ Nx.node_flag g' m = Ok true).

(** The position in a list of length [n] that the Python index [i] stands
    for. *)
Definition index_of (n : nat) (i : Z) : nat :=
  Z.to_nat (if i <? 0 then i + Z.of_nat n else i).

(** Two graphs that differ at most in attributes that are never read: the
    same keys, counts and adjacency, and the same flag under every key. *)
Definition same_view (g1 g2 : Nx.graph) : Prop :=
  skeleton g1 = skeleton g2 /\
  forall n, Nx.node_flag g1 n = Nx.node_flag g2 n.

(** Two calls that end the same way: with related values or with the same
    exception. *)
Definition same_outcome {A B : Type} (R : A -> B -> Prop)
    (r1 : result A) (r2 : result B) : Prop :=
  match r1, r2 with
  | Ok a, Ok b => R a b
  | Raise e1, Raise e2 => e1 = e2
  | _, _ => False
  end.

(** Two subgraphs as the second loop of [extract_amplicon_err_samples]
    finds them: alike up to flags, and alike in their flags too if they have
    an edge. *)
Definition reset_alike (g1 g2 : Nx.graph) : Prop :=
  skeleton g1 = skeleton g2 /\
  (Nx.edges g1 <> [] -> forall n, Nx.node_flag g1 n = Nx.node_flag g2 n).

(** What [graph.subgraph(c).copy()] gives for a connected component [c] of
    [graph], whatever order NetworkX lists the nodes and the neighbours in:
    distinct nodes of [graph], each with its two attributes and with the
    neighbours it has in [graph], all of which are in the copy. *)
Definition component_copy (graph sub_graph : Nx.graph) : Prop :=
  NoDup (Nx.nodes sub_graph) /\
  forall k d', In (k, d') sub_graph ->
    exists d, Nx.lookup graph k = Some d /\
      Nx.attr_count d' = Nx.attr_count d /\
      Nx.attr_flag d' = Nx.attr_flag d /\
      (forall v, In v (Nx.adj d') <-> In v (Nx.adj d)) /\
      (forall v, In v (Nx.adj d') -> In v (Nx.nodes sub_graph)).


(** ** Example inputs *)

(** A node as [generate_graph] adds it, and one that a pass has flagged. *)
Definition fresh_node (c : Z) (a : list string) : Nx.node_data :=
  Nx.mk_node (Some c) (Some false) a.

Definition example_config : config := mk_config 5 3 4.

(** A low-frequency read between two high-frequency ones, the second of
    which has a further low-frequency neighbour. *)
Definition ambiguous_example : Nx.graph :=
  [("AAAA", fresh_node 1 ["CAAA"; "AACA"]);
   ("CAAA", fresh_node 5 ["AAAA"]);
   ("AACA", fresh_node 6 ["AAAA"; "AACC"]);
   ("AACC", fresh_node 1 ["AACA"])].

Definition ambiguous_example_records : list (string * string) :=
  map (fun s => ("r", s))
      (["AAAA"] ++ repeat "CAAA" 5 ++ repeat "AACA" 6 ++ ["AACC"]).

(** A star: one high-frequency centre with three low-frequency leaves. *)
Definition star_example : Nx.graph :=
  [("AAAA", fresh_node 50 ["CAAA"; "AACA"; "AAAC"]);
   ("CAAA", fresh_node 1 ["AAAA"]);
   ("AACA", fresh_node 2 ["AAAA"]);
   ("AAAC", fresh_node 3 ["AAAA"])].

Definition visited_node (c : Z) (a : list string) : Nx.node_data :=
  Nx.mk_node (Some c) (Some true) a.

(** The star after a classification pass, and the rows of that pass in
    edit-distance-2 mode. *)
Definition star_example_visited : Nx.graph :=
  [("AAAA", fresh_node 50 ["CAAA"; "AACA"; "AAAC"]);
   ("CAAA", visited_node 1 ["AAAA"]);
   ("AACA", visited_node 2 ["AAAA"]);
   ("AAAC", visited_node 3 ["AAAA"])].

Definition star_example_rows : list row :=
  [[PStr "AAAA"; PInt 50; PInt 3; PStr "CAAA"; PInt 1; PInt 1];
   [PStr "AAAA"; PInt 50; PInt 3; PStr "AACA"; PInt 2; PInt 1];
   [PStr "AAAA"; PInt 50; PInt 3; PStr "AAAC"; PInt 3; PInt 1]].

(** The rows of the UMI variant on the star. *)
Definition star_example_umi_rows : list row :=
  [[PStr "AAAA"; PInt 50; PInt 3; PStr "A-C"; PInt 0; PStr "AA"; PStr "CA";
    PStr "CAAA"; PInt 1; PInt 1];
   [PStr "AAAA"; PInt 50; PInt 3; PStr "A-C"; PInt 2; PStr "AAA"; PStr "ACA";
    PStr "AACA"; PInt 2; PInt 1];
   [PStr "AAAA"; PInt 50; PInt 3; PStr "A-C"; PInt 3; PStr "AA"; PStr "AC";
    PStr "AAAC"; PInt 3; PInt 1]].

(** A single high-frequency read on its own, and a single low-frequency
    one. *)
Definition single_example : Nx.graph := [("GGGG", fresh_node 7 [])].

Definition lone_example : Nx.graph := [("GGGT", fresh_node 1 [])].

(** A disconnected graph: the star and two isolated reads. *)
Definition scattered_example : Nx.graph :=
  star_example ++ [("GGGG", fresh_node 7 []); ("GGTT", fresh_node 2 [])].

(** Three records over two reads, a configuration under which the read seen
    twice is high-frequency, and what [generate_graph] returns for them in
    edit-distance-1 mode. *)
Definition small_config : config := mk_config 2 1 4.

Definition small_records : list (string * string) :=
  [("r1", "AAAA"); ("r2", "AAAC"); ("r3", "AAAA")].

Definition small_output : graph_output :=
  mk_output [("AAAA", fresh_node 2 ["AAAC"]); ("AAAC", fresh_node 1 ["AAAA"])]
            (Some [4])
            (Some [("AAAA", ["r1"; "r3"]); ("AAAC", ["r2"])])
            ["AAAA"; "AAAC"].

(** A low-frequency read between two high-frequency ones and nothing else:
    the pass over this component returns a group and no genuine row. *)
Definition fork_example : Nx.graph :=
  [("TTTT", fresh_node 1 ["CTTT"; "TTCT"]);
   ("CTTT", fresh_node 5 ["TTTT"]);
   ("TTCT", fresh_node 6 ["TTTT"])].

(** The two frames that [extract_genuine_ambi_errs] returns in
    edit-distance-2 mode for [fork_example] and [ambiguous_example]. *)
Definition merged_example_genuine : frame :=
  (["StartRead"; "StartReadCount"; "StartDegree"; "EndRead"; "EndReadCount";
    "EndDegree"],
   [[PStr "AACA"; PInt 6; PInt 2; PStr "AACC"; PInt 1; PInt 1]]).

Definition merged_example_ambiguous : frame :=
  (["idx"; "StartRead"; "StartReadCount"; "StartDegree"; "EndRead";
    "EndReadCount"; "EndDegree"],
   [[PInt 0; PStr "CAAA"; PInt 5; PInt 2; PStr "AAAA"; PInt 1; PInt 2];
    [PInt 0; PStr "AACA"; PInt 6; PInt 2; PStr "AAAA"; PInt 1; PInt 2]]).

(** Two adjacent high-frequency reads, and the rows of
    [extract_high_ambiguous_errs] for them. *)
Definition twin_example : Nx.graph :=
  [("GGGG", fresh_node 9 ["GGGA"]); ("GGGA", fresh_node 7 ["GGGG"])].

Definition twin_example_rows : list row :=
  [[PInt 0; PStr "GGGG"; PInt 9; PInt 1; PStr "G-A"; PInt 3; PStr "GG";
    PStr "GA"; PStr "GGGA"; PInt 7; PInt 1];
   [PInt 0; PStr "GGGA"; PInt 7; PInt 1; PStr "A-G"; PInt 3; PStr "GA";
    PStr "GG"; PStr "GGGG"; PInt 9; PInt 1]].

(** Four records: a read seen twice, a neighbour of it, and a read on its
    own; what [generate_graph] returns for them in edit-distance-1 mode. *)
Definition split_records : list (string * string) :=
  [("r1", "AAAA"); ("r2", "AAAC"); ("r3", "AAAA"); ("r4", "GGGG")].

Definition split_output : graph_output :=
  mk_output [("AAAA", fresh_node 2 ["AAAC"]); ("AAAC", fresh_node 1 ["AAAA"]);
             ("GGGG", fresh_node 1 [])]
            (Some [4])
            (Some [("AAAA", ["r1"; "r3"]); ("AAAC", ["r2"]); ("GGGG", ["r4"])])
            ["AAAA"; "AAAC"; "GGGG"].


(** The two components of the graph of [split_output]. *)
Definition split_components : list Nx.graph :=
  [[("AAAA", fresh_node 2 ["AAAC"]); ("AAAC", fresh_node 1 ["AAAA"])];
   [("GGGG", fresh_node 1 [])]].

(** * Properties *)

(** ** Strings and the Levenshtein distance *)

Section Strings.

Lemma levenshtein_cons (x y : ascii) (a b : string) :
  levenshtein (String x a) (String y b) =
  Nat.min (Nat.min (S (levenshtein a (String y b))) (S (levenshtein (String x a) b)))
          ((if Ascii.eqb x y then 0 else 1) + levenshtein a b)%nat.
Proof. reflexivity. Qed.

Lemma levenshtein_nil_r (a : string) : levenshtein a EmptyString = String.length a.
Proof. destruct a; reflexivity. Qed.

Lemma levenshtein_zero (a b : string) : levenshtein a b = 0%nat -> a = b.
Proof.
  revert b; induction a as [|x a IH]; intros [|y b] H.
  - reflexivity.
  - discriminate.
  - discriminate.
  - rewrite levenshtein_cons in H.
    destruct (Ascii.eqb_spec x y) as [->|]; [|lia].
    f_equal. apply IH. lia.
Qed.

Lemma levenshtein_refl (a : string) : levenshtein a a = 0%nat.
Proof.
  induction a as [|x a IH]; [reflexivity|].
  rewrite levenshtein_cons, Ascii.eqb_refl, IH. lia.
Qed.

(** Two reads of the same length at distance 1 differ at exactly one index. *)
Lemma levenshtein_one_same_length (a b : string) :
  String.length a = String.length b ->
  levenshtein a b = 1%nat ->
  exists (p : nat) (x y : ascii),
    String.get p a = Some x /\ String.get p b = Some y /\ x <> y /\
    (forall i, i <> p -> String.get i a = String.get i b).
Proof.
  revert b; induction a as [|x a IH]; intros [|y b] Hlen H; try discriminate.
  rewrite levenshtein_cons in H. simpl in Hlen.
  assert (Ha : levenshtein a (String y b) <> 0%nat).
  { intros E. apply levenshtein_zero in E. subst a. simpl in Hlen. lia. }
  assert (Hb : levenshtein (String x a) b <> 0%nat).
  { intros E. apply levenshtein_zero in E. subst b. simpl in Hlen. lia. }
  destruct (Ascii.eqb_spec x y) as [->|Hxy].
  - destruct (IH b) as (p & u & v & Hu & Hv & Huv & Hrest); [lia|lia|].
    exists (S p), u, v. repeat split; try assumption.
    intros [|i] Hi; [reflexivity|]. simpl. apply Hrest. lia.
  - assert (E : a = b) by (apply levenshtein_zero; lia). subst b.
    exists 0%nat, x, y. repeat split; try assumption.
    intros [|i] Hi; [congruence|]. reflexivity.
Qed.

Lemma get_some (s : string) (i : nat) :
  (i < String.length s)%nat -> exists c, String.get i s = Some c.
Proof.
  revert i; induction s as [|c s IH]; intros i Hi; simpl in Hi; [lia|].
  destruct i as [|i]; simpl; [eauto|]. apply IH. lia.
Qed.

Lemma get_none (s : string) (i : nat) :
  (String.length s <= i)%nat -> String.get i s = None.
Proof.
  revert i; induction s as [|c s IH]; intros i Hi; simpl in *.
  - destruct i; reflexivity.
  - destruct i as [|i]; [lia|]. simpl. apply IH. lia.
Qed.

Lemma get_lt (s : string) (i : nat) (c : ascii) :
  String.get i s = Some c -> (i < String.length s)%nat.
Proof.
  intros H. destruct (Nat.lt_ge_cases i (String.length s)) as [|Hge]; [assumption|].
  rewrite (get_none _ _ Hge) in H. discriminate.
Qed.

Lemma str_getitem_nat (s : string) (i : nat) (c : ascii) :
  String.get i s = Some c ->
  str_getitem s (Z.of_nat i) = Ok (String c EmptyString).
Proof.
  intros H. pose proof (get_lt _ _ _ H) as Hlt.
  unfold str_getitem, len.
  destruct (Z.ltb_spec (Z.of_nat i) 0); [lia|].
  destruct (Z.ltb_spec (Z.of_nat i) 0); [lia|].
  destruct (Z.leb_spec (Z.of_nat (String.length s)) (Z.of_nat i)); [lia|].
  simpl. rewrite Nat2Z.id, H. reflexivity.
Qed.

(** [s[i]] succeeds exactly on the indices [-len(s) <= i < len(s)]. *)
Lemma str_getitem_in_range (s : string) (i : Z) :
  - len s <= i < len s -> exists c, str_getitem s i = Ok (String c EmptyString).
Proof.
  intros Hi. unfold str_getitem. unfold len in *.
  set (j := if i <? 0 then i + Z.of_nat (String.length s) else i).
  assert (Hj : 0 <= j < Z.of_nat (String.length s)).
  { subst j. destruct (Z.ltb_spec i 0); lia. }
  destruct (Z.ltb_spec j 0); [lia|].
  destruct (Z.leb_spec (Z.of_nat (String.length s)) j); [lia|]. simpl.
  destruct (get_some s (Z.to_nat j)) as [c Hc]; [lia|].
  rewrite Hc. eauto.
Qed.

Lemma range_unfold (n : Z) : range n = map Z.of_nat (seq 0 (Z.to_nat n)).
Proof. reflexivity. Qed.

(** The scanning loop stops at the first index where the reads differ. *)
Lemma scan_mismatch_found (read1 read2 : string) (p : nat) (x y : ascii) :
  String.get p read1 = Some x -> String.get p read2 = Some y -> (x <> y :> ascii) ->
  (forall i, (i < p)%nat -> String.get i read1 = String.get i read2) ->
  forall (m k : nat) (position num : Z),
    (k <= p < k + m)%nat ->
    scan_mismatch read1 read2 (map Z.of_nat (seq k m)) position num =
      Ok (Z.of_nat p, num + Z.of_nat (p - k)).
Proof.
  intros Hx Hy Hxy Hpre. induction m as [|m IH]; intros k position num Hk; [lia|].
  simpl. destruct (Nat.eq_dec k p) as [->|Hne].
  - rewrite (str_getitem_nat _ _ _ Hx), (str_getitem_nat _ _ _ Hy). simpl.
    destruct (Ascii.eqb_spec x y); [contradiction|].
    rewrite Nat.sub_diag. f_equal. f_equal. lia.
  - assert (Hlt : (k < p)%nat) by lia.
    pose proof (get_lt _ _ _ Hx) as Hlx.
    destruct (get_some read1 k) as [c Hc]; [lia|].
    pose proof Hc as Hc2. rewrite (Hpre k Hlt) in Hc2.
    rewrite (str_getitem_nat _ _ _ Hc), (str_getitem_nat _ _ _ Hc2). simpl.
    rewrite Ascii.eqb_refl. rewrite IH by lia. f_equal. f_equal. lia.
Qed.

(** Without knowing where the reads differ: the loop over a common prefix
    range never fails and reports either a mismatch or a full count. *)
Lemma scan_mismatch_total (read1 read2 : string) :
  forall (m k : nat) (position num : Z),
    (k + m <= String.length read1)%nat -> (k + m <= String.length read2)%nat ->
    (exists p, (k <= p < k + m)%nat /\
       scan_mismatch read1 read2 (map Z.of_nat (seq k m)) position num =
         Ok (Z.of_nat p, num + Z.of_nat (p - k)))
    \/ scan_mismatch read1 read2 (map Z.of_nat (seq k m)) position num =
         Ok (position, num + Z.of_nat m).
Proof.
  induction m as [|m IH]; intros k position num H1 H2.
  - right. simpl. f_equal. f_equal. lia.
  - simpl.
    destruct (get_some read1 k) as [c Hc]; [lia|].
    destruct (get_some read2 k) as [d Hd]; [lia|].
    rewrite (str_getitem_nat _ _ _ Hc), (str_getitem_nat _ _ _ Hd). simpl.
    destruct (Ascii.eqb c d).
    + destruct (IH (S k) position (num + 1)) as [(p & Hp & E)|E]; [lia|lia| |].
      * left. exists p. split; [lia|]. rewrite E. f_equal. f_equal. lia.
      * right. rewrite E. f_equal. f_equal. lia.
    + left. exists k. split; [lia|]. rewrite Nat.sub_diag. f_equal. f_equal. lia.
Qed.

End Strings.

(** ** The annotator *)

Section Annotator.

(** On a line of the documented shape the list accesses all succeed. *)
Lemma err_type_classification_line (read1 read2 : string) (c1 d1 c2 d2 : pyval) :
  err_type_classification [PStr read1; c1; d1; PStr read2; c2; d2] =
  if editdistance_eval read1 read2 =? 1 then
    '(first, second, position, f_kmer, s_kmer) <- locate_error read1 read2 ;;
    Ok [PStr read1; c1; d1; PStr (first +++ "-" +++ second); PInt position;
        PStr f_kmer; PStr s_kmer; PStr read2; c2; d2]
  else Raise ValueError.
Proof. reflexivity. Qed.

Lemma str_slice_head (s : string) :
  2 <= len s -> str_slice s (Some 0) (Some 2) = substring 0 2 s.
Proof.
  intros H. unfold str_slice, adjust. cbn [Z.ltb Z.compare].
  rewrite !Z.min_l by lia.
  destruct (Z.leb_spec 2 0); [lia|]. reflexivity.
Qed.

Lemma str_slice_window (s : string) (p : Z) :
  1 <= p -> p + 2 <= len s ->
  str_slice s (Some (p - 1)) (Some (p + 2)) = substring (Z.to_nat (p - 1)) 3 s.
Proof.
  intros H1 H2. unfold str_slice, adjust.
  destruct (Z.ltb_spec (p - 1) 0); [lia|].
  destruct (Z.ltb_spec (p + 2) 0); [lia|].
  rewrite !Z.min_l by lia.
  destruct (Z.leb_spec (p + 2) (p - 1)); [lia|].
  replace (p + 2 - (p - 1)) with 3 by lia. reflexivity.
Qed.

Lemma str_slice_window_last (s : string) (p : Z) :
  1 <= p -> p + 1 = len s ->
  str_slice s (Some (p - 1)) (Some (p + 2)) = substring (Z.to_nat (len s - 2)) 2 s.
Proof.
  intros H1 H2. unfold str_slice, adjust.
  destruct (Z.ltb_spec (p - 1) 0); [lia|].
  destruct (Z.ltb_spec (p + 2) 0); [lia|].
  rewrite (Z.min_l (p - 1)), (Z.min_r (p + 2)) by lia.
  destruct (Z.leb_spec (len s) (p - 1)); [lia|].
  replace (len s - (p - 1)) with 2 by lia.
  replace (p - 1) with (len s - 2) by lia. reflexivity.
Qed.

End Annotator.

(** C4.  For two reads of the same length (at least 2) at edit distance 1,
    the annotator returns the unique index [p] at which they differ as
    errorPosition, [parent[p] + "-" + child[p]] as errorType, and as k-mers
    the first two characters of each read when [p] is 0, the last two when
    [p] is the last index, and the three characters around [p] otherwise. *)
Theorem err_type_classification_equal_length
    (read1 read2 : string) (c1 d1 c2 d2 : pyval) :
  String.length read1 = String.length read2 ->
  (2 <= String.length read1)%nat ->
  editdistance_eval read1 read2 = 1 ->
  exists (p : nat) (x y : ascii) (f_kmer s_kmer : string),
    String.get p read1 = Some x /\ String.get p read2 = Some y /\ x <> y /\
    (forall i, i <> p -> String.get i read1 = String.get i read2) /\
    err_type_classification [PStr read1; c1; d1; PStr read2; c2; d2] =
      Ok [PStr read1; c1; d1;
          PStr (String x (String "-" (String y EmptyString)));
          PInt (Z.of_nat p); PStr f_kmer; PStr s_kmer; PStr read2; c2; d2] /\
    (p = 0%nat ->
       f_kmer = substring 0 2 read1 /\ s_kmer = substring 0 2 read2) /\
    (p = (String.length read1 - 1)%nat ->
       f_kmer = substring (String.length read1 - 2) 2 read1 /\
       s_kmer = substring (String.length read2 - 2) 2 read2) /\
    (p <> 0%nat -> p <> (String.length read1 - 1)%nat ->
       f_kmer = substring (p - 1) 3 read1 /\ s_kmer = substring (p - 1) 3 read2).
Proof.
  intros Hlen H2 Hdis.
  destruct (levenshtein_one_same_length read1 read2 Hlen)
    as (p & x & y & Hx & Hy & Hxy & Hrest).
  { unfold editdistance_eval in Hdis. lia. }
  pose proof (get_lt _ _ _ Hx) as Hp.
  assert (Hl1 : len read1 = Z.of_nat (String.length read1)) by reflexivity.
  assert (Hl2 : len read2 = Z.of_nat (String.length read1))
    by (unfold len; rewrite Hlen; reflexivity).
  assert (Hloc : exists f_kmer s_kmer,
    locate_error read1 read2 =
      Ok (String x EmptyString, String y EmptyString, Z.of_nat p, f_kmer, s_kmer) /\
    (p = 0%nat ->
       f_kmer = substring 0 2 read1 /\ s_kmer = substring 0 2 read2) /\
    (p = (String.length read1 - 1)%nat ->
       f_kmer = substring (String.length read1 - 2) 2 read1 /\
       s_kmer = substring (String.length read2 - 2) 2 read2) /\
    (p <> 0%nat -> p <> (String.length read1 - 1)%nat ->
       f_kmer = substring (p - 1) 3 read1 /\ s_kmer = substring (p - 1) 3 read2)).
  { unfold locate_error. rewrite Hl2, Hl1, Z.eqb_refl, range_unfold, Nat2Z.id.
    rewrite (scan_mismatch_found read1 read2 p x y Hx Hy Hxy)
      by (try (intros i Hi; apply Hrest); lia).
    cbn [bind]. rewrite (str_getitem_nat _ _ _ Hx), (str_getitem_nat _ _ _ Hy).
    cbn [bind].
    destruct (Z.eqb_spec (Z.of_nat p) 0) as [E0|E0].
    - do 2 eexists. split; [reflexivity|].
      rewrite !str_slice_head by lia.
      repeat split; intros; lia.
    - destruct (Z.eqb_spec (Z.of_nat p) (Z.of_nat (String.length read1))); [lia|].
      do 2 eexists. split; [reflexivity|].
      destruct (Nat.eq_dec p (String.length read1 - 1)) as [El|El].
      + rewrite !str_slice_window_last by lia.
        rewrite Hl1, Hl2.
        replace (Z.to_nat (Z.of_nat (String.length read1) - 2))
          with (String.length read1 - 2)%nat by lia.
        rewrite <- Hlen.
        repeat split; intros; try lia.
      + rewrite !str_slice_window by lia.
        replace (Z.to_nat (Z.of_nat p - 1)) with (p - 1)%nat by lia.
        repeat split; intros; try lia. }
  destruct Hloc as (f_kmer & s_kmer & Hloc & Hk).
  exists p, x, y, f_kmer, s_kmer.
  split; [exact Hx|]. split; [exact Hy|]. split; [exact Hxy|].
  split; [exact Hrest|]. split; [|exact Hk].
  rewrite err_type_classification_line, Hdis, Hloc. reflexivity.
Qed.

Lemma err_type_classification_equal_length_witness :
  exists (p : nat) (x y : ascii) (f_kmer s_kmer : string),
    String.get p "ACGT" = Some x /\ String.get p "ACCT" = Some y /\ x <> y /\
    (forall i, i <> p -> String.get i "ACGT" = String.get i "ACCT") /\
    err_type_classification [PStr "ACGT"; PInt 50; PInt 1; PStr "ACCT"; PInt 1; PInt 1] =
      Ok [PStr "ACGT"; PInt 50; PInt 1;
          PStr (String x (String "-" (String y EmptyString)));
          PInt (Z.of_nat p); PStr f_kmer; PStr s_kmer; PStr "ACCT"; PInt 1; PInt 1] /\
    (p = 0%nat ->
       f_kmer = substring 0 2 "ACGT" /\ s_kmer = substring 0 2 "ACCT") /\
    (p = (String.length "ACGT" - 1)%nat ->
       f_kmer = substring (String.length "ACGT" - 2) 2 "ACGT" /\
       s_kmer = substring (String.length "ACCT" - 2) 2 "ACCT") /\
    (p <> 0%nat -> p <> (String.length "ACGT" - 1)%nat ->
       f_kmer = substring (p - 1) 3 "ACGT" /\ s_kmer = substring (p - 1) 3 "ACCT").
Proof.
  apply (err_type_classification_equal_length "ACGT" "ACCT");
    [reflexivity | simpl; lia | reflexivity].
Defined.

Section AnnotatorTotality.

Ltac getitem_ok s i :=
  let c := fresh "c" in
  let E := fresh "E" in
  destruct (str_getitem_in_range s i) as [c E]; [lia|]; rewrite E; cbn [bind].

(** On two non-empty reads none of the three length cases can fail. *)
Lemma locate_error_nonempty (read1 read2 : string) :
  0 < len read1 -> 0 < len read2 ->
  exists v, locate_error read1 read2 = Ok v.
Proof.
  intros H1 H2. unfold locate_error.
  destruct (Z.eqb_spec (len read1) (len read2)) as [El|El].
  - rewrite range_unfold.
    destruct (scan_mismatch_total read1 read2 (Z.to_nat (len read1)) 0 (-1) 0)
      as [(p & Hp & E)|E]; try (unfold len in *; lia); rewrite E; cbn [bind].
    + getitem_ok read1 (Z.of_nat p). getitem_ok read2 (Z.of_nat p).
      destruct (Z.of_nat p =? 0); [eauto|].
      destruct (Z.of_nat p =? len read1); eauto.
    + getitem_ok read1 (-1). getitem_ok read2 (-1).
      change (-1 =? 0) with false. cbv iota.
      destruct (Z.eqb_spec (-1) (len read1)); eauto.
  - destruct (Z.ltb_spec (len read1) (len read2)) as [Hlt|Hge].
    + rewrite range_unfold.
      destruct (scan_mismatch_total read1 read2 (Z.to_nat (len read1)) 0 (-1) 0)
        as [(p & Hp & E)|E]; try (unfold len in *; lia); rewrite E; cbn [bind].
      * destruct (Z.eqb_spec (0 + Z.of_nat (p - 0)) (len read1)); [lia|].
        getitem_ok read2 (Z.of_nat p).
        destruct (Z.eqb_spec (Z.of_nat p) 0).
        { getitem_ok read1 0. eauto. }
        destruct (Z.eqb_spec (Z.of_nat p) (len read1)).
        { getitem_ok read1 (-1). eauto. }
        getitem_ok read1 (Z.of_nat p - 1). getitem_ok read1 (Z.of_nat p). eauto.
      * destruct (Z.eqb_spec (0 + Z.of_nat (Z.to_nat (len read1))) (len read1));
          [|lia].
        getitem_ok read2 (len read1).
        destruct (Z.eqb_spec (len read1) 0); [lia|].
        rewrite Z.eqb_refl. getitem_ok read1 (-1). eauto.
    + destruct (Z.ltb_spec (len read2) (len read1)) as [Hlt|]; [|lia].
      rewrite range_unfold.
      destruct (scan_mismatch_total read1 read2 (Z.to_nat (len read2)) 0 (-1) 0)
        as [(p & Hp & E)|E]; try (unfold len in *; lia); rewrite E; cbn [bind].
      * destruct (Z.eqb_spec (0 + Z.of_nat (p - 0)) (len read2)); [lia|].
        getitem_ok read1 (Z.of_nat p).
        destruct (Z.eqb_spec (Z.of_nat p) 0).
        { getitem_ok read2 0. eauto. }
        destruct (Z.eqb_spec (Z.of_nat p) (len read2)).
        { getitem_ok read2 (-1). eauto. }
        getitem_ok read2 (Z.of_nat p - 1). getitem_ok read2 (Z.of_nat p). eauto.
      * destruct (Z.eqb_spec (0 + Z.of_nat (Z.to_nat (len read2))) (len read2));
          [|lia].
        getitem_ok read1 (len read2).
        destruct (Z.eqb_spec (len read2) 0); [lia|].
        rewrite Z.eqb_refl. getitem_ok read2 (-1). eauto.
Qed.

(** Whatever the annotator returns is the six input values with type,
    position and the two k-mers inserted after the third. *)
Lemma err_type_classification_shape (read1 read2 : string) (c1 d1 c2 d2 : pyval)
    (newline : row) :
  err_type_classification [PStr read1; c1; d1; PStr read2; c2; d2] = Ok newline ->
  exists (t k1 k2 : string) (p : Z),
    newline = [PStr read1; c1; d1; PStr t; PInt p; PStr k1; PStr k2;
               PStr read2; c2; d2].
Proof.
  rewrite err_type_classification_line.
  destruct (editdistance_eval read1 read2 =? 1); [|discriminate].
  destruct (locate_error read1 read2) as [[[[[f s] p] k1] k2]|]; [|discriminate].
  cbn [bind]. intros [= <-]. eauto.
Qed.

(** Outside the empty read, the annotator fails exactly when the distance is
    not 1, and then with [ValueError]. *)
Lemma err_type_classification_nonempty (read1 read2 : string) (c1 d1 c2 d2 : pyval) :
  0 < len read1 -> 0 < len read2 ->
  (editdistance_eval read1 read2 = 1 ->
     exists newline,
       err_type_classification [PStr read1; c1; d1; PStr read2; c2; d2] = Ok newline /\
       List.length newline = 10%nat) /\
  (editdistance_eval read1 read2 <> 1 ->
     err_type_classification [PStr read1; c1; d1; PStr read2; c2; d2] = Raise ValueError).
Proof.
  intros H1 H2. rewrite err_type_classification_line. split; intros Hd.
  - rewrite Hd. cbn [Z.eqb Pos.eqb].
    destruct (locate_error_nonempty read1 read2 H1 H2) as [[[[[f s] p] k1] k2] E].
    rewrite E. cbn [bind]. eexists. split; reflexivity.
  - destruct (Z.eqb_spec (editdistance_eval read1 read2) 1); [contradiction|].
    reflexivity.
Qed.

End AnnotatorTotality.

(** C3.  The annotator does not return a record for every pair of reads at
    edit distance 1: the reads [""] and ["A"] are at distance 1, and yet the
    call raises ([IndexError], from [read1[0]]) instead of returning the
    annotated row; likewise with the two reads exchanged.  Lemma
    [err_type_classification_nonempty] covers all non-empty reads. *)
Theorem err_type_classification_empty_read :
  editdistance_eval "" "A" = 1 /\
  err_type_classification [PStr ""; PInt 5; PInt 1; PStr "A"; PInt 1; PInt 1]
    = Raise IndexError /\
  editdistance_eval "A" "" = 1 /\
  err_type_classification [PStr "A"; PInt 5; PInt 1; PStr ""; PInt 1; PInt 1]
    = Raise IndexError.
Proof. repeat split; reflexivity. Qed.

(** ** Two evaluations of the classifiers *)

(** C2.  The StartDegree of a candidate row is not always the degree of its
    StartRead.  On the component [ambiguous_example], which [generate_graph]
    builds in edit-distance-1 mode from 13 records, read AAAA has the two
    high-frequency neighbours CAAA (degree 1) and AACA (degree 2); both
    candidate rows of its group carry StartDegree 2, the degree of the last
    neighbour visited, so the row of CAAA does not carry the degree of
    CAAA. *)
Theorem ambiguous_group_start_degree_example :
  option_map out_graph
    (match snd (generate_graph example_config enumerate_ed1_seqs enumerate_ed2_seqs
                  ambiguous_example_records 1) with
     | Ok out => Some out
     | Raise _ => None
     end) = Some ambiguous_example /\
  Nx.degree ambiguous_example "CAAA" = Ok 1 /\
  Nx.degree ambiguous_example "AACA" = Ok 2 /\
  (exists sub_graphs,
     extract_genuine_ambi_errs_subgraph example_config ([ambiguous_example], 2) 0 =
       Ok (([[PStr "AACA"; PInt 6; PInt 2; PStr "AACC"; PInt 1; PInt 1]],
            [[[PStr "CAAA"; PInt 5; PInt 2; PStr "AAAA"; PInt 1; PInt 2];
              [PStr "AACA"; PInt 6; PInt 2; PStr "AAAA"; PInt 1; PInt 2]]]),
           sub_graphs)) /\
  (exists sub_graphs,
     extract_genuine_ambi_errs_subgraph example_config ([ambiguous_example], 1) 0 =
       Ok (([[PStr "AACA"; PInt 6; PInt 2; PStr "A-C"; PInt 3; PStr "CA"; PStr "CC";
              PStr "AACC"; PInt 1; PInt 1]],
            [[[PStr "CAAA"; PInt 5; PInt 2; PStr "C-A"; PInt 0; PStr "CA"; PStr "AA";
               PStr "AAAA"; PInt 1; PInt 2];
              [PStr "AACA"; PInt 6; PInt 2; PStr "C-A"; PInt 2; PStr "ACA"; PStr "AAA";
               PStr "AAAA"; PInt 1; PInt 2]]]),
           sub_graphs)).
Proof.
  split; [vm_compute; reflexivity|].
  split; [reflexivity|]. split; [reflexivity|].
  split; eexists; vm_compute; reflexivity.
Qed.

(** C7.  On a connected graph [isolates] is never assigned and the extractor
    raises: on the connected component [ambiguous_example], which has no
    node of degree 0, instead of returning an empty frame, and on the graph
    made of one isolated high-frequency read instead of returning that
    read's row.  Lemma [extract_isolated_negatives_not_connected] covers the
    graphs that are not connected. *)
Theorem extract_isolated_negatives_connected_example :
  Nx.is_connected ambiguous_example = Ok true /\
  Nx.isolates ambiguous_example = [] /\
  extract_isolated_negatives example_config ambiguous_example 1
    = Raise UnboundLocalError /\
  Nx.is_connected single_example = Ok true /\
  Nx.isolates single_example = ["GGGG"] /\
  Nx.node_count single_example "GGGG" = Ok 7 /\
  extract_isolated_negatives example_config single_example 1
    = Raise UnboundLocalError.
Proof. repeat split; vm_compute; reflexivity. Qed.

(** ** Graphs *)

Section GraphFacts.

Lemma lookup_skeleton (g1 g2 : Nx.graph) (n : string) :
  skeleton g1 = skeleton g2 ->
  option_map view (Nx.lookup g1 n) = option_map view (Nx.lookup g2 n).
Proof.
  revert g2; induction g1 as [|[k d] g1 IH]; intros [|[k' d'] g2] H;
    try discriminate; [reflexivity|].
  simpl in H. injection H as Hk Hc Ha Hrest. subst k'. simpl.
  destruct (String.eqb k n); [simpl; unfold view; rewrite Hc, Ha; reflexivity|].
  apply IH, Hrest.
Qed.

Lemma node_count_skeleton (g1 g2 : Nx.graph) (n : string) :
  skeleton g1 = skeleton g2 -> Nx.node_count g1 n = Nx.node_count g2 n.
Proof.
  intros H. apply (lookup_skeleton _ _ n) in H. unfold Nx.node_count, view in *.
  destruct (Nx.lookup g1 n) as [d1|], (Nx.lookup g2 n) as [d2|];
    try discriminate; [|reflexivity].
  injection H as Hc _. rewrite Hc. reflexivity.
Qed.

Lemma degree_skeleton (g1 g2 : Nx.graph) (n : string) :
  skeleton g1 = skeleton g2 -> Nx.degree g1 n = Nx.degree g2 n.
Proof.
  intros H. apply (lookup_skeleton _ _ n) in H. unfold Nx.degree, view in *.
  destruct (Nx.lookup g1 n) as [d1|], (Nx.lookup g2 n) as [d2|];
    try discriminate; [|reflexivity].
  injection H as _ Ha. rewrite Ha. reflexivity.
Qed.

Lemma neighbors_skeleton (g1 g2 : Nx.graph) (n : string) :
  skeleton g1 = skeleton g2 -> Nx.neighbors g1 n = Nx.neighbors g2 n.
Proof.
  intros H. apply (lookup_skeleton _ _ n) in H. unfold Nx.neighbors, view in *.
  destruct (Nx.lookup g1 n) as [d1|], (Nx.lookup g2 n) as [d2|];
    try discriminate; [|reflexivity].
  injection H as _ Ha. rewrite Ha. reflexivity.
Qed.

Lemma nodes_skeleton (g1 g2 : Nx.graph) :
  skeleton g1 = skeleton g2 -> Nx.nodes g1 = Nx.nodes g2.
Proof.
  intros H. unfold Nx.nodes.
  assert (E : forall g, map fst g = map fst (skeleton g)).
  { intros g. unfold skeleton. rewrite map_map. reflexivity. }
  rewrite (E g1), (E g2), H. reflexivity.
Qed.

Lemma edges_skeleton (g1 g2 : Nx.graph) :
  skeleton g1 = skeleton g2 -> Nx.edges g1 = Nx.edges g2.
Proof.
  unfold Nx.edges. generalize (@nil string) as seen.
  revert g2; induction g1 as [|[k d] g1 IH]; intros [|[k' d'] g2] seen H;
    try discriminate; [reflexivity|].
  simpl in H. injection H as Hk Hc Ha Hrest. subst k'. simpl.
  rewrite Ha. f_equal. apply IH, Hrest.
Qed.

Lemma set_flag_skeleton (g g' : Nx.graph) (n : string) (b : bool) :
  Nx.set_flag g n b = Ok g' -> skeleton g' = skeleton g.
Proof.
  revert g'; induction g as [|[k d] g IH]; intros g' H; simpl in H;
    [discriminate|].
  destruct (String.eqb k n).
  - injection H as <-. reflexivity.
  - destruct (Nx.set_flag g n b) as [g''|]; [|discriminate].
    injection H as <-. simpl. f_equal. apply IH. reflexivity.
Qed.

Lemma set_flag_lookup_other (g g' : Nx.graph) (n m : string) (b : bool) :
  Nx.set_flag g n b = Ok g' -> m <> n -> Nx.lookup g' m = Nx.lookup g m.
Proof.
  revert g'; induction g as [|[k d] g IH]; intros g' H Hm; simpl in H;
    [discriminate|].
  destruct (String.eqb_spec k n) as [->|Hk].
  - injection H as <-. simpl.
    destruct (String.eqb_spec n m); [congruence|reflexivity].
  - destruct (Nx.set_flag g n b) as [g''|]; [|discriminate].
    injection H as <-. simpl.
    destruct (String.eqb k m); [reflexivity|]. apply IH; [reflexivity|assumption].
Qed.

Lemma set_flag_flag_other (g g' : Nx.graph) (n m : string) (b : bool) :
  Nx.set_flag g n b = Ok g' -> m <> n -> Nx.node_flag g' m = Nx.node_flag g m.
Proof.
  intros H Hm. unfold Nx.node_flag.
  rewrite (set_flag_lookup_other _ _ _ _ _ H Hm). reflexivity.
Qed.

Lemma set_flag_flag (g g' : Nx.graph) (n : string) (b : bool) :
  Nx.set_flag g n b = Ok g' -> Nx.node_flag g' n = Ok b.
Proof.
  revert g'; induction g as [|[k d] g IH]; intros g' H; simpl in H;
    [discriminate|].
  destruct (String.eqb_spec k n) as [->|Hk].
  - injection H as <-. unfold Nx.node_flag. simpl.
    rewrite String.eqb_refl. reflexivity.
  - destruct (Nx.set_flag g n b) as [g''|] eqn:E; [|discriminate].
    injection H as <-. unfold Nx.node_flag. simpl.
    destruct (String.eqb_spec k n); [contradiction|].
    apply (IH g''). reflexivity.
Qed.

Lemma set_flag_total (g : Nx.graph) (n : string) (b : bool) :
  Nx.lookup g n <> None -> exists g', Nx.set_flag g n b = Ok g'.
Proof.
  induction g as [|[k d] g IH]; intros H; simpl in *; [contradiction|].
  destruct (String.eqb k n); [eauto|].
  destruct (IH H) as [g' ->]. simpl. eauto.
Qed.

(** Setting a flag that is already set changes nothing. *)
Lemma set_flag_idempotent (g : Nx.graph) (n : string) (b : bool) :
  Nx.node_flag g n = Ok b -> Nx.set_flag g n b = Ok g.
Proof.
  unfold Nx.node_flag.
  induction g as [|[k d] g IH]; intros H; simpl in *; [discriminate|].
  destruct (String.eqb k n).
  - destruct d as [c [f|] a]; simpl in *; [|discriminate].
    injection H as ->. reflexivity.
  - rewrite (IH H). reflexivity.
Qed.

Lemma lookup_in_nodes (g : Nx.graph) (n : string) :
  In n (Nx.nodes g) <-> Nx.lookup g n <> None.
Proof.
  induction g as [|[k d] g IH]; simpl; [tauto|].
  destruct (String.eqb_spec k n) as [->|Hk].
  - split; [discriminate|auto].
  - rewrite <- IH. split; [intros [?|?]; [contradiction|assumption]|auto].
Qed.

Lemma mem_true_iff (x : string) (l : list string) :
  Nx.mem x l = true <-> In x l.
Proof.
  unfold Nx.mem. rewrite existsb_exists. split.
  - intros (y & Hy & E). apply String.eqb_eq in E. subst. assumption.
  - intros H. exists x. split; [assumption|apply String.eqb_refl].
Qed.

Lemma distinct_NoDup (l : list string) : Nx.distinct l = true <-> NoDup l.
Proof.
  induction l as [|x l IH]; simpl.
  - split; [constructor|reflexivity].
  - rewrite andb_true_iff, negb_true_iff, IH. split.
    + intros [Hx Hl]. constructor; [|assumption].
      rewrite <- mem_true_iff. congruence.
    + intros H. inversion H as [|? ? Hx Hl]; subst. split; [|assumption].
      destruct (Nx.mem x l) eqn:E; [|reflexivity].
      apply mem_true_iff in E. contradiction.
Qed.

End GraphFacts.

(** ** The classification pass *)

Section ClassifierFacts.

Variable cfg : config.
Variable edit_dis : Z.

Lemma collect_high_skeleton (g1 g2 : Nx.graph) (neis : list string)
    (high_num : Z) (nei2count : list (string * Z)) :
  skeleton g1 = skeleton g2 ->
  collect_high cfg g1 neis high_num nei2count =
  collect_high cfg g2 neis high_num nei2count.
Proof.
  intros H. revert high_num nei2count.
  induction neis as [|nei rest IH]; intros high_num nei2count; [reflexivity|].
  simpl. rewrite (node_count_skeleton _ _ nei H), (degree_skeleton _ _ nei H).
  destruct (Nx.node_count g2 nei); [|reflexivity]. cbn [bind].
  destruct (Nx.degree g2 nei); [|reflexivity]. cbn [bind].
  rewrite !IH. reflexivity.
Qed.

Lemma ambiguous_candidates_skeleton (g1 g2 : Nx.graph) (nei : option string)
    (node : string) (c d : Z) (nei2count : list (string * Z)) (tmp : list row) :
  skeleton g1 = skeleton g2 ->
  ambiguous_candidates cfg edit_dis g1 nei node c d nei2count tmp =
  ambiguous_candidates cfg edit_dis g2 nei node c d nei2count tmp.
Proof.
  intros H. revert tmp.
  induction nei2count as [|[cre cnt] rest IH]; intros tmp; [reflexivity|].
  simpl. destruct (high_freq_thre cfg <=? cnt); [|apply IH].
  destruct nei as [n|]; [|reflexivity]. cbn [bind].
  rewrite (degree_skeleton _ _ n H).
  destruct (Nx.degree g2 n); [|reflexivity]. cbn [bind].
  destruct (finish_line edit_dis _); [|reflexivity]. cbn [bind]. apply IH.
Qed.

Lemma classify_node_skeleton (g1 g2 : Nx.graph) (node : string) (c d : Z)
    (neis : list string) (lists : list row * list (list row)) :
  skeleton g1 = skeleton g2 ->
  classify_node cfg edit_dis g1 node c d neis lists =
  classify_node cfg edit_dis g2 node c d neis lists.
Proof.
  intros H. unfold classify_node. destruct lists as [gen ambi].
  destruct (d =? 1).
  - destruct (list_getitem neis 0) as [nei|]; [|reflexivity]. cbn [bind].
    rewrite (node_count_skeleton _ _ nei H), (degree_skeleton _ _ nei H).
    reflexivity.
  - destruct (d <=? ambiguous_error_node_degree cfg); [|reflexivity].
    rewrite (collect_high_skeleton _ _ _ _ _ H).
    destruct (collect_high cfg g2 neis 0 []) as [[hn n2c]|]; [|reflexivity].
    cbn [bind]. destruct (hn =? 1).
    + destruct (list_getitem _ 0) as [[fn fc]|]; [|reflexivity]. cbn [bind].
      rewrite (degree_skeleton _ _ fn H). reflexivity.
    + rewrite (ambiguous_candidates_skeleton _ _ _ _ _ _ _ _ H). reflexivity.
Qed.

(** The statement only ever appends to the two lists. *)
Lemma classify_node_app (g : Nx.graph) (node : string) (c d : Z)
    (neis : list string) (gen : list row) (ambi : list (list row)) :
  classify_node cfg edit_dis g node c d neis (gen, ambi) =
  ('(dg, da) <- classify_node cfg edit_dis g node c d neis ([], []) ;;
   Ok (gen ++ dg, ambi ++ da)).
Proof.
  unfold classify_node.
  destruct (d =? 1).
  - destruct (list_getitem neis 0) as [nei|]; [|reflexivity]. cbn [bind].
    destruct (Nx.node_count g nei) as [nc|]; [|reflexivity]. cbn [bind].
    destruct (Nx.degree g nei) as [nd|]; [|reflexivity]. cbn [bind].
    destruct (high_freq_thre cfg <=? nc);
      [|cbn [bind]; rewrite !app_nil_r; reflexivity].
    destruct (finish_line edit_dis _); cbn [bind app]; rewrite ?app_nil_r; reflexivity.
  - destruct (d <=? ambiguous_error_node_degree cfg);
      [|cbn [bind]; rewrite !app_nil_r; reflexivity].
    destruct (collect_high cfg g neis 0 []) as [[hn n2c]|]; [|reflexivity].
    cbn [bind]. destruct (hn =? 1).
    + destruct (list_getitem _ 0) as [[fn fc]|]; [|reflexivity]. cbn [bind].
      destruct (Nx.degree g fn); [|reflexivity]. cbn [bind].
      destruct (high_freq_thre cfg <=? fc);
        [|cbn [bind]; rewrite !app_nil_r; reflexivity].
      destruct (finish_line edit_dis _); cbn [bind app]; rewrite ?app_nil_r; reflexivity.
    + destruct (ambiguous_candidates _ _ _ _ _ _ _ _ _) as [[|r tmp]|];
        cbn [bind app]; rewrite ?app_nil_r; reflexivity.
Qed.

Lemma visit_node_eq (g : Nx.graph) (gen : list row) (ambi : list (list row))
    (n : string) :
  visit_node cfg edit_dis (g, gen, ambi) n =
  ('(dg, da) <- node_emission cfg edit_dis g n ;;
   g' <- mark cfg g n ;;
   Ok (g', gen ++ dg, ambi ++ da)).
Proof.
  unfold visit_node, node_emission, mark.
  destruct (Nx.node_count g n) as [c|]; [|reflexivity]. cbn [bind].
  destruct (Nx.degree g n) as [d|]; [|reflexivity]. cbn [bind].
  destruct (eligible cfg g n c) as [[|]|]; [| |reflexivity]; cbn [bind].
  - destruct (Nx.neighbors g n) as [neis|]; [|reflexivity]. cbn [bind].
    rewrite classify_node_app.
    destruct (classify_node cfg edit_dis g n c d neis ([], [])) as [[dg da]|];
      reflexivity.
  - rewrite !app_nil_r. reflexivity.
Qed.

Lemma eligible_transfer (g1 g2 : Nx.graph) (n : string) (c : Z) :
  Nx.node_flag g1 n = Nx.node_flag g2 n ->
  eligible cfg g1 n c = eligible cfg g2 n c.
Proof. intros H. unfold eligible. rewrite H. reflexivity. Qed.

(** What is added for a node depends on the flag of that node only. *)
Lemma node_emission_transfer (g1 g2 : Nx.graph) (n : string) :
  skeleton g1 = skeleton g2 -> Nx.node_flag g1 n = Nx.node_flag g2 n ->
  node_emission cfg edit_dis g1 n = node_emission cfg edit_dis g2 n.
Proof.
  intros H Hf. unfold node_emission.
  rewrite (node_count_skeleton _ _ n H), (degree_skeleton _ _ n H),
    (neighbors_skeleton _ _ n H).
  destruct (Nx.node_count g2 n) as [c|]; [|reflexivity]. cbn [bind].
  destruct (Nx.degree g2 n) as [d|]; [|reflexivity]. cbn [bind].
  rewrite (eligible_transfer _ _ _ _ Hf).
  destruct (eligible cfg g2 n c) as [[|]|]; try reflexivity. cbn [bind].
  destruct (Nx.neighbors g2 n) as [neis|]; [|reflexivity]. cbn [bind].
  apply classify_node_skeleton, H.
Qed.

Lemma mark_skeleton (g g' : Nx.graph) (n : string) :
  mark cfg g n = Ok g' -> skeleton g' = skeleton g.
Proof.
  unfold mark. destruct (Nx.node_count g n) as [c|]; [|discriminate]. cbn [bind].
  destruct (eligible cfg g n c) as [[|]|]; [| |discriminate]; cbn [bind].
  - apply set_flag_skeleton.
  - intros [= <-]. reflexivity.
Qed.

Lemma mark_flag_other (g g' : Nx.graph) (n m : string) :
  mark cfg g n = Ok g' -> m <> n -> Nx.node_flag g' m = Nx.node_flag g m.
Proof.
  unfold mark. destruct (Nx.node_count g n) as [c|]; [|discriminate]. cbn [bind].
  destruct (eligible cfg g n c) as [[|]|]; [| |discriminate]; cbn [bind].
  - apply set_flag_flag_other.
  - intros [= <-]. reflexivity.
Qed.

Lemma settled_eligible (g : Nx.graph) (n : string) (c : Z) :
  Nx.node_count g n = Ok c ->
  (max_error_freq cfg < c \/ Nx.node_flag g n = Ok true) ->
  eligible cfg g n c = Ok false.
Proof.
  intros Hc [H|H]; unfold eligible.
  - destruct (Z.leb_spec c (max_error_freq cfg)); [lia|reflexivity].
  - rewrite H. destruct (c <=? max_error_freq cfg); reflexivity.
Qed.

Lemma mark_settles (g g' : Nx.graph) (n : string) :
  mark cfg g n = Ok g' -> (exists d, Nx.degree g n = Ok d) -> settled cfg g' n.
Proof.
  intros H [d Hd]. pose proof (mark_skeleton _ _ _ H) as Hs.
  unfold settled. rewrite (node_count_skeleton _ _ n Hs), (degree_skeleton _ _ n Hs).
  unfold mark in H. destruct (Nx.node_count g n) as [c|]; [|discriminate].
  cbn [bind] in H. exists c, d. split; [reflexivity|]. split; [assumption|].
  unfold eligible in H.
  destruct (Z.leb_spec c (max_error_freq cfg)); cbn [bind] in H.
  - destruct (Nx.node_flag g n) as [[|]|] eqn:Ef; [| |discriminate]; cbn [bind negb] in H.
    + injection H as <-. right. assumption.
    + right. apply (set_flag_flag _ _ _ _ H).
  - left. assumption.
Qed.

Lemma mark_keeps_settled (g g' : Nx.graph) (n m : string) :
  mark cfg g n = Ok g' -> settled cfg g m -> settled cfg g' m.
Proof.
  intros H (c & d & Hc & Hd & Hs). pose proof (mark_skeleton _ _ _ H) as Hk.
  exists c, d. rewrite (node_count_skeleton _ _ m Hk), (degree_skeleton _ _ m Hk).
  split; [assumption|]. split; [assumption|].
  destruct Hs as [Hs|Hs]; [left; assumption|right].
  destruct (string_dec m n) as [->|Hne].
  - unfold mark in H. rewrite Hc in H. cbn [bind] in H.
    rewrite (settled_eligible g n c Hc (or_intror Hs)) in H. cbn [bind] in H.
    injection H as <-. assumption.
  - rewrite (mark_flag_other _ _ _ _ H Hne). assumption.
Qed.

Lemma settled_visit (g : Nx.graph) (gen : list row) (ambi : list (list row))
    (n : string) :
  settled cfg g n -> visit_node cfg edit_dis (g, gen, ambi) n = Ok (g, gen, ambi).
Proof.
  intros (c & d & Hc & Hd & Hs). unfold visit_node.
  rewrite Hc, Hd. cbn [bind]. rewrite (settled_eligible g n c Hc Hs). reflexivity.
Qed.

End ClassifierFacts.

Section PassFacts.

Variable cfg : config.
Variable edit_dis : Z.

Lemma node_emission_degree (g : Nx.graph) (n : string)
    (e : list row * list (list row)) :
  node_emission cfg edit_dis g n = Ok e ->
  exists c d go, Nx.node_count g n = Ok c /\ Nx.degree g n = Ok d /\
    eligible cfg g n c = Ok go.
Proof.
  unfold node_emission.
  destruct (Nx.node_count g n) as [c|] eqn:Ec; [|discriminate]. cbn [bind].
  destruct (Nx.degree g n) as [d|] eqn:Ed; [|discriminate]. cbn [bind].
  destruct (eligible cfg g n c) as [go|] eqn:Ego; [|discriminate].
  intros _. exists c, d, go. auto.
Qed.

Lemma node_count_lookup (g : Nx.graph) (n : string) (c : Z) :
  Nx.node_count g n = Ok c -> Nx.lookup g n <> None.
Proof.
  unfold Nx.node_count. destruct (Nx.lookup g n); [discriminate|discriminate].
Qed.

Lemma mark_total (g : Nx.graph) (n : string) (e : list row * list (list row)) :
  node_emission cfg edit_dis g n = Ok e -> exists g', mark cfg g n = Ok g'.
Proof.
  intros H. destruct (node_emission_degree _ _ _ H) as (c & d & go & Hc & Hd & Hgo).
  unfold mark. rewrite Hc. cbn [bind]. rewrite Hgo. cbn [bind].
  destruct go; [|eauto].
  apply set_flag_total. apply (node_count_lookup _ _ _ Hc).
Qed.

(** A completed loop has settled every node it went through, and has
    changed nothing but flags. *)
Lemma for_each_settles (l : list string) :
  forall g gen ambi g' gen' ambi',
    for_each (visit_node cfg edit_dis) (g, gen, ambi) l = Ok (g', gen', ambi') ->
    (forall n, In n l -> settled cfg g' n) /\
    skeleton g' = skeleton g /\
    (forall m, settled cfg g m -> settled cfg g' m).
Proof.
  induction l as [|n l IH]; intros g gen ambi g' gen' ambi' H;
    cbn [for_each] in H.
  - injection H as <- <- <-. repeat split; [contradiction|auto].
  - rewrite visit_node_eq in H.
    destruct (node_emission cfg edit_dis g n) as [[dg da]|] eqn:Ee;
      [|discriminate]. cbn [bind] in H.
    destruct (mark cfg g n) as [g1|] eqn:Em; [|discriminate]. cbn [bind] in H.
    destruct (IH _ _ _ _ _ _ H) as (Hall & Hsk & Hkeep).
    destruct (node_emission_degree _ _ _ Ee) as (c & d & go & _ & Hd & _).
    split; [|split].
    + intros m [<-|Hm]; [|apply Hall, Hm].
      apply Hkeep. apply (mark_settles cfg g g1 n Em). eauto.
    + rewrite Hsk. apply (mark_skeleton cfg _ _ _ Em).
    + intros m Hm. apply Hkeep. apply (mark_keeps_settled cfg _ _ _ _ Em Hm).
Qed.

Lemma for_each_settled (l : list string) (g : Nx.graph) (gen : list row)
    (ambi : list (list row)) :
  (forall n, In n l -> settled cfg g n) ->
  for_each (visit_node cfg edit_dis) (g, gen, ambi) l = Ok (g, gen, ambi).
Proof.
  induction l as [|n l IH]; intros H; [reflexivity|].
  cbn [for_each]. rewrite settled_visit by (apply H; left; reflexivity).
  cbn [bind]. apply IH. intros m Hm. apply H. right. assumption.
Qed.

(** The pass over a subgraph that a completed pass has left behind. *)
Lemma classify_subgraph_again (g g' : Nx.graph) (gen : list row)
    (ambi : list (list row)) :
  classify_subgraph cfg edit_dis g = Ok (g', gen, ambi) ->
  classify_subgraph cfg edit_dis g' = Ok (g', [], []).
Proof.
  unfold classify_subgraph. intros H.
  destruct (0 <? Z.of_nat (List.length (Nx.edges g))) eqn:Ee.
  - destruct (for_each_settles _ _ _ _ _ _ _ H) as (Hall & Hsk & _).
    rewrite (edges_skeleton _ _ Hsk), Ee, (nodes_skeleton _ _ Hsk).
    apply for_each_settled. assumption.
  - injection H as <- <- <-. rewrite Ee. reflexivity.
Qed.

Lemma classify_subgraph_settles (g g' : Nx.graph) (gen : list row)
    (ambi : list (list row)) :
  classify_subgraph cfg edit_dis g = Ok (g', gen, ambi) ->
  Nx.edges g' <> [] ->
  forall n, In n (Nx.nodes g') -> settled cfg g' n.
Proof.
  unfold classify_subgraph. intros H He.
  destruct (0 <? Z.of_nat (List.length (Nx.edges g))) eqn:Ee.
  - destruct (for_each_settles _ _ _ _ _ _ _ H) as (Hall & Hsk & _).
    rewrite (nodes_skeleton _ _ Hsk). assumption.
  - injection H as <- <- <-.
    destruct (Nx.edges g); [contradiction|].
    apply Z.ltb_ge in Ee. cbn [List.length] in Ee. lia.
Qed.

End PassFacts.

Section ListIndex.

Context {A : Type}.

Lemma list_update_length (l : list A) (i : nat) (x : A) :
  List.length (list_update l i x) = List.length l.
Proof.
  revert i; induction l as [|y l IH]; intros [|i]; simpl; auto.
Qed.

Lemma list_update_nth (l : list A) (i : nat) (x : A) :
  (i < List.length l)%nat -> nth_error (list_update l i x) i = Some x.
Proof.
  revert i; induction l as [|y l IH]; intros [|i] H; simpl in *; try lia.
  - reflexivity.
  - apply IH. lia.
Qed.

Lemma list_update_same (l : list A) (i : nat) (x : A) :
  nth_error l i = Some x -> list_update l i x = l.
Proof.
  revert i; induction l as [|y l IH]; intros [|i] H; simpl in *;
    try discriminate.
  - injection H as ->. reflexivity.
  - f_equal. apply IH, H.
Qed.

Lemma list_getitem_ok (l : list A) (i : Z) (x : A) :
  list_getitem l i = Ok x ->
  let j := Z.to_nat (if i <? 0 then i + Z.of_nat (List.length l) else i) in
  (j < List.length l)%nat /\ nth_error l j = Some x.
Proof.
  unfold list_getitem.
  set (k := if i <? 0 then i + Z.of_nat (List.length l) else i).
  destruct (Z.ltb_spec k 0); [discriminate|].
  destruct (Z.leb_spec (Z.of_nat (List.length l)) k); [discriminate|]. simpl.
  destruct (nth_error l (Z.to_nat k)) eqn:E; [|discriminate].
  intros [= ->]. split; [lia|reflexivity].
Qed.

Lemma list_getitem_setitem (l : list A) (i : Z) (x y : A) :
  list_getitem l i = Ok x -> list_getitem (list_setitem l i y) i = Ok y.
Proof.
  intros H. destruct (list_getitem_ok _ _ _ H) as [Hj _].
  unfold list_getitem, list_setitem in *. rewrite list_update_length.
  set (k := if i <? 0 then i + Z.of_nat (List.length l) else i) in *.
  destruct (Z.ltb_spec k 0); [discriminate|].
  destruct (Z.leb_spec (Z.of_nat (List.length l)) k); [discriminate|]. simpl.
  rewrite list_update_nth by assumption. reflexivity.
Qed.

Lemma list_setitem_same (l : list A) (i : Z) (x : A) :
  list_getitem l i = Ok x -> list_setitem l i x = l.
Proof.
  intros H. destruct (list_getitem_ok _ _ _ H) as [_ Hn].
  unfold list_setitem. apply list_update_same, Hn.
Qed.

End ListIndex.

(** C9 (counterexample).  A pass does not touch the nodes of a subgraph
    without edges: the single read GGGT of count 1 is, after a completed
    pass, neither flagged nor above [max_error_freq]. *)
Lemma second_pass_edgeless_counterexample :
  extract_genuine_ambi_errs_subgraph example_config ([lone_example], 1) 0
    = Ok (([], []), [lone_example]) /\
  In "GGGT" (Nx.nodes lone_example) /\
  Nx.node_count lone_example "GGGT" = Ok 1 /\
  ~ (max_error_freq example_config < 1) /\
  Nx.node_flag lone_example "GGGT" = Ok false.
Proof.
  split; [reflexivity|]. split; [left; reflexivity|]. split; [reflexivity|].
  split; [simpl; lia|reflexivity].
Qed.

(** C9 (amended).  A second run of [extract_genuine_ambi_errs_subgraph] on
    the same subgraph object, after a first run that completed, returns two
    empty lists and leaves the subgraphs as they are; when the subgraph has
    an edge, the first run has left every node either flagged or above
    [max_error_freq]. *)
Theorem extract_genuine_ambi_errs_subgraph_second_pass
    (cfg : config) (sub_graphs sub_graphs' : list Nx.graph) (edit_dis ii : Z)
    (lists : list row * list (list row)) :
  extract_genuine_ambi_errs_subgraph cfg (sub_graphs, edit_dis) ii
    = Ok (lists, sub_graphs') ->
  extract_genuine_ambi_errs_subgraph cfg (sub_graphs', edit_dis) ii
    = Ok (([], []), sub_graphs') /\
  (forall g', list_getitem sub_graphs' ii = Ok g' -> Nx.edges g' <> [] ->
     forall n, In n (Nx.nodes g') ->
       exists c, Nx.node_count g' n = Ok c /\
         (max_error_freq cfg < c \/ Nx.node_flag g' n = Ok true)).
Proof.
  unfold extract_genuine_ambi_errs_subgraph. intros H.
  destruct (list_getitem sub_graphs ii) as [g|] eqn:Eg; [|discriminate].
  cbn [bind] in H.
  destruct (classify_subgraph cfg edit_dis g) as [[[g1 gen] ambi]|] eqn:Ec;
    [|discriminate].
  cbn [bind] in H. injection H as <- <-.
  pose proof (list_getitem_setitem _ _ _ g1 Eg) as Eg1.
  split.
  - rewrite Eg1. cbn [bind].
    rewrite (classify_subgraph_again cfg edit_dis _ _ _ _ Ec). cbn [bind].
    rewrite (list_setitem_same _ _ _ Eg1). reflexivity.
  - intros g' Hg' He n Hn. rewrite Eg1 in Hg'. injection Hg' as <-.
    destruct (classify_subgraph_settles cfg edit_dis _ _ _ _ Ec He n Hn)
      as (c & d & Hc & _ & Hs).
    eauto.
Qed.

Lemma extract_genuine_ambi_errs_subgraph_second_pass_witness :
  extract_genuine_ambi_errs_subgraph example_config ([star_example], 2) 0
    = Ok ((star_example_rows, []), [star_example_visited]) /\
  extract_genuine_ambi_errs_subgraph example_config ([star_example_visited], 2) 0
    = Ok (([], []), [star_example_visited]).
Proof.
  split; [vm_compute; reflexivity|].
  apply (extract_genuine_ambi_errs_subgraph_second_pass example_config
           [star_example] [star_example_visited] 2 0 (star_example_rows, [])).
  vm_compute. reflexivity.
Defined.

Section EmissionFacts.

Variable cfg : config.
Variable edit_dis : Z.

Lemma finish_line_fields (p n : string) (pc pd c d : Z) (r : row) :
  finish_line edit_dis [PStr p; PInt pc; PInt pd; PStr n; PInt c; PInt d] = Ok r ->
  parent_of r = Some (PStr p) /\ child_of edit_dis r = Some (PStr n) /\
  start_degree_of r = Some (PInt pd).
Proof.
  unfold finish_line, child_of. destruct (edit_dis =? 1).
  - intros H. apply err_type_classification_shape in H.
    destruct H as (t & k1 & k2 & q & ->). repeat split.
  - intros [= <-]. repeat split.
Qed.

Lemma high_pairs_fst (g : Nx.graph) (neis : list string) :
  map fst (high_pairs cfg g neis) = high_neighbors cfg g neis.
Proof.
  unfold high_pairs, high_neighbors.
  induction neis as [|nei neis IH]; [reflexivity|]. simpl.
  destruct (Nx.node_count g nei) as [c|]; [|assumption].
  destruct (high_freq_thre cfg <=? c); simpl; [f_equal|]; assumption.
Qed.

Lemma high_pairs_high (g : Nx.graph) (neis : list string) (p : string * Z) :
  In p (high_pairs cfg g neis) ->
  In (fst p) neis /\ Nx.node_count g (fst p) = Ok (snd p) /\
  high_freq_thre cfg <= snd p.
Proof.
  unfold high_pairs. rewrite in_flat_map. intros (nei & Hin & Hp).
  destruct (Nx.node_count g nei) as [c|] eqn:Ec; [|contradiction].
  destruct (Z.leb_spec (high_freq_thre cfg) c); [|contradiction].
  destruct Hp as [<-|[]]. simpl. auto.
Qed.

Lemma collect_high_spec (g : Nx.graph) (neis : list string) :
  forall hn acc hn' acc',
    collect_high cfg g neis hn acc = Ok (hn', acc') ->
    hn' = hn + Z.of_nat (List.length (high_pairs cfg g neis)) /\
    acc' = acc ++ high_pairs cfg g neis.
Proof.
  induction neis as [|nei neis IH]; intros hn acc hn' acc' H; simpl in H.
  - injection H as <- <-. simpl. rewrite app_nil_r. split; [lia|reflexivity].
  - unfold high_pairs. simpl. fold (high_pairs cfg g neis).
    destruct (Nx.node_count g nei) as [c|]; [|discriminate]. cbn [bind] in H.
    destruct (Nx.degree g nei) as [d|]; [|discriminate]. cbn [bind] in H.
    destruct (high_freq_thre cfg <=? c).
    + apply IH in H. destruct H as [-> ->]. simpl.
      rewrite <- app_assoc. split; [lia|reflexivity].
    + apply IH in H. destruct H as [-> ->]. simpl. split; reflexivity.
Qed.

Lemma collect_high_total (g : Nx.graph) (neis : list string) :
  (forall nei, In nei neis ->
     (exists c, Nx.node_count g nei = Ok c) /\ (exists d, Nx.degree g nei = Ok d)) ->
  forall hn acc, exists r, collect_high cfg g neis hn acc = Ok r.
Proof.
  induction neis as [|nei neis IH]; intros Hok hn acc; simpl; [eauto|].
  destruct (Hok nei (or_introl eq_refl)) as [[c ->] [d ->]]. cbn [bind].
  destruct (high_freq_thre cfg <=? c); apply IH; intros; apply Hok; right; assumption.
Qed.

Lemma ambiguous_candidates_spec (g : Nx.graph) (nei : option string)
    (node : string) (c d : Z) (n2c : list (string * Z)) :
  (forall p, In p n2c -> high_freq_thre cfg <= snd p) ->
  forall acc tmp,
    ambiguous_candidates cfg edit_dis g nei node c d n2c acc = Ok tmp ->
    exists rows, tmp = acc ++ rows /\ Forall2 (candidate_of edit_dis node) n2c rows.
Proof.
  induction n2c as [|[cre cnt] rest IH]; intros Hhigh acc tmp H; simpl in H.
  - injection H as <-. exists []. rewrite app_nil_r. split; constructor.
  - destruct (Z.leb_spec (high_freq_thre cfg) cnt) as [_|Hlt].
    2:{ specialize (Hhigh (cre, cnt) (or_introl eq_refl)). simpl in Hhigh. lia. }
    destruct nei as [n0|]; [|discriminate]. cbn [bind] in H.
    destruct (Nx.degree g n0) as [d0|]; [|discriminate]. cbn [bind] in H.
    destruct (finish_line edit_dis _) as [r|] eqn:Er; [|discriminate].
    cbn [bind] in H.
    apply IH in H; [|intros p Hp; apply Hhigh; right; assumption].
    destruct H as (rows & -> & Hrows).
    exists (r :: rows). rewrite <- app_assoc. split; [reflexivity|].
    constructor; [|assumption].
    apply finish_line_fields in Er. destruct Er as (Hp & Hc & _).
    split; assumption.
Qed.

(** What the [if]/[elif] statement adds, case by case. *)
Lemma classify_node_cases (g : Nx.graph) (node : string) (c d : Z)
    (neis : list string) (dg : list row) (da : list (list row)) :
  classify_node cfg edit_dis g node c d neis ([], []) = Ok (dg, da) ->
  (d = 1 ->
     da = [] /\
     exists nei nc, list_getitem neis 0 = Ok nei /\ Nx.node_count g nei = Ok nc /\
       ((high_freq_thre cfg <= nc /\
         exists r, dg = [r] /\ candidate_of edit_dis node (nei, nc) r)
        \/ (nc < high_freq_thre cfg /\ dg = []))) /\
  (d <> 1 -> d <= ambiguous_error_node_degree cfg ->
     (forall p, high_pairs cfg g neis = [p] ->
        da = [] /\ exists r, dg = [r] /\ candidate_of edit_dis node p r) /\
     (high_pairs cfg g neis = [] -> dg = [] /\ da = []) /\
     ((1 < List.length (high_pairs cfg g neis))%nat ->
        dg = [] /\
        exists grp, da = [grp] /\
          Forall2 (candidate_of edit_dis node) (high_pairs cfg g neis) grp)) /\
  (d <> 1 -> ambiguous_error_node_degree cfg < d -> dg = [] /\ da = []).
Proof.
  unfold classify_node. intros H.
  destruct (Z.eqb_spec d 1) as [E1|E1].
  - split; [|split; intros; contradiction]. intros _.
    destruct (list_getitem neis 0) as [nei|]; [|discriminate]. cbn [bind] in H.
    destruct (Nx.node_count g nei) as [nc|] eqn:Enc; [|discriminate].
    cbn [bind] in H.
    destruct (Nx.degree g nei) as [nd|]; [|discriminate]. cbn [bind] in H.
    destruct (Z.leb_spec (high_freq_thre cfg) nc) as [Hh|Hl].
    + destruct (finish_line edit_dis _) as [r|] eqn:Er; [|discriminate].
      cbn [bind] in H. injection H as <- <-. split; [reflexivity|].
      exists nei, nc. split; [reflexivity|]. split; [assumption|]. left.
      split; [assumption|]. exists r. split; [reflexivity|].
      apply finish_line_fields in Er. destruct Er as (Hp & Hc & _). split; assumption.
    + injection H as <- <-. split; [reflexivity|].
      exists nei, nc. split; [reflexivity|]. split; [assumption|]. right. auto.
  - split; [intros; contradiction|].
    destruct (Z.leb_spec d (ambiguous_error_node_degree cfg)) as [Hle|Hgt].
    2:{ injection H as <- <-. split; [intros; lia|]. auto. }
    split; [|intros; lia]. intros _ _.
    destruct (collect_high cfg g neis 0 []) as [[hn n2c]|] eqn:Ech; [|discriminate].
    cbn [bind] in H. apply collect_high_spec in Ech. destruct Ech as [-> ->].
    simpl app in H. set (hp := high_pairs cfg g neis) in *.
    assert (Hhigh : forall p, In p hp -> high_freq_thre cfg <= snd p).
    { intros p Hp. apply (high_pairs_high g neis p Hp). }
    destruct (Z.eqb_spec (0 + Z.of_nat (List.length hp)) 1) as [Eh|Eh].
    + destruct hp as [|[fn fc] [|q hp']] eqn:Ehp; simpl in Eh; try lia.
      simpl in H.
      destruct (Nx.degree g fn) as [fd|]; [|discriminate]. cbn [bind] in H.
      destruct (Z.leb_spec (high_freq_thre cfg) fc) as [_|Hlt].
      2:{ specialize (Hhigh (fn, fc) (or_introl eq_refl)). simpl in Hhigh. lia. }
      destruct (finish_line edit_dis _) as [r|] eqn:Er; [|discriminate].
      cbn [bind] in H. injection H as <- <-.
      split; [|split; [discriminate|simpl; lia]].
      intros p [= <-]. split; [reflexivity|]. exists r. split; [reflexivity|].
      apply finish_line_fields in Er. destruct Er as (Hp & Hc & _). split; assumption.
    + destruct (ambiguous_candidates _ _ _ _ _ _ _ _ _) as [tmp|] eqn:Ea;
        [|discriminate].
      cbn [bind] in H.
      apply (ambiguous_candidates_spec _ _ _ _ _ _ Hhigh) in Ea.
      destruct Ea as (rows & -> & Hrows). simpl app in H.
      split; [|split].
      * intros p Ep. rewrite Ep in Eh. simpl in Eh. lia.
      * intros Ep. rewrite Ep in Hrows. inversion Hrows; subst.
        injection H as <- <-. auto.
      * intros Hlen. destruct Hrows as [|p r hp' rows' Hpr Hrest];
          [simpl in Hlen; lia|].
        injection H as <- <-. split; [reflexivity|].
        eexists. split; [reflexivity|]. constructor; assumption.
Qed.

End EmissionFacts.

Section PassEmissions.

Variable cfg : config.
Variable edit_dis : Z.

Lemma Forall2_impl_in {A B : Type} (P Q : A -> B -> Prop) (l : list A)
    (l' : list B) :
  (forall a b, In a l -> P a b -> Q a b) -> Forall2 P l l' -> Forall2 Q l l'.
Proof.
  intros H HF. induction HF as [|a b l l' Hab HF IH]; constructor.
  - apply H; [left; reflexivity|assumption].
  - apply IH. intros a' b' Hin. apply H. right. assumption.
Qed.

Lemma Forall2_in_r {A B : Type} (P : A -> B -> Prop) (l : list A) (l' : list B) :
  Forall2 P l l' -> forall b, In b l' -> exists a, In a l /\ P a b.
Proof.
  intros HF. induction HF as [|a b l l' Hab HF IH]; intros b' Hb; [contradiction|].
  destruct Hb as [<-|Hb].
  - exists a. split; [left; reflexivity|assumption].
  - destruct (IH b' Hb) as (a' & Ha' & Hp). exists a'. split; [right|]; assumption.
Qed.

(** A completed loop over distinct nodes has added, node after node, what
    [node_emission] gives on the graph the loop started from. *)
Lemma for_each_visit_emissions (l : list string) :
  forall g gen ambi g' gen' ambi',
    NoDup l ->
    for_each (visit_node cfg edit_dis) (g, gen, ambi) l = Ok (g', gen', ambi') ->
    exists ems,
      Forall2 (fun n e => node_emission cfg edit_dis g n = Ok e) l ems /\
      gen' = gen ++ List.concat (map fst ems) /\
      ambi' = ambi ++ List.concat (map snd ems) /\
      skeleton g' = skeleton g /\
      (forall m, ~ In m l -> Nx.node_flag g' m = Nx.node_flag g m).
Proof.
  induction l as [|n l IH]; intros g gen ambi g' gen' ambi' Hnd H;
    cbn [for_each] in H.
  - injection H as <- <- <-. exists []. simpl. rewrite !app_nil_r.
    repeat split; constructor.
  - rewrite visit_node_eq in H.
    destruct (node_emission cfg edit_dis g n) as [[dg da]|] eqn:Ee;
      [|discriminate]. cbn [bind] in H.
    destruct (mark cfg g n) as [g1|] eqn:Em; [|discriminate]. cbn [bind] in H.
    inversion Hnd as [|? ? Hn Hl]; subst.
    destruct (IH _ _ _ _ _ _ Hl H) as (ems & HF & -> & -> & Hsk & Hfl).
    pose proof (mark_skeleton cfg _ _ _ Em) as Hsk1.
    exists ((dg, da) :: ems). simpl. rewrite <- !app_assoc.
    split; [|split; [reflexivity|split; [reflexivity|split]]].
    + constructor; [assumption|].
      apply (Forall2_impl_in _ _ _ _ (fun m e Hm Hme => eq_trans
               (eq_sym (node_emission_transfer cfg edit_dis g1 g m Hsk1
                  (mark_flag_other cfg g g1 n m Em
                     (fun E => Hn (eq_ind m (fun x => In x l) Hm n E))))) Hme) HF).
    + rewrite Hsk. assumption.
    + intros m Hm. rewrite Hfl by (intros Hin; apply Hm; right; assumption).
      apply (mark_flag_other cfg _ _ _ _ Em). intros ->. apply Hm. left. reflexivity.
Qed.

Lemma for_each_visit_total (l : list string) :
  forall g gen ambi,
    NoDup l ->
    (forall n, In n l -> exists e, node_emission cfg edit_dis g n = Ok e) ->
    exists st, for_each (visit_node cfg edit_dis) (g, gen, ambi) l = Ok st.
Proof.
  induction l as [|n l IH]; intros g gen ambi Hnd Hok; cbn [for_each]; [eauto|].
  rewrite visit_node_eq.
  destruct (Hok n (or_introl eq_refl)) as [[dg da] Ee]. rewrite Ee. cbn [bind].
  destruct (mark_total cfg edit_dis _ _ _ Ee) as [g1 Em]. rewrite Em. cbn [bind].
  inversion Hnd as [|? ? Hn Hl]; subst.
  apply IH; [assumption|]. intros m Hm.
  destruct (Hok m (or_intror Hm)) as [e He]. exists e.
  rewrite <- He. apply node_emission_transfer.
  - apply (mark_skeleton cfg _ _ _ Em).
  - apply (mark_flag_other cfg _ _ _ _ Em). intros ->. contradiction.
Qed.

Lemma is_child_true (n : string) (r : row) :
  is_child edit_dis n r = true <-> child_of edit_dis r = Some (PStr n).
Proof.
  unfold is_child. destruct (child_of edit_dis r) as [[s|z]|]; simpl.
  - rewrite String.eqb_eq. split; intros; congruence.
  - split; discriminate.
  - split; discriminate.
Qed.

Lemma filter_none {A : Type} (f : A -> bool) (l : list A) :
  (forall x, In x l -> f x = false) -> filter f l = [].
Proof.
  induction l as [|x l IH]; intros H; [reflexivity|]. simpl.
  rewrite (H x (or_introl eq_refl)). apply IH. intros y Hy. apply H. right. exact Hy.
Qed.

Lemma filter_all {A : Type} (f : A -> bool) (l : list A) :
  (forall x, In x l -> f x = true) -> filter f l = l.
Proof.
  induction l as [|x l IH]; intros H; [reflexivity|]. simpl.
  rewrite (H x (or_introl eq_refl)). f_equal. apply IH. intros y Hy. apply H.
  right. exact Hy.
Qed.

(** Everything added for a node has that node as child; at most one row or
    one group is added, and only for a node that was eligible. *)
Lemma emission_children (g : Nx.graph) (m : string) (dg : list row)
    (da : list (list row)) :
  node_emission cfg edit_dis g m = Ok (dg, da) ->
  (forall r, In r dg -> child_of edit_dis r = Some (PStr m)) /\
  (forall grp, In grp da ->
     grp <> [] /\ forall r, In r grp -> child_of edit_dis r = Some (PStr m)) /\
  (dg = [] \/ da = []) /\
  (List.length dg <= 1)%nat /\ (List.length da <= 1)%nat /\
  (dg <> [] \/ da <> [] ->
     exists c, Nx.node_count g m = Ok c /\ c <= max_error_freq cfg /\
       Nx.node_flag g m = Ok false).
Proof.
  unfold node_emission.
  destruct (Nx.node_count g m) as [c|]; [|discriminate]. cbn [bind].
  destruct (Nx.degree g m) as [d|]; [|discriminate]. cbn [bind].
  destruct (eligible cfg g m c) as [[|]|] eqn:Ego; [| |discriminate]; cbn [bind].
  2:{ intros [= <- <-]. repeat split; simpl; try contradiction; auto.
      intros [H|H]; contradiction. }
  assert (Hel : exists c0, Ok c = Ok c0 /\ c0 <= max_error_freq cfg /\
                  Nx.node_flag g m = Ok false).
  { exists c. split; [reflexivity|]. unfold eligible in Ego.
    destruct (Z.leb_spec c (max_error_freq cfg)); [|discriminate].
    split; [assumption|].
    destruct (Nx.node_flag g m) as [[|]|]; simpl in Ego; congruence. }
  destruct (Nx.neighbors g m) as [neis|]; [|discriminate]. cbn [bind].
  intros H. apply classify_node_cases in H. destruct H as (H1 & H2 & H3).
  destruct (Z.eq_dec d 1) as [E1|E1].
  - destruct (H1 E1) as (-> & nei & nc & _ & _ & [(_ & r & -> & _ & Hc)|(_ & ->)]).
    + repeat split; simpl; auto; try contradiction.
      intros r' [<-|[]]. assumption.
    + repeat split; simpl; auto; contradiction.
  - destruct (Z.le_gt_cases d (ambiguous_error_node_degree cfg)) as [Hle|Hgt].
    + destruct (H2 E1 Hle) as (Hone & Hnone & Hmany).
      destruct (high_pairs cfg g neis) as [|p [|q hp]] eqn:Ehp.
      * destruct (Hnone eq_refl) as [-> ->].
        repeat split; simpl; auto; contradiction.
      * destruct (Hone p eq_refl) as (-> & r & -> & _ & Hc).
        repeat split; simpl; auto; try contradiction.
        intros r' [<-|[]]. assumption.
      * destruct Hmany as (-> & grp & -> & HF); [simpl; lia|].
        repeat split; simpl; auto; try contradiction.
        -- destruct H as [<-|[]]. inversion HF. discriminate.
        -- destruct H as [<-|[]]. intros r Hr.
           destruct (Forall2_in_r _ _ _ HF r Hr) as (p' & _ & _ & Hc).
           exact Hc.
    + destruct (H3 E1 Hgt) as [-> ->].
      repeat split; simpl; auto; contradiction.
Qed.

End PassEmissions.

Section PassRecords.

Variable cfg : config.
Variable edit_dis : Z.

Lemma emission_not_child (g : Nx.graph) (n node : string)
    (e : list row * list (list row)) :
  node_emission cfg edit_dis g n = Ok e -> n <> node ->
  records_of edit_dis node (fst e) = [] /\ groups_of edit_dis node (snd e) = [].
Proof.
  destruct e as [dg da]. intros He Hne.
  destruct (emission_children cfg edit_dis _ _ _ _ He) as (Hg & Ha & _).
  split; apply filter_none.
  - intros r Hr. destruct (is_child edit_dis node r) eqn:E; [|reflexivity].
    apply is_child_true in E. rewrite (Hg r Hr) in E. congruence.
  - intros grp Hgrp. destruct (existsb _ grp) eqn:E; [|reflexivity].
    apply existsb_exists in E. destruct E as (r & Hr & E).
    apply is_child_true in E. rewrite (proj2 (Ha grp Hgrp) r Hr) in E. congruence.
Qed.

Lemma emission_child (g : Nx.graph) (node : string)
    (e : list row * list (list row)) :
  node_emission cfg edit_dis g node = Ok e ->
  records_of edit_dis node (fst e) = fst e /\
  groups_of edit_dis node (snd e) = snd e.
Proof.
  destruct e as [dg da]. intros He.
  destruct (emission_children cfg edit_dis _ _ _ _ He) as (Hg & Ha & _).
  split; apply filter_all.
  - intros r Hr. apply is_child_true, Hg, Hr.
  - intros grp Hgrp. destruct (Ha grp Hgrp) as [Hne Hall].
    destruct grp as [|r grp]; [contradiction|]. simpl.
    rewrite (proj2 (is_child_true edit_dis node r) (Hall r (or_introl eq_refl))).
    reflexivity.
Qed.

Lemma records_of_app (node : string) (l1 l2 : list row) :
  records_of edit_dis node (l1 ++ l2) =
  records_of edit_dis node l1 ++ records_of edit_dis node l2.
Proof. apply filter_app. Qed.

Lemma groups_of_app (node : string) (l1 l2 : list (list row)) :
  groups_of edit_dis node (l1 ++ l2) =
  groups_of edit_dis node l1 ++ groups_of edit_dis node l2.
Proof. apply filter_app. Qed.

Lemma emissions_absent (g : Nx.graph) (node : string) (l : list string)
    (ems : list (list row * list (list row))) :
  Forall2 (fun n e => node_emission cfg edit_dis g n = Ok e) l ems ->
  ~ In node l ->
  records_of edit_dis node (List.concat (map fst ems)) = [] /\
  groups_of edit_dis node (List.concat (map snd ems)) = [].
Proof.
  intros HF. induction HF as [|n e l ems He HF IH]; intros Hn; [split; reflexivity|].
  simpl. rewrite records_of_app, groups_of_app.
  destruct (emission_not_child g n node e He) as [-> ->].
  { intros ->. apply Hn. left. reflexivity. }
  apply IH. intros Hin. apply Hn. right. assumption.
Qed.

(** In the lists of a completed loop over distinct nodes, the rows and
    groups that have [node] as child are those added for [node]. *)
Lemma emissions_present (g : Nx.graph) (node : string) (l : list string)
    (ems : list (list row * list (list row))) (e : list row * list (list row)) :
  NoDup l ->
  Forall2 (fun n e => node_emission cfg edit_dis g n = Ok e) l ems ->
  In node l -> node_emission cfg edit_dis g node = Ok e ->
  records_of edit_dis node (List.concat (map fst ems)) = fst e /\
  groups_of edit_dis node (List.concat (map snd ems)) = snd e.
Proof.
  intros Hnd HF. induction HF as [|n e' l ems He' HF IH]; intros Hin He;
    [contradiction|].
  inversion Hnd as [|? ? Hn Hl]; subst.
  simpl. rewrite records_of_app, groups_of_app.
  destruct (string_dec n node) as [->|Hne].
  - assert (e' = e) by congruence. subst e'.
    destruct (emission_child g node e He) as [-> ->].
    destruct (emissions_absent g node l ems HF Hn) as [-> ->].
    rewrite !app_nil_r. split; reflexivity.
  - destruct (emission_not_child g n node e' He' Hne) as [-> ->].
    destruct Hin as [E|Hin]; [contradiction|]. apply IH; assumption.
Qed.

End PassRecords.

Section WellFormed.

Lemma lookup_In (g : Nx.graph) (n : string) (d : Nx.node_data) :
  Nx.lookup g n = Some d -> In (n, d) g.
Proof.
  induction g as [|[k d'] g IH]; simpl; [discriminate|].
  destruct (String.eqb_spec k n) as [->|].
  - intros [= ->]. left. reflexivity.
  - intros H. right. apply IH, H.
Qed.

Lemma wf_graph_NoDup (g : Nx.graph) :
  Nx.wf_graph g = true -> NoDup (Nx.nodes g).
Proof.
  unfold Nx.wf_graph. rewrite andb_true_iff. intros [H _].
  apply distinct_NoDup, H.
Qed.

Lemma wf_graph_node (g : Nx.graph) (n : string) (d : Nx.node_data) :
  Nx.wf_graph g = true -> In (n, d) g ->
  exists c f, Nx.attr_count d = Some c /\ Nx.attr_flag d = Some f /\
    forall v, In v (Nx.adj d) -> Nx.lookup g v <> None.
Proof.
  unfold Nx.wf_graph. rewrite andb_true_iff. intros [_ H] Hin.
  rewrite forallb_forall in H. specialize (H _ Hin). simpl in H.
  destruct (Nx.attr_count d) as [c|]; [|discriminate].
  destruct (Nx.attr_flag d) as [f|]; [|discriminate].
  exists c, f. split; [reflexivity|]. split; [reflexivity|].
  rewrite forallb_forall in H. intros v Hv. specialize (H v Hv).
  unfold Nx.has_node in H. destruct (Nx.lookup g v); [discriminate|discriminate].
Qed.

(** Every lookup the classifiers make on a node of a well-formed graph
    succeeds. *)
Lemma wf_graph_lookups (g : Nx.graph) (n : string) :
  Nx.wf_graph g = true -> Nx.lookup g n <> None ->
  exists c f d neis,
    Nx.node_count g n = Ok c /\ Nx.node_flag g n = Ok f /\
    Nx.degree g n = Ok d /\ Nx.neighbors g n = Ok neis /\
    (d = Z.of_nat (List.length neis) + (if Nx.mem n neis then 1 else 0)) /\
    (forall v, In v neis -> Nx.lookup g v <> None) /\
    exists nd, In (n, nd) g /\ Nx.adj nd = neis.
Proof.
  intros Hwf Hn. destruct (Nx.lookup g n) as [nd|] eqn:El; [|contradiction].
  pose proof (lookup_In _ _ _ El) as Hin.
  destruct (wf_graph_node g n nd Hwf Hin) as (c & f & Hc & Hf & Hadj).
  exists c, f, (Z.of_nat (List.length (Nx.adj nd))
                + (if Nx.mem n (Nx.adj nd) then 1 else 0)), (Nx.adj nd).
  unfold Nx.node_count, Nx.node_flag, Nx.degree, Nx.neighbors.
  rewrite El, Hc, Hf. repeat split; try assumption. eauto.
Qed.

End WellFormed.

Section PassTotality.

Variable cfg : config.
Variable edit_dis : Z.

Lemma finish_line_total (p n : string) (pc pd c d : Z) :
  (edit_dis = 1 -> 0 < len p /\ 0 < len n /\ editdistance_eval p n = 1) ->
  exists r,
    finish_line edit_dis [PStr p; PInt pc; PInt pd; PStr n; PInt c; PInt d] = Ok r.
Proof.
  intros H. unfold finish_line. destruct (Z.eqb_spec edit_dis 1) as [E|E]; [|eauto].
  destruct (H E) as (Hp & Hn & Hd).
  destruct (proj1 (err_type_classification_nonempty p n (PInt pc) (PInt pd)
                     (PInt c) (PInt d) Hp Hn) Hd) as (r & Hr & _).
  eauto.
Qed.

Lemma ed1_graph_edge (g : Nx.graph) (n v : string) (nd : Nx.node_data) :
  ed1_graph g = true -> In (n, nd) g -> In v (Nx.adj nd) ->
  0 < len v /\ 0 < len n /\ editdistance_eval v n = 1.
Proof.
  unfold ed1_graph. rewrite forallb_forall. intros H Hin Hv.
  specialize (H _ Hin). rewrite forallb_forall in H. specialize (H _ Hv).
  simpl in H. rewrite !andb_true_iff in H. destruct H as [[H1 H2] H3].
  apply Z.ltb_lt in H1, H2. apply Z.eqb_eq in H3. auto.
Qed.

Lemma last_opt_in {A : Type} (l : list A) :
  l <> [] -> exists x, last_opt l = Some x /\ In x l.
Proof.
  induction l as [|x l IH]; intros H; [contradiction|].
  destruct l as [|y l].
  - exists x. split; [reflexivity|left; reflexivity].
  - destruct IH as (z & Hz & Hin); [discriminate|].
    exists z. split; [exact Hz|right; exact Hin].
Qed.

Lemma ambiguous_candidates_total (g : Nx.graph) (nei : option string)
    (node : string) (c d : Z) (n2c : list (string * Z)) :
  (forall p pd, In p n2c -> exists r,
     finish_line edit_dis [PStr (fst p); PInt (snd p); PInt pd;
                           PStr node; PInt c; PInt d] = Ok r) ->
  (n2c <> [] -> exists n0 d0, nei = Some n0 /\ Nx.degree g n0 = Ok d0) ->
  forall acc, exists tmp,
    ambiguous_candidates cfg edit_dis g nei node c d n2c acc = Ok tmp.
Proof.
  induction n2c as [|[cre cnt] rest IH]; intros Hfin Hnei acc; simpl; [eauto|].
  destruct (Hnei ltac:(discriminate)) as (n0 & d0 & -> & Hd0).
  assert (Hrest : forall acc', exists tmp,
            ambiguous_candidates cfg edit_dis g (Some n0) node c d rest acc' = Ok tmp).
  { apply IH.
    - intros p pd Hp. apply Hfin. right. assumption.
    - intros _. eauto. }
  destruct (high_freq_thre cfg <=? cnt); [|apply Hrest].
  cbn [bind]. rewrite Hd0. cbn [bind].
  destruct (Hfin (cre, cnt) d0 (or_introl eq_refl)) as [r Hr]. simpl in Hr.
  rewrite Hr. cbn [bind]. apply Hrest.
Qed.

Lemma classify_node_total (g : Nx.graph) (node : string) (c d : Z)
    (neis : list string) :
  d = Z.of_nat (List.length neis) + (if Nx.mem node neis then 1 else 0) ->
  (forall v, In v neis ->
     (exists c', Nx.node_count g v = Ok c') /\ (exists d', Nx.degree g v = Ok d')) ->
  (forall v pc pd, In v neis -> exists r,
     finish_line edit_dis [PStr v; PInt pc; PInt pd; PStr node; PInt c; PInt d] = Ok r) ->
  exists e, classify_node cfg edit_dis g node c d neis ([], []) = Ok e.
Proof.
  intros Hd Hlook Hfin. unfold classify_node.
  destruct (Z.eqb_spec d 1) as [E1|E1].
  - destruct neis as [|nei neis].
    { simpl in Hd. lia. }
    change (list_getitem (nei :: neis) 0) with (Ok nei). cbn [bind].
    destruct (Hlook nei (or_introl eq_refl)) as [[nc ->] [nd ->]]. cbn [bind].
    destruct (high_freq_thre cfg <=? nc); [|eauto].
    destruct (Hfin nei nc nd (or_introl eq_refl)) as [r ->]. cbn [bind]. eauto.
  - destruct (d <=? ambiguous_error_node_degree cfg); [|eauto].
    destruct (collect_high_total cfg g neis Hlook 0 []) as [[hn n2c] Ech].
    rewrite Ech. cbn [bind].
    apply collect_high_spec in Ech. destruct Ech as [-> ->]. simpl app.
    assert (Hin : forall p, In p (high_pairs cfg g neis) -> In (fst p) neis).
    { intros p Hp. apply (high_pairs_high cfg g neis p Hp). }
    destruct (Z.eqb_spec (0 + Z.of_nat (List.length (high_pairs cfg g neis))) 1)
      as [Eh|Eh].
    + destruct (high_pairs cfg g neis) as [|[fn fc] [|q hp]] eqn:Ehp;
        simpl in Eh; try lia.
      simpl. specialize (Hin (fn, fc) (or_introl eq_refl)). simpl in Hin.
      destruct (Hlook fn Hin) as [_ [fd ->]]. cbn [bind].
      destruct (high_freq_thre cfg <=? fc); [|eauto].
      destruct (Hfin fn fc fd Hin) as [r ->]. cbn [bind]. eauto.
    + destruct (ambiguous_candidates_total g (last_opt neis) node c d
                  (high_pairs cfg g neis)) with (acc := @nil row) as [tmp ->].
      * intros p pd Hp. apply Hfin, Hin, Hp.
      * intros Hne. destruct neis as [|v neis]; [contradiction|].
        destruct (last_opt_in (v :: neis)) as (n0 & Hn0 & Hin0); [discriminate|].
        destruct (Hlook n0 Hin0) as [_ [d0 Hd0]]. eauto.
      * cbn [bind]. destruct tmp; eauto.
Qed.

Lemma node_emission_total (g : Nx.graph) (n : string) :
  Nx.wf_graph g = true -> (edit_dis = 1 -> ed1_graph g = true) ->
  In n (Nx.nodes g) ->
  exists e, node_emission cfg edit_dis g n = Ok e.
Proof.
  intros Hwf Hed Hn. apply lookup_in_nodes in Hn.
  destruct (wf_graph_lookups g n Hwf Hn)
    as (c & f & d & neis & Hc & Hf & Hd & Hneis & Hdeg & Hadj & nd & Hin & Hnd).
  unfold node_emission. rewrite Hc, Hd. cbn [bind].
  unfold eligible. rewrite Hf.
  destruct (c <=? max_error_freq cfg); cbn [bind]; [|eauto].
  destruct f; cbn [negb]; [eauto|].
  rewrite Hneis. cbn [bind].
  apply classify_node_total; [assumption| |].
  - intros v Hv.
    destruct (wf_graph_lookups g v Hwf (Hadj v Hv))
      as (c' & _ & d' & _ & Hc' & _ & Hd' & _).
    eauto.
  - intros v pc pd Hv. apply finish_line_total. intros E.
    apply (ed1_graph_edge g n v nd (Hed E) Hin). rewrite Hnd. assumption.
Qed.

Lemma classify_subgraph_total (g : Nx.graph) :
  Nx.wf_graph g = true -> (edit_dis = 1 -> ed1_graph g = true) ->
  exists st, classify_subgraph cfg edit_dis g = Ok st.
Proof.
  intros Hwf Hed. unfold classify_subgraph.
  destruct (0 <? Z.of_nat (List.length (Nx.edges g))); [|eauto].
  apply for_each_visit_total; [apply wf_graph_NoDup, Hwf|].
  intros n Hn. apply node_emission_total; assumption.
Qed.

End PassTotality.

Section PassTheorems.

Variable cfg : config.
Variable edit_dis : Z.

Lemma Forall2_in_l {A B : Type} (P : A -> B -> Prop) (l : list A) (l' : list B) :
  Forall2 P l l' -> forall a, In a l -> exists b, In b l' /\ P a b.
Proof.
  intros HF. induction HF as [|a b l l' Hab HF IH]; intros a' Ha; [contradiction|].
  destruct Ha as [<-|Ha].
  - exists b. split; [left; reflexivity|assumption].
  - destruct (IH a' Ha) as (b' & Hb' & Hp). exists b'. split; [right|]; assumption.
Qed.

Lemma Forall2_map_l {A B C : Type} (f : A -> C) (P : C -> B -> Prop)
    (l : list A) (l' : list B) :
  Forall2 (fun a b => P (f a) b) l l' -> Forall2 P (map f l) l'.
Proof. intros HF. induction HF; simpl; constructor; assumption. Qed.

Lemma existsb_filter {A : Type} (f : A -> bool) (l : list A) :
  existsb f l = negb (match filter f l with [] => true | _ => false end).
Proof.
  induction l as [|x l IH]; [reflexivity|]. simpl.
  destruct (f x); [reflexivity|exact IH].
Qed.

(** The rows and groups of a completed pass that have a given child. *)
Lemma classify_subgraph_records (g g' : Nx.graph) (gen : list row)
    (ambi : list (list row)) :
  classify_subgraph cfg edit_dis g = Ok (g', gen, ambi) ->
  NoDup (Nx.nodes g) ->
  forall n, exists e,
    records_of edit_dis n gen = fst e /\ groups_of edit_dis n ambi = snd e /\
    (e = ([], []) \/ (In n (Nx.nodes g) /\ node_emission cfg edit_dis g n = Ok e)) /\
    ((0 < List.length (Nx.edges g))%nat -> In n (Nx.nodes g) ->
       node_emission cfg edit_dis g n = Ok e).
Proof.
  unfold classify_subgraph. intros H Hnd n.
  destruct (Z.ltb_spec 0 (Z.of_nat (List.length (Nx.edges g)))) as [He|He].
  - destruct (for_each_visit_emissions cfg edit_dis _ _ _ _ _ _ _ Hnd H)
      as (ems & HF & -> & -> & _).
    simpl app. destruct (in_dec string_dec n (Nx.nodes g)) as [Hin|Hout].
    + destruct (Forall2_in_l _ _ _ HF n Hin) as (e & _ & Hem).
      destruct (emissions_present cfg edit_dis g n _ ems e Hnd HF Hin Hem) as [Hr Hg].
      exists e. repeat split; auto.
    + destruct (emissions_absent cfg edit_dis g n _ ems HF Hout) as [Hr Hg].
      exists ([], []). repeat split; auto. intros; contradiction.
  - injection H as <- <- <-. exists ([], []). repeat split; auto. intros; lia.
Qed.

End PassTheorems.

(** C1 (counterexample).  With [ambiguous_error_node_degree] below 1 a node
    whose degree exceeds the limit can still get a row: in the star, the
    leaf CAAA has degree 1, above the limit 0, and a genuine row is emitted
    for it. *)
Lemma classification_degree_limit_counterexample :
  let cfg := mk_config 5 3 0 in
  Nx.node_count star_example "CAAA" = Ok 1 /\
  Nx.node_flag star_example "CAAA" = Ok false /\
  Nx.degree star_example "CAAA" = Ok 1 /\
  ambiguous_error_node_degree cfg < 1 /\
  exists gen_lst ambi_lst sub_graphs',
    extract_genuine_ambi_errs_subgraph cfg ([star_example], 2) 0
      = Ok ((gen_lst, ambi_lst), sub_graphs') /\
    records_of 2 "CAAA" gen_lst
      = [[PStr "AAAA"; PInt 50; PInt 3; PStr "CAAA"; PInt 1; PInt 1]].
Proof.
  repeat split; try reflexivity.
  do 3 eexists. split; vm_compute; reflexivity.
Qed.

(** C1 (amended).  On a subgraph with at least one edge the pass returns
    (in edit-distance-1 mode provided every edge joins non-empty reads at
    distance 1), and for every node with count at most [max_error_freq]
    whose flag is not set:
    - degree 1: no group; one genuine row with the sole neighbour as parent
      when that neighbour's count reaches [high_freq_thre], no row otherwise;
    - degree above 1 and at most [ambiguous_error_node_degree]: one genuine
      row when exactly one neighbour is high-frequency; one group with one
      candidate row per high-frequency neighbour, in order, all with the
      node as child, when more than one is; nothing when none is;
    - degree other than 1 and above [ambiguous_error_node_degree]: nothing. *)
Theorem extract_genuine_ambi_errs_subgraph_classification
    (cfg : config) (sub_graphs : list Nx.graph) (edit_dis ii : Z) (g : Nx.graph) :
  list_getitem sub_graphs ii = Ok g ->
  Nx.wf_graph g = true ->
  (0 < List.length (Nx.edges g))%nat ->
  ((edit_dis = 1 -> ed1_graph g = true) ->
   exists out, extract_genuine_ambi_errs_subgraph cfg (sub_graphs, edit_dis) ii
               = Ok out) /\
  forall gen_lst ambi_lst sub_graphs',
    extract_genuine_ambi_errs_subgraph cfg (sub_graphs, edit_dis) ii
      = Ok ((gen_lst, ambi_lst), sub_graphs') ->
    forall node c d neis,
      Nx.node_count g node = Ok c -> c <= max_error_freq cfg ->
      Nx.node_flag g node = Ok false ->
      Nx.degree g node = Ok d -> Nx.neighbors g node = Ok neis ->
      let high := high_neighbors cfg g neis in
      let genuine := records_of edit_dis node gen_lst in
      let ambiguous := groups_of edit_dis node ambi_lst in
      let candidate nei r :=
        parent_of r = Some (PStr nei) /\ child_of edit_dis r = Some (PStr node) in
      (d = 1 ->
         ambiguous = [] /\
         exists nei nc, neis = [nei] /\ Nx.node_count g nei = Ok nc /\
           (high_freq_thre cfg <= nc -> exists r, genuine = [r] /\ candidate nei r) /\
           (nc < high_freq_thre cfg -> genuine = [])) /\
      (1 < d -> d <= ambiguous_error_node_degree cfg ->
         (forall nei, high = [nei] ->
            ambiguous = [] /\ exists r, genuine = [r] /\ candidate nei r) /\
         ((1 < List.length high)%nat ->
            genuine = [] /\
            exists grp, ambiguous = [grp] /\ Forall2 candidate high grp) /\
         (high = [] -> genuine = [] /\ ambiguous = [])) /\
      (d <> 1 -> ambiguous_error_node_degree cfg < d ->
         genuine = [] /\ ambiguous = []).
Proof.
  intros Hget Hwf Hedges. unfold extract_genuine_ambi_errs_subgraph.
  rewrite Hget. cbn [bind]. split.
  - intros Hed.
    destruct (classify_subgraph_total cfg edit_dis g Hwf Hed) as [[[g1 gen] ambi] ->].
    cbn [bind]. eauto.
  - intros gen_lst ambi_lst sub_graphs' H node c d neis Hc Hmax Hflag Hd Hneis.
    destruct (classify_subgraph cfg edit_dis g) as [[[g1 gen] ambi]|] eqn:Ec;
      [|discriminate].
    cbn [bind] in H. injection H as <- <- _.
    destruct (classify_subgraph_records cfg edit_dis _ _ _ _ Ec
                (wf_graph_NoDup g Hwf) node) as ([dg da] & Hr & Hg & _ & Hem).
    simpl in Hr, Hg. cbv zeta. rewrite Hr, Hg.
    specialize (Hem Hedges
      (proj2 (lookup_in_nodes g node) (node_count_lookup g node c Hc))).
    unfold node_emission, eligible in Hem.
    rewrite Hc, Hd in Hem. cbn [bind] in Hem.
    destruct (Z.leb_spec c (max_error_freq cfg)); [|lia].
    rewrite Hflag, Hneis in Hem. cbn [bind negb] in Hem.
    apply classify_node_cases in Hem. destruct Hem as (H1 & H2 & H3).
    rewrite <- high_pairs_fst. split; [|split].
    + intros E1. destruct (H1 E1) as (-> & nei & nc & Hnei & Hnc & Hcase).
      split; [reflexivity|]. exists nei, nc.
      assert (Hsingle : neis = [nei]).
      { unfold Nx.degree, Nx.neighbors in Hd, Hneis.
        destruct (Nx.lookup g node) as [nd|]; [|discriminate].
        injection Hneis as Ea. rewrite Ea in Hd. injection Hd as Hd.
        destruct neis as [|v [|w neis]]; simpl in Hnei; try discriminate.
        - injection Hnei as ->. reflexivity.
        - simpl List.length in Hd. destruct (Nx.mem node (v :: w :: neis)); lia. }
      split; [assumption|]. split; [assumption|].
      destruct Hcase as [(Hh & r & -> & Hcand)|(Hl & ->)].
      * split; [|lia]. intros _. exists r. split; [reflexivity|exact Hcand].
      * split; [lia|reflexivity].
    + intros Hgt Hle. destruct (H2 ltac:(lia) Hle) as (Hone & Hnone & Hmany).
      split; [|split].
      * intros nei Eh.
        destruct (high_pairs cfg g neis) as [|p [|q hp]]; try discriminate.
        injection Eh as <-. destruct (Hone p eq_refl) as (-> & r & -> & Hcand).
        split; [reflexivity|]. exists r. split; [reflexivity|exact Hcand].
      * rewrite length_map. intros Hlen.
        destruct (Hmany Hlen) as (-> & grp & -> & HF).
        split; [reflexivity|]. exists grp. split; [reflexivity|].
        apply Forall2_map_l. exact HF.
      * intros Eh. apply map_eq_nil in Eh. apply Hnone, Eh.
    + intros Hne Hgt. apply (H3 Hne Hgt).
Qed.

Lemma extract_genuine_ambi_errs_subgraph_classification_witness :
  list_getitem [star_example] 0 = Ok star_example /\
  Nx.wf_graph star_example = true /\
  (0 < List.length (Nx.edges star_example))%nat /\
  (exists out,
     extract_genuine_ambi_errs_subgraph example_config ([star_example], 1) 0
       = Ok out) /\
  (exists r,
     records_of 2 "CAAA" star_example_rows = [r] /\
     parent_of r = Some (PStr "AAAA") /\ child_of 2 r = Some (PStr "CAAA")).
Proof.
  split; [reflexivity|]. split; [reflexivity|]. split; [simpl; lia|]. split.
  - apply (proj1 (extract_genuine_ambi_errs_subgraph_classification
                    example_config [star_example] 1 0 star_example
                    ltac:(reflexivity) ltac:(reflexivity) ltac:(simpl; lia))).
    intros _. vm_compute. reflexivity.
  - destruct (proj2 (extract_genuine_ambi_errs_subgraph_classification
                       example_config [star_example] 2 0 star_example
                       ltac:(reflexivity) ltac:(reflexivity) ltac:(simpl; lia))
                star_example_rows [] [star_example_visited]
                ltac:(vm_compute; reflexivity)
                "CAAA" 1 1 ["AAAA"]
                ltac:(reflexivity) ltac:(simpl; lia) ltac:(reflexivity)
                ltac:(reflexivity) ltac:(reflexivity)) as [H1 _].
    destruct (H1 eq_refl) as (_ & nei & nc & Hn & Hc & Hhigh & _).
    injection Hn as <-. vm_compute in Hc. injection Hc as <-.
    apply Hhigh. simpl. lia.
Defined.

(** C8.  A pass over a subgraph returns (in edit-distance-1 mode provided
    every edge joins non-empty reads at distance 1), and its result splits
    the nodes into four classes: children of genuine rows, children of
    ambiguous groups, nodes with count above [max_error_freq], and the other
    nodes.  Every node is in exactly one class, every member of a class is
    a node, and no node is the child of more than one row or group. *)
Theorem extract_genuine_ambi_errs_subgraph_partition
    (cfg : config) (sub_graphs : list Nx.graph) (edit_dis ii : Z) (g : Nx.graph) :
  list_getitem sub_graphs ii = Ok g ->
  Nx.wf_graph g = true ->
  ((edit_dis = 1 -> ed1_graph g = true) ->
   exists out, extract_genuine_ambi_errs_subgraph cfg (sub_graphs, edit_dis) ii
               = Ok out) /\
  forall gen_lst ambi_lst sub_graphs',
    extract_genuine_ambi_errs_subgraph cfg (sub_graphs, edit_dis) ii
      = Ok ((gen_lst, ambi_lst), sub_graphs') ->
    (forall n, In n (Nx.nodes g) ->
       exactly_one (in_genuine edit_dis gen_lst n)
                   (in_ambiguous edit_dis ambi_lst n)
                   (filtered_by_count cfg g n)
                   (unclassified cfg edit_dis g gen_lst ambi_lst n) = true) /\
    (forall n,
       in_genuine edit_dis gen_lst n = true \/
       in_ambiguous edit_dis ambi_lst n = true \/
       filtered_by_count cfg g n = true \/
       unclassified cfg edit_dis g gen_lst ambi_lst n = true ->
       In n (Nx.nodes g)) /\
    (forall n,
       (List.length (records_of edit_dis n gen_lst)
        + List.length (groups_of edit_dis n ambi_lst) <= 1)%nat).
Proof.
  intros Hget Hwf. unfold extract_genuine_ambi_errs_subgraph.
  rewrite Hget. cbn [bind]. split.
  - intros Hed.
    destruct (classify_subgraph_total cfg edit_dis g Hwf Hed) as [[[g1 gen] ambi] ->].
    cbn [bind]. eauto.
  - intros gen_lst ambi_lst sub_graphs' H.
    destruct (classify_subgraph cfg edit_dis g) as [[[g1 gen] ambi]|] eqn:Ec;
      [|discriminate].
    cbn [bind] in H. injection H as <- <- _.
    pose proof (classify_subgraph_records cfg edit_dis _ _ _ _ Ec
                  (wf_graph_NoDup g Hwf)) as Hrec.
    assert (Hnode : forall n,
      exists dg da,
        records_of edit_dis n gen = dg /\ groups_of edit_dis n ambi = da /\
        (dg = [] \/ da = []) /\
        (List.length dg <= 1)%nat /\ (List.length da <= 1)%nat /\
        (dg <> [] \/ da <> [] ->
           In n (Nx.nodes g) /\
           exists c, Nx.node_count g n = Ok c /\ c <= max_error_freq cfg)).
    { intros n. destruct (Hrec n) as ([dg da] & Hr & Hg & Hor & _).
      exists dg, da. split; [exact Hr|]. split; [exact Hg|].
      destruct Hor as [[= -> ->]|[Hin Hem]].
      - split; [left; reflexivity|]. split; [simpl; lia|]. split; [simpl; lia|].
        intros [E|E]; contradiction.
      - destruct (emission_children cfg edit_dis _ _ _ _ Hem)
          as (_ & _ & Hor & Hl1 & Hl2 & Hel).
        split; [exact Hor|]. split; [exact Hl1|]. split; [exact Hl2|].
        intros Hne. split; [exact Hin|].
        destruct (Hel Hne) as (c & Hc & Hle & _). eauto. }
    split; [|split].
    + intros n Hin. apply lookup_in_nodes in Hin.
      destruct (wf_graph_lookups g n Hwf Hin) as (c & _ & _ & _ & Hc & _).
      destruct (Hnode n) as (dg & da & Hr & Hg & Hor & _ & _ & Hel).
      unfold unclassified, filtered_by_count, in_genuine, in_ambiguous.
      unfold records_of, groups_of in Hr, Hg.
      rewrite Hc, !existsb_filter, Hr, Hg.
      destruct dg as [|r dg], da as [|grp da]; simpl;
        try (destruct Hor; discriminate).
      * destruct (Z.leb_spec c (max_error_freq cfg)), (Z.ltb_spec (max_error_freq cfg) c);
          try lia; reflexivity.
      * destruct Hel as (_ & c' & Hc' & Hle); [right; discriminate|].
        assert (c' = c) by congruence. subst c'.
        destruct (Z.leb_spec c (max_error_freq cfg)), (Z.ltb_spec (max_error_freq cfg) c);
          try lia; reflexivity.
      * destruct Hel as (_ & c' & Hc' & Hle); [left; discriminate|].
        assert (c' = c) by congruence. subst c'.
        destruct (Z.leb_spec c (max_error_freq cfg)), (Z.ltb_spec (max_error_freq cfg) c);
          try lia; reflexivity.
    + intros n Hn. destruct (Hnode n) as (dg & da & Hr & Hg & _ & _ & _ & Hel).
      unfold unclassified, filtered_by_count, in_genuine, in_ambiguous in Hn.
      unfold records_of, groups_of in Hr, Hg.
      rewrite !existsb_filter, Hr, Hg in Hn.
      destruct (Nx.node_count g n) as [c|] eqn:Hc.
      { apply lookup_in_nodes. apply (node_count_lookup g n c Hc). }
      destruct Hn as [Hn|[Hn|[Hn|Hn]]]; try discriminate.
      * apply Hel. left. destruct dg; [discriminate|discriminate].
      * apply Hel. right. destruct da; [discriminate|discriminate].
    + intros n. destruct (Hnode n) as (dg & da & -> & -> & Hor & Hl1 & Hl2 & _).
      destruct Hor as [-> | ->]; simpl; lia.
Qed.

Lemma extract_genuine_ambi_errs_subgraph_partition_witness :
  list_getitem [star_example] 0 = Ok star_example /\
  Nx.wf_graph star_example = true /\
  (exists out,
     extract_genuine_ambi_errs_subgraph example_config ([star_example], 1) 0
       = Ok out) /\
  (forall n, In n (Nx.nodes star_example) ->
     exactly_one (in_genuine 2 star_example_rows n)
                 (in_ambiguous 2 [] n)
                 (filtered_by_count example_config star_example n)
                 (unclassified example_config 2 star_example
                    star_example_rows [] n) = true).
Proof.
  split; [reflexivity|]. split; [reflexivity|]. split.
  - apply (proj1 (extract_genuine_ambi_errs_subgraph_partition
                    example_config [star_example] 1 0 star_example
                    ltac:(reflexivity) ltac:(reflexivity))).
    intros _. vm_compute. reflexivity.
  - apply (proj2 (extract_genuine_ambi_errs_subgraph_partition
                    example_config [star_example] 2 0 star_example
                    ltac:(reflexivity) ltac:(reflexivity))
             star_example_rows [] [star_example_visited]
             ltac:(vm_compute; reflexivity)).
Defined.

(** ** The UMI variant *)

Section UmiFacts.

Variable cfg : config.

Lemma insert_desc_head {A K : Type} (ltb : K -> K -> bool) (key : A -> K)
    (x : A) (l : list A) :
  hd_error (insert_desc ltb key x l) =
  match hd_error l with
  | None => Some x
  | Some y => if ltb (key x) (key y) then Some y else Some x
  end.
Proof.
  destruct l as [|y l]; [reflexivity|]. simpl.
  destruct (ltb (key x) (key y)); reflexivity.
Qed.

(** The head of the sorted list is the first element of greatest key. *)
Lemma sort_desc_head {A K : Type} (ltb : K -> K -> bool) (key : A -> K)
    (l : list A) :
  hd_error (sort_desc ltb key l) = first_max ltb key l.
Proof.
  induction l as [|x l IH]; [reflexivity|].
  unfold sort_desc in *. simpl. rewrite insert_desc_head, IH. reflexivity.
Qed.

Lemma first_max_map {A B K : Type} (ltb : K -> K -> bool) (key : B -> K)
    (f : A -> B) (l : list A) :
  first_max ltb key (map f l) = option_map f (first_max ltb (fun a => key (f a)) l).
Proof.
  induction l as [|x l IH]; [reflexivity|]. simpl. rewrite IH.
  destruct (first_max ltb (fun a => key (f a)) l); simpl; [|reflexivity].
  destruct (ltb (key (f x)) (key (f a))); reflexivity.
Qed.

Lemma first_max_in {A K : Type} (ltb : K -> K -> bool) (key : A -> K)
    (l : list A) (m : A) :
  first_max ltb key l = Some m -> In m l.
Proof.
  revert m; induction l as [|x l IH]; intros m; simpl; [discriminate|].
  destruct (first_max ltb key l) as [m'|].
  - destruct (ltb (key x) (key m')); intros [= <-]; [right; apply IH|left];
      reflexivity.
  - intros [= <-]. left. reflexivity.
Qed.

Lemma list_getitem_0 {A : Type} (l : list A) :
  list_getitem l 0 = match hd_error l with
                     | Some x => Ok x
                     | None => Raise IndexError
                     end.
Proof.
  destruct l as [|x l]; [reflexivity|]. unfold list_getitem.
  change (0 <? 0) with false. cbv iota.
  destruct (Z.leb_spec (Z.of_nat (List.length (x :: l))) 0) as [H|H];
    [simpl List.length in H; lia|].
  reflexivity.
Qed.

Lemma umi_scores_spec (g : Nx.graph) (neis : list string) :
  forall acc scores,
    umi_scores g neis acc = Ok scores ->
    scores = acc ++ map (fun nei => (nei, umi_score g nei,
                                     match Nx.node_count g nei with
                                     | Ok c => c
                                     | Raise _ => 0
                                     end)) neis.
Proof.
  induction neis as [|nei neis IH]; intros acc scores H; simpl in H.
  - injection H as <-. simpl. rewrite app_nil_r. reflexivity.
  - destruct (Nx.node_count g nei) as [c|] eqn:Ec; [|discriminate].
    cbn [bind] in H.
    destruct (Nx.degree g nei) as [d|] eqn:Ed; [|discriminate].
    cbn [bind] in H. apply IH in H. rewrite H, <- app_assoc. cbn [map app].
    unfold umi_score. rewrite Ed, Ec. reflexivity.
Qed.

Lemma umi_score_skeleton (g1 g2 : Nx.graph) (nei : string) :
  skeleton g1 = skeleton g2 -> umi_score g1 nei = umi_score g2 nei.
Proof.
  intros H. unfold umi_score.
  rewrite (degree_skeleton _ _ nei H), (node_count_skeleton _ _ nei H).
  reflexivity.
Qed.

Lemma first_max_ext {A K : Type} (ltb : K -> K -> bool) (k1 k2 : A -> K)
    (l : list A) :
  (forall a, k1 a = k2 a) -> first_max ltb k1 l = first_max ltb k2 l.
Proof.
  intros H. induction l as [|x l IH]; [reflexivity|]. simpl.
  rewrite IH. destruct (first_max ltb k2 l); [|reflexivity].
  rewrite !H. reflexivity.
Qed.

Lemma best_neighbor_skeleton (g1 g2 : Nx.graph) (n : string) :
  skeleton g1 = skeleton g2 -> best_neighbor g1 n = best_neighbor g2 n.
Proof.
  intros H. unfold best_neighbor. rewrite (neighbors_skeleton _ _ n H).
  destruct (Nx.neighbors g2 n) as [neis|]; [|reflexivity].
  rewrite (first_max_ext Qltb (umi_score g1) (umi_score g2) neis
             (fun a => umi_score_skeleton g1 g2 a H)).
  destruct (first_max Qltb (umi_score g2) neis) as [nei|]; [|reflexivity].
  rewrite (node_count_skeleton _ _ nei H). reflexivity.
Qed.

Lemma umi_emits_skeleton (g1 g2 : Nx.graph) (n : string) (r : row) :
  skeleton g1 = skeleton g2 -> umi_emits cfg g1 n r -> umi_emits cfg g2 n r.
Proof.
  intros H (c & d & first & fc & fd & Hc & Hd & Hr & Hm & Hb & Hh & Hfd & He).
  exists c, d, first, fc, fd.
  rewrite <- (node_count_skeleton _ _ n H), <- (degree_skeleton _ _ n H),
    <- (best_neighbor_skeleton _ _ n H), <- (degree_skeleton _ _ first H).
  repeat split; try assumption; lia.
Qed.

Lemma umi_head (g : Nx.graph) (neis : list string) :
  hd_error (sort_desc Qltb (fun x : string * Q * Z => snd (fst x))
              (map (fun nei => (nei, umi_score g nei,
                                match Nx.node_count g nei with
                                | Ok c => c
                                | Raise _ => 0
                                end)) neis)) =
  option_map (fun nei => (nei, umi_score g nei,
                          match Nx.node_count g nei with
                          | Ok c => c
                          | Raise _ => 0
                          end))
             (first_max Qltb (umi_score g) neis).
Proof.
  rewrite sort_desc_head, first_max_map. f_equal.
Qed.

(** The loop body either does nothing, or adds the row of the node and
    sets its flag. *)
Lemma umi_visit_node_inv (g g' : Nx.graph) (df df' : list row) (n : string) :
  umi_visit_node cfg (g, df) n = Ok (g', df') ->
  (g' = g /\ df' = df) \/
  (exists r, df' = df ++ [r] /\ umi_emits cfg g n r /\
     Nx.node_flag g n = Ok false /\ Nx.set_flag g n true = Ok g').
Proof.
  unfold umi_visit_node.
  destruct (Nx.node_count g n) as [c|] eqn:Ec; [|discriminate]. cbn [bind].
  destruct (Nx.degree g n) as [d|] eqn:Ed; [|discriminate]. cbn [bind].
  destruct (Z.leb_spec 1 d); cbn [andb]; [|intros [= <- <-]; left; auto].
  destruct (Z.leb_spec d 4); cbn [andb]; [|intros [= <- <-]; left; auto].
  destruct (Z.leb_spec c (max_error_freq cfg)); [|intros [= <- <-]; left; auto].
  destruct (Nx.node_flag g n) as [[|]|] eqn:Ef; [| |discriminate];
    cbn [bind negb]; [intros [= <- <-]; left; auto|].
  destruct (Nx.neighbors g n) as [neis|] eqn:En; [|discriminate]. cbn [bind].
  destruct (umi_scores g neis []) as [scores|] eqn:Es; [|discriminate].
  cbn [bind]. pose proof (umi_scores_spec g neis _ _ Es) as Esp.
  simpl in Esp. subst scores.
  rewrite list_getitem_0, umi_head.
  destruct (first_max Qltb (umi_score g) neis) as [first|] eqn:Em; simpl;
    [|discriminate].
  destruct (Nx.degree g first) as [fd|] eqn:Efd; [|discriminate]. cbn [bind].
  destruct (Nx.node_count g first) as [fc|] eqn:Efc.
  2:{ unfold umi_score in Em. (* the scores were computed, so the count exists *)
      exfalso. apply first_max_in in Em.
      clear -Em Efc Es. revert Es.
      generalize (map (fun nei => (nei, umi_score g nei,
                                   match Nx.node_count g nei with
                                   | Ok c => c
                                   | Raise _ => 0
                                   end)) neis).
      generalize (@nil (string * Q * Z)).
      induction neis as [|v neis IH]; intros acc res Hs; [contradiction|].
      simpl in Hs. destruct Em as [->|Hin].
      - rewrite Efc in Hs. discriminate.
      - destruct (Nx.node_count g v); [|discriminate]. cbn [bind] in Hs.
        destruct (Nx.degree g v); [|discriminate]. cbn [bind] in Hs.
        apply (IH Hin _ _ Hs). }
  destruct (Z.leb_spec (high_freq_thre cfg) fc); [|intros [= <- <-]; left; auto].
  destruct (err_type_classification _) as [r|] eqn:Er; [|discriminate].
  cbn [bind].
  destruct (Nx.set_flag g n true) as [g1|] eqn:Esf; [|discriminate]. cbn [bind].
  intros [= <- <-]. right. exists r.
  split; [reflexivity|]. split; [|split; reflexivity].
  exists c, d, first, fc, fd. unfold best_neighbor.
  rewrite En, Em, Efc. repeat split; try assumption; try reflexivity; lia.
Qed.

End UmiFacts.

Section UmiPass.

Variable cfg : config.

Lemma umi_related_weaken (new1 new2 new3 : list row) (g g' : Nx.graph) :
  umi_related cfg new2 g g' -> umi_related cfg (new1 ++ new2 ++ new3) g g'.
Proof.
  intros [Hsk Hfl]. split; [exact Hsk|]. intros m.
  destruct (Hfl m) as [H|(H1 & H2 & r & Hr & He)]; [left; exact H|right].
  split; [exact H1|]. split; [exact H2|]. exists r. split; [|exact He].
  rewrite !in_app_iff. auto.
Qed.

Lemma umi_for_each (l : list string) :
  forall g df g' df',
    for_each (umi_visit_node cfg) (g, df) l = Ok (g', df') ->
    exists new, df' = df ++ new /\
      (forall r, In r new -> exists n, umi_emits cfg g n r) /\
      umi_related cfg new g g'.
Proof.
  induction l as [|n l IH]; intros g df g' df' H; cbn [for_each] in H.
  - injection H as <- <-. exists []. rewrite app_nil_r.
    split; [reflexivity|]. split; [intros r []|].
    split; [reflexivity|]. intros m. left. reflexivity.
  - destruct (umi_visit_node cfg (g, df) n) as [[g1 df1]|] eqn:Ev; [|discriminate].
    cbn [bind] in H. destruct (IH _ _ _ _ H) as (new & -> & Hrows & Hsk & Hfl).
    destruct (umi_visit_node_inv cfg _ _ _ _ _ Ev)
      as [[-> ->]|(r & -> & Hem & Hf & Hset)].
    + exists new. split; [reflexivity|]. split; [exact Hrows|].
      split; assumption.
    + pose proof (set_flag_skeleton _ _ _ _ Hset) as Hsk1.
      exists (r :: new). rewrite <- app_assoc. split; [reflexivity|].
      split; [|split].
      * intros r' [<-|Hr']; [exists n; exact Hem|].
        destruct (Hrows r' Hr') as [n' Hn']. exists n'.
        apply (umi_emits_skeleton cfg g1 g n' r' Hsk1 Hn').
      * rewrite Hsk. exact Hsk1.
      * intros m. destruct (string_dec m n) as [->|Hne].
        -- right. split; [exact Hf|]. split.
           ++ destruct (Hfl n) as [E|(E & _)].
              ** rewrite E. apply (set_flag_flag _ _ _ _ Hset).
              ** rewrite (set_flag_flag _ _ _ _ Hset) in E. discriminate.
           ++ exists r. split; [left; reflexivity|exact Hem].
        -- rewrite <- (set_flag_flag_other _ _ _ _ _ Hset Hne).
           destruct (Hfl m) as [E|(E1 & E2 & r' & Hr' & He')]; [left; exact E|].
           right. split; [exact E1|]. split; [exact E2|].
           exists r'. split; [right; exact Hr'|].
           apply (umi_emits_skeleton cfg g1 g m r' Hsk1 He').
Qed.

Lemma umi_subgraph_spec (g g1 : Nx.graph) (df df1 : list row) :
  umi_subgraph cfg (g, df) = Ok (g1, df1) ->
  exists new, df1 = df ++ new /\
    (forall r, In r new -> exists n, umi_emits cfg g n r) /\
    umi_related cfg new g g1.
Proof.
  unfold umi_subgraph. intros Hs.
  destruct (0 <? Z.of_nat (List.length (Nx.edges g))).
  - apply umi_for_each in Hs. exact Hs.
  - injection Hs as <- <-. exists []. rewrite app_nil_r.
    split; [reflexivity|]. split; [intros r []|].
    split; [reflexivity|]. intros m. left. reflexivity.
Qed.

Lemma umi_loop_spec (subgraphs : list Nx.graph) :
  forall df subgraphs' df',
    umi_loop cfg subgraphs df = Ok (subgraphs', df') ->
    exists new, df' = df ++ new /\
      (forall r, In r new -> exists g n, In g subgraphs /\ umi_emits cfg g n r) /\
      Forall2 (umi_related cfg new) subgraphs subgraphs'.
Proof.
  induction subgraphs as [|g rest IH]; intros df subgraphs' df' H;
    cbn [umi_loop] in H.
  - injection H as <- <-. exists []. rewrite app_nil_r.
    split; [reflexivity|]. split; [intros r []|constructor].
  - destruct (umi_subgraph cfg (g, df)) as [[g1 df1]|] eqn:Es; [|discriminate].
    cbn [bind] in H.
    destruct (umi_loop cfg rest df1) as [[rest' df2]|] eqn:El; [|discriminate].
    cbn [bind] in H. injection H as <- <-.
    destruct (umi_subgraph_spec _ _ _ _ Es) as (new1 & -> & Hrows1 & Hrel1).
    destruct (IH _ _ _ El) as (new2 & -> & Hrows2 & Hrel2).
    exists (new1 ++ new2). rewrite app_assoc. split; [reflexivity|].
    split; [|constructor].
    + intros r Hr. apply in_app_iff in Hr. destruct Hr as [Hr|Hr].
      * destruct (Hrows1 r Hr) as [n Hn]. exists g, n.
        split; [left; reflexivity|exact Hn].
      * destruct (Hrows2 r Hr) as (g2 & n & Hg2 & Hn). exists g2, n.
        split; [right; exact Hg2|exact Hn].
    + pose proof (umi_related_weaken [] new1 new2 g g1 Hrel1) as Hw.
      exact Hw.
    + apply (Forall2_impl_in _ _ _ _
               (fun a b _ Hab => umi_related_weaken new1 new2 [] a b Hab)) in Hrel2.
      rewrite app_nil_r in Hrel2. exact Hrel2.
Qed.

End UmiPass.

Section UmiTotality.

Variable cfg : config.

Lemma wf_graph_umi_ready (g : Nx.graph) :
  Nx.wf_graph g = true -> ed1_graph g = true -> umi_ready g.
Proof.
  intros Hwf Hed n Hn.
  destruct (wf_graph_lookups g n Hwf Hn)
    as (c & f & d & neis & Hc & Hf & _ & Hneis & _ & Hadj & nd & Hin & Hnd).
  split; [eauto|]. split; [eauto|].
  intros neis' Hneis' v Hv. rewrite Hneis in Hneis'. injection Hneis' as <-.
  split; [apply Hadj, Hv|].
  apply (ed1_graph_edge g n v nd Hed Hin). rewrite Hnd. exact Hv.
Qed.

Lemma lookup_skeleton_none (g1 g2 : Nx.graph) (n : string) :
  skeleton g1 = skeleton g2 -> Nx.lookup g1 n <> None -> Nx.lookup g2 n <> None.
Proof.
  intros H Hn. apply (lookup_skeleton _ _ n) in H.
  destruct (Nx.lookup g1 n); [|contradiction].
  destruct (Nx.lookup g2 n); [discriminate|discriminate].
Qed.

Lemma set_flag_umi_ready (g g' : Nx.graph) (n : string) :
  Nx.set_flag g n true = Ok g' -> umi_ready g -> umi_ready g'.
Proof.
  intros Hset Hr m Hm. pose proof (set_flag_skeleton _ _ _ _ Hset) as Hsk.
  destruct (Hr m (lookup_skeleton_none _ _ m Hsk Hm)) as (Hc & Hf & Hadj).
  rewrite (node_count_skeleton _ _ m Hsk), (neighbors_skeleton _ _ m Hsk).
  split; [exact Hc|]. split.
  - destruct (string_dec m n) as [->|Hne].
    + rewrite (set_flag_flag _ _ _ _ Hset). eauto.
    + rewrite (set_flag_flag_other _ _ _ _ _ Hset Hne). exact Hf.
  - intros neis Hneis v Hv. destruct (Hadj neis Hneis v Hv) as (Hl & Hrest).
    split; [|exact Hrest].
    apply (lookup_skeleton_none g g' v); [symmetry; exact Hsk|exact Hl].
Qed.

Lemma lookup_degree (g : Nx.graph) (n : string) :
  Nx.lookup g n <> None ->
  exists d neis, Nx.degree g n = Ok d /\ Nx.neighbors g n = Ok neis /\
    d = Z.of_nat (List.length neis) + (if Nx.mem n neis then 1 else 0).
Proof.
  unfold Nx.degree, Nx.neighbors. destruct (Nx.lookup g n) as [nd|]; [|contradiction].
  intros _. eauto.
Qed.

Lemma umi_scores_total (g : Nx.graph) (neis : list string) :
  (forall v, In v neis ->
     (exists c, Nx.node_count g v = Ok c) /\ (exists d, Nx.degree g v = Ok d)) ->
  forall acc, exists scores, umi_scores g neis acc = Ok scores.
Proof.
  induction neis as [|v neis IH]; intros Hok acc; simpl; [eauto|].
  destruct (Hok v (or_introl eq_refl)) as [[c ->] [d ->]]. cbn [bind].
  apply IH. intros w Hw. apply Hok. right. exact Hw.
Qed.

Lemma first_max_some {A K : Type} (ltb : K -> K -> bool) (key : A -> K)
    (l : list A) :
  l <> [] -> exists m, first_max ltb key l = Some m.
Proof.
  destruct l as [|x l]; [contradiction|]. intros _. simpl.
  destruct (first_max ltb key l) as [m|]; [|eauto].
  destruct (ltb (key x) (key m)); eauto.
Qed.

Lemma umi_visit_node_total (g : Nx.graph) (df : list row) (n : string) :
  umi_ready g -> Nx.lookup g n <> None ->
  exists st, umi_visit_node cfg (g, df) n = Ok st.
Proof.
  intros Hr Hn. destruct (Hr n Hn) as ([c Hc] & [f Hf] & Hadj).
  destruct (lookup_degree g n Hn) as (d & neis & Hd & Hneis & Hdeg).
  unfold umi_visit_node. rewrite Hc, Hd. cbn [bind].
  destruct (Z.leb_spec 1 d); cbn [andb]; [|simpl; eauto].
  destruct (d <=? 4); cbn [andb]; [|simpl; eauto].
  destruct (c <=? max_error_freq cfg); [|simpl; eauto].
  rewrite Hf. cbn [bind]. destruct f; cbn [negb bind]; [eauto|].
  rewrite Hneis. cbn [bind].
  assert (Hlook : forall v, In v neis ->
            (exists c', Nx.node_count g v = Ok c') /\
            (exists d', Nx.degree g v = Ok d')).
  { intros v Hv. destruct (Hadj neis Hneis v Hv) as (Hl & _).
    destruct (Hr v Hl) as (Hcv & _). split; [exact Hcv|].
    destruct (lookup_degree g v Hl) as (d' & _ & Hd' & _). eauto. }
  destruct (umi_scores_total g neis Hlook []) as [scores Es]. rewrite Es.
  cbn [bind]. pose proof (umi_scores_spec g neis _ _ Es) as Esp.
  simpl in Esp. subst scores. rewrite list_getitem_0, umi_head.
  destruct (first_max_some Qltb (umi_score g) neis) as [first Em].
  { intros ->. simpl in Hdeg. lia. }
  rewrite Em. simpl. pose proof (first_max_in _ _ _ _ Em) as Hfirst.
  destruct (Hlook first Hfirst) as [[fc ->] [fd ->]]. cbn [bind].
  destruct (high_freq_thre cfg <=? fc); [|simpl; eauto].
  destruct (Hadj neis Hneis first Hfirst) as (_ & Hlf & Hln & Hdis).
  destruct (proj1 (err_type_classification_nonempty first n (PInt fc) (PInt fd)
                     (PInt c) (PInt d) Hlf Hln) Hdis) as (r & -> & _).
  cbn [bind]. destruct (set_flag_total g n true Hn) as [g1 ->]. cbn [bind]. eauto.
Qed.

Lemma umi_for_each_total (l : list string) :
  forall g df,
    umi_ready g -> (forall n, In n l -> Nx.lookup g n <> None) ->
    exists g' df', for_each (umi_visit_node cfg) (g, df) l = Ok (g', df') /\
      umi_ready g'.
Proof.
  induction l as [|n l IH]; intros g df Hr Hl; cbn [for_each]; [eauto|].
  destruct (umi_visit_node_total g df n Hr (Hl n (or_introl eq_refl)))
    as [[g1 df1] Ev].
  rewrite Ev. cbn [bind].
  assert (Hg1 : umi_ready g1 /\ skeleton g1 = skeleton g).
  { destruct (umi_visit_node_inv cfg _ _ _ _ _ Ev) as [[-> _]|(r & _ & _ & _ & Hset)].
    - split; [exact Hr|reflexivity].
    - split; [apply (set_flag_umi_ready _ _ _ Hset Hr)|].
      apply (set_flag_skeleton _ _ _ _ Hset). }
  destruct Hg1 as [Hr1 Hsk]. apply IH; [exact Hr1|].
  intros m Hm. apply (lookup_skeleton_none g g1 m); [symmetry; exact Hsk|].
  apply Hl. right. exact Hm.
Qed.

Lemma umi_loop_total (subgraphs : list Nx.graph) :
  Forall umi_ready subgraphs ->
  forall df, exists out, umi_loop cfg subgraphs df = Ok out.
Proof.
  intros HF. induction HF as [|g rest Hg HF IH]; intros df; cbn [umi_loop];
    [eauto|].
  assert (Hs : exists g1 df1, umi_subgraph cfg (g, df) = Ok (g1, df1)).
  { unfold umi_subgraph. destruct (0 <? Z.of_nat (List.length (Nx.edges g)));
      [|eauto].
    destruct (umi_for_each_total (Nx.nodes g) g df Hg) as (g1 & df1 & E & _);
      [|eauto].
    intros n Hn. apply lookup_in_nodes, Hn. }
  destruct Hs as (g1 & df1 & ->). cbn [bind].
  destruct (IH df1) as [[rest' df2] ->]. cbn [bind]. eauto.
Qed.

End UmiTotality.

(** C10.  A pass of [extract_umi_genuine_errs] returns when the subgraphs
    are well formed and every edge joins non-empty reads at distance 1.
    After a pass, in every subgraph a
    flag is either what it was or has gone from unset to set; it has been
    set only for a node of degree 1 to 4 and count at most [max_error_freq]
    whose best-scored neighbour has count at least [high_freq_thre], and the
    genuine row of that node and neighbour is in the result; a node whose
    best-scored neighbour is low-frequency is still unflagged. *)
Theorem extract_umi_genuine_errs_flags
    (cfg : config) (subgraphs : list Nx.graph) :
  (Forall (fun g => Nx.wf_graph g = true /\ ed1_graph g = true) subgraphs ->
   exists out, extract_umi_genuine_errs cfg subgraphs = Ok out) /\
  forall subgraphs' genuine_df,
  extract_umi_genuine_errs cfg subgraphs = Ok (subgraphs', genuine_df) ->
  Forall2 (fun g g' => forall node,
      (Nx.node_flag g' node = Nx.node_flag g node \/
       (Nx.node_flag g node = Ok false /\ Nx.node_flag g' node = Ok true)) /\
      (Nx.node_flag g node = Ok false -> Nx.node_flag g' node = Ok true ->
         exists r c d first fc,
           In r genuine_df /\
           parent_of r = Some (PStr first) /\ child_of 1 r = Some (PStr node) /\
           Nx.node_count g node = Ok c /\ c <= max_error_freq cfg /\
           Nx.degree g node = Ok d /\ 1 <= d <= 4 /\
           best_neighbor g node = Some (first, fc) /\ high_freq_thre cfg <= fc) /\
      (forall first fc,
         Nx.node_flag g node = Ok false ->
         best_neighbor g node = Some (first, fc) -> fc < high_freq_thre cfg ->
         Nx.node_flag g' node = Ok false))
    subgraphs subgraphs'.
Proof.
  unfold extract_umi_genuine_errs. split.
  { intros HF. apply umi_loop_total.
    apply (Forall_impl _ (fun g Hg =>
             wf_graph_umi_ready g (proj1 Hg) (proj2 Hg)) HF). }
  intros subgraphs' genuine_df H.
  destruct (umi_loop_spec cfg _ _ _ _ H) as (new & -> & _ & HF). simpl.
  apply Forall2_impl_in with (P := umi_related cfg new); [|exact HF].
  intros g g' _ [_ Hfl] node. split; [|split].
  - destruct (Hfl node) as [E|(E1 & E2 & _)]; [left; exact E|right; auto].
  - intros Hf Ht. destruct (Hfl node) as [E|(_ & _ & r & Hr & Hem)].
    { rewrite E, Hf in Ht. discriminate. }
    destruct Hem as (c & d & first & fc & fd & Hc & Hd & Hrange & Hmax & Hb & Hh & _ & He).
    apply err_type_classification_shape in He.
    destruct He as (t & k1 & k2 & p & ->).
    eexists; exists c, d, first, fc. split; [exact Hr|].
    repeat split; try assumption; lia.
  - intros first fc Hf Hb Hlow. destruct (Hfl node) as [E|(_ & _ & r & _ & Hem)].
    { rewrite E. exact Hf. }
    destruct Hem as (c & d & first' & fc' & fd & _ & _ & _ & _ & Hb' & Hh & _).
    rewrite Hb in Hb'. injection Hb' as <- <-. lia.
Qed.

Lemma extract_umi_genuine_errs_flags_witness :
  extract_umi_genuine_errs example_config [star_example]
    = Ok ([star_example_visited], star_example_umi_rows) /\
  Forall2 (fun g g' => forall node,
      (Nx.node_flag g' node = Nx.node_flag g node \/
       (Nx.node_flag g node = Ok false /\ Nx.node_flag g' node = Ok true)) /\
      (Nx.node_flag g node = Ok false -> Nx.node_flag g' node = Ok true ->
         exists r c d first fc,
           In r star_example_umi_rows /\
           parent_of r = Some (PStr first) /\ child_of 1 r = Some (PStr node) /\
           Nx.node_count g node = Ok c /\ c <= max_error_freq example_config /\
           Nx.degree g node = Ok d /\ 1 <= d <= 4 /\
           best_neighbor g node = Some (first, fc) /\
           high_freq_thre example_config <= fc) /\
      (forall first fc,
         Nx.node_flag g node = Ok false ->
         best_neighbor g node = Some (first, fc) ->
         fc < high_freq_thre example_config ->
         Nx.node_flag g' node = Ok false))
    [star_example] [star_example_visited].
Proof.
  split; [vm_compute; reflexivity|].
  apply (proj2 (extract_umi_genuine_errs_flags example_config [star_example])
           [star_example_visited] star_example_umi_rows).
  vm_compute. reflexivity.
Defined.

(** ** Graph construction *)

Section CounterFacts.

Lemma counter_get_add (c : list (string * Z)) (s r : string) :
  counter_get (counter_add c s) r =
  counter_get c r + (if String.eqb s r then 1 else 0).
Proof.
  induction c as [|[k n] c IH]; simpl.
  - destruct (String.eqb s r); reflexivity.
  - destruct (String.eqb_spec k s) as [->|Hks]; simpl.
    + destruct (String.eqb s r); lia.
    + destruct (String.eqb_spec k r) as [->|Hkr].
      * destruct (String.eqb_spec s r); [congruence|lia].
      * exact IH.
Qed.

Lemma counter_keys_add (c : list (string * Z)) (s r : string) :
  In r (map fst (counter_add c s)) <-> In r (map fst c) \/ r = s.
Proof.
  induction c as [|[k n] c IH]; simpl.
  - split; [intros [<-|[]]; auto|intros [[]| ->]; auto].
  - destruct (String.eqb_spec k s) as [->|Hks]; simpl.
    + split; [tauto|]. intros [[H|H]| ->]; auto.
    + rewrite IH. tauto.
Qed.

Lemma counter_keys_NoDup (c : list (string * Z)) (s : string) :
  NoDup (map fst c) -> NoDup (map fst (counter_add c s)).
Proof.
  induction c as [|[k n] c IH]; simpl; intros H.
  - constructor; [intros []|constructor].
  - inversion H as [|? ? Hk Hc]; subst.
    destruct (String.eqb_spec k s) as [->|Hks]; simpl.
    + constructor; assumption.
    + constructor; [|apply IH, Hc].
      rewrite counter_keys_add. intros [Hin|E]; [contradiction|congruence].
Qed.

Lemma counter_get_in (c : list (string * Z)) (r : string) (n : Z) :
  NoDup (map fst c) -> In (r, n) c -> counter_get c r = n.
Proof.
  induction c as [|[k m] c IH]; simpl; intros Hnd Hin; [contradiction|].
  inversion Hnd as [|? ? Hk Hc]; subst.
  destruct Hin as [[= -> ->]|Hin].
  - rewrite String.eqb_refl. reflexivity.
  - destruct (String.eqb_spec k r) as [->|_]; [|apply IH; assumption].
    exfalso. apply Hk. apply (in_map fst) in Hin. exact Hin.
Qed.

Lemma counter_in_get (c : list (string * Z)) (r : string) :
  In r (map fst c) -> In (r, counter_get c r) c.
Proof.
  induction c as [|[k m] c IH]; simpl; intros Hin; [contradiction|].
  destruct (String.eqb_spec k r) as [->|Hkr]; [left; reflexivity|].
  right. apply IH. destruct Hin as [E|Hin]; [contradiction|exact Hin].
Qed.

Lemma occurrences_cons (s r : string) (l : list string) :
  occurrences r (s :: l) = occurrences r l + (if String.eqb s r then 1 else 0).
Proof.
  unfold occurrences. simpl.
  destruct (string_dec s r) as [->|Hne].
  - rewrite String.eqb_refl. lia.
  - destruct (String.eqb_spec s r); [contradiction|lia].
Qed.

Lemma occurrences_pos (r : string) (l : list string) :
  In r l <-> 0 < occurrences r l.
Proof.
  unfold occurrences. rewrite (count_occ_In string_dec). lia.
Qed.

Lemma Counter_fold (l : list string) :
  forall c r,
    NoDup (map fst c) ->
    counter_get (fold_left counter_add l c) r = counter_get c r + occurrences r l /\
    NoDup (map fst (fold_left counter_add l c)) /\
    (In r (map fst (fold_left counter_add l c)) <-> In r (map fst c) \/ In r l).
Proof.
  induction l as [|s l IH]; intros c r Hnd; simpl.
  - unfold occurrences. simpl. repeat split; try tauto; try lia; assumption.
  - destruct (IH (counter_add c s) r (counter_keys_NoDup c s Hnd)) as (Hg & Hn & Hk).
    rewrite Hg, counter_get_add, occurrences_cons, Hk, counter_keys_add.
    split; [lia|]. split; [exact Hn|]. intuition congruence.
Qed.

(** The counter holds exactly the reads of the input, each with its number
    of occurrences. *)
Lemma Counter_spec (l : list string) (r : string) (n : Z) :
  In (r, n) (Counter l) <-> In r l /\ n = occurrences r l.
Proof.
  unfold Counter.
  destruct (Counter_fold l [] r ltac:(constructor)) as (Hg & Hn & Hk).
  simpl in Hg, Hk. split.
  - intros Hin. split.
    + apply (in_map fst) in Hin. apply Hk in Hin. tauto.
    + rewrite <- Hg. symmetry. apply counter_get_in; assumption.
  - intros [Hin ->]. rewrite <- Hg. apply counter_in_get. apply Hk. auto.
Qed.

Lemma set_of_in {A : Type} (eqb : A -> A -> bool) (l : list A) (x : A) :
  In x (set_of eqb l) -> In x l.
Proof.
  induction l as [|y l IH]; simpl; [tauto|].
  intros [->|H]; [left; reflexivity|].
  apply filter_In in H. right. apply IH. tauto.
Qed.

End CounterFacts.

Section BuilderFacts.

Variable cfg : config.

Lemma count_loop_spec (rc : list (string * Z)) :
  forall graph high low graph' high' low',
    count_loop cfg rc (graph, high, low) = (graph', high', low') ->
    high' = high ++ map fst (filter (fun p => high_freq_thre cfg <=? snd p) rc) /\
    low' = low ++ map fst (filter (fun p => negb (high_freq_thre cfg <=? snd p)) rc) /\
    ((forall u v, ~ adjacent graph u v) -> forall u v, ~ adjacent graph' u v).
Proof.
  induction rc as [|[read frequency] rc IH]; intros graph high low graph' high' low' H;
    simpl in H.
  - injection H as <- <- <-. rewrite !app_nil_r. auto.
  - set (graph1 := if negb (Nx.has_node graph read)
                   then Nx.add_node graph read frequency false else graph) in H.
    assert (Hg1 : (forall u v, ~ adjacent graph u v) ->
                  forall u v, ~ adjacent graph1 u v).
    { intros Hno u v. subst graph1.
      destruct (negb (Nx.has_node graph read)); [|apply Hno].
      intros (d & Hin & Hv). clear -Hno Hin Hv.
      induction graph as [|[k kd] graph IHg]; simpl in Hin.
      - destruct Hin as [[= <- <-]|[]]. contradiction.
      - destruct (String.eqb k read).
        + destruct Hin as [[= <- <-]|Hin].
          * apply (Hno k v). eexists. split; [left; reflexivity|exact Hv].
          * apply (Hno u v). exists d. split; [right; exact Hin|exact Hv].
        + destruct Hin as [[= <- <-]|Hin].
          * apply (Hno k v). eexists. split; [left; reflexivity|exact Hv].
          * apply IHg; [|exact Hin]. intros a b (d' & Hd' & Hb).
            apply (Hno a b). exists d'. split; [right; exact Hd'|exact Hb]. }
    simpl. destruct (high_freq_thre cfg <=? frequency); simpl;
      apply IH in H; destruct H as (-> & -> & Hadj);
      rewrite <- ?app_assoc; auto.
Qed.

Lemma ensure_node_adjacent (g : Nx.graph) (n u v : string) :
  adjacent (Nx.ensure_node g n) u v -> adjacent g u v.
Proof.
  induction g as [|[k d] g IH]; simpl.
  - intros (d & [[= <- <-]|[]] & Hv). contradiction.
  - destruct (String.eqb k n); [auto|].
    intros (d' & [[= <- <-]|Hin] & Hv).
    + eexists. split; [left; reflexivity|exact Hv].
    + destruct IH as (d'' & Hd'' & Hv''); [exists d'; auto|].
      exists d''. split; [right; exact Hd''|exact Hv''].
Qed.

Lemma add_adj_adjacent (g : Nx.graph) (a b u v : string) :
  adjacent (Nx.add_adj g a b) u v -> adjacent g u v \/ (u = a /\ v = b).
Proof.
  induction g as [|[k d] g IH]; simpl.
  - intros (d & [[= <- <-]|[]] & Hv). simpl in Hv.
    destruct Hv as [<-|[]]. right. auto.
  - destruct (String.eqb_spec k a) as [->|Hka].
    + intros (d' & [[= <- <-]|Hin] & Hv).
      * simpl in Hv. destruct (Nx.mem b (Nx.adj d)).
        -- left. eexists. split; [left; reflexivity|exact Hv].
        -- apply in_app_iff in Hv. destruct Hv as [Hv|[<-|[]]].
           ++ left. eexists. split; [left; reflexivity|exact Hv].
           ++ right. auto.
      * left. exists d'. split; [right; exact Hin|exact Hv].
    + intros (d' & [[= <- <-]|Hin] & Hv).
      * left. eexists. split; [left; reflexivity|exact Hv].
      * destruct IH as [(d'' & Hd'' & Hv'')|E]; [exists d'; auto| |right; exact E].
        left. exists d''. split; [right; exact Hd''|exact Hv''].
Qed.

Lemma add_edges_from_adjacent (es : list (string * string)) :
  forall g u v,
    adjacent (Nx.add_edges_from g es) u v ->
    adjacent g u v \/ In (u, v) es \/ In (v, u) es.
Proof.
  unfold Nx.add_edges_from.
  induction es as [|[a b] es IH]; intros g u v H; simpl in H; [auto|].
  apply IH in H. destruct H as [H|[H|H]]; [|simpl; auto|simpl; auto].
  apply add_adj_adjacent in H. destruct H as [H|[-> ->]]; [|simpl; auto].
  apply add_adj_adjacent in H. destruct H as [H|[-> ->]]; [|simpl; auto].
  left. apply ensure_node_adjacent in H. apply ensure_node_adjacent in H. exact H.
Qed.

Lemma edges_adjacent (g : Nx.graph) (u v : string) :
  In (u, v) (Nx.edges g) -> adjacent g u v.
Proof.
  unfold Nx.edges. generalize (@nil string).
  induction g as [|[k d] g IH]; intros seen H; simpl in H; [contradiction|].
  apply in_app_iff in H. destruct H as [H|H].
  - apply in_map_iff in H. destruct H as (nbr & [= <- <-] & Hn).
    apply filter_In in Hn. exists d. split; [left; reflexivity|tauto].
  - destruct (IH _ H) as (d' & Hd' & Hv). exists d'. split; [right|]; assumption.
Qed.

Lemma real_ed1_seqs_in (ed1 : string -> list string) (univ : list string)
    (high : list string) (u v : string) :
  In (u, v) (flat_map (real_ed1_seqs ed1 univ) high) ->
  In u high /\ In v univ /\ In v (ed1 u).
Proof.
  rewrite in_flat_map. intros (h & Hh & Hin). unfold real_ed1_seqs in Hin.
  apply in_map_iff in Hin. destruct Hin as (s & [= <- <-] & Hs).
  apply filter_In in Hs. destruct Hs as [Hs Hm]. apply mem_true_iff in Hm. auto.
Qed.

Lemma real_ed2_seqs_in (ed2 : string -> list string) (univ : list string)
    (high : list string) (u v : string) :
  In (u, v) (flat_map (real_ed2_seqs ed2 univ) high) ->
  In u high /\ In v univ /\ In v (ed2 u).
Proof.
  rewrite in_flat_map. intros (h & Hh & Hin). unfold real_ed2_seqs in Hin.
  apply in_map_iff in Hin. destruct Hin as (s & [= <- <-] & Hs).
  apply filter_In in Hs. destruct Hs as [Hs Hm]. apply mem_true_iff in Hm.
  apply set_of_in in Hs. auto.
Qed.

(** The two lists that [generate_graph] partitions the reads into. *)
Lemma count_loop_partition (total_seqs : list string) (graph : Nx.graph)
    (high low : list string) :
  count_loop cfg (Counter total_seqs) ([], [], []) = (graph, high, low) ->
  (forall r, In r high <->
             In r total_seqs /\ high_freq_thre cfg <= occurrences r total_seqs) /\
  (forall r, In r low <->
             In r total_seqs /\ occurrences r total_seqs < high_freq_thre cfg) /\
  (forall u v, ~ adjacent graph u v).
Proof.
  intros H. apply count_loop_spec in H. destruct H as (-> & -> & Hadj).
  simpl. split; [|split].
  - intros r. rewrite in_map_iff. split.
    + intros ([r' n] & <- & Hin). apply filter_In in Hin. destruct Hin as [Hin Hh].
      apply Counter_spec in Hin. destruct Hin as [Hin ->]. simpl in *.
      apply Z.leb_le in Hh. auto.
    + intros [Hin Hh]. exists (r, occurrences r total_seqs). split; [reflexivity|].
      apply filter_In. split; [apply Counter_spec; auto|]. simpl. apply Z.leb_le, Hh.
  - intros r. rewrite in_map_iff. split.
    + intros ([r' n] & <- & Hin). apply filter_In in Hin. destruct Hin as [Hin Hh].
      apply Counter_spec in Hin. destruct Hin as [Hin ->]. simpl in *.
      apply negb_true_iff, Z.leb_gt in Hh. auto.
    + intros [Hin Hh]. exists (r, occurrences r total_seqs). split; [reflexivity|].
      apply filter_In. split; [apply Counter_spec; auto|]. simpl.
      apply negb_true_iff, Z.leb_gt, Hh.
  - apply Hadj. intros u v (d & [] & _).
Qed.

End BuilderFacts.

(** C5.  [generate_graph] ends with a non-zero exit exactly when no read
    occurs [high_freq_thre] times or more, and when it exits no task has
    been handed to the worker pool; in either mode this exit is the only
    way in which the call does not return. *)
Theorem generate_graph_exit
    (cfg : config) (ed1 ed2 : string -> list string)
    (records : list (string * string)) (edit_dis : Z) :
  let total_seqs := map snd records in
  let run := generate_graph cfg ed1 ed2 records edit_dis in
  ((exists code, code <> 0 /\ snd run = Raise (SystemExit code)) <->
   (forall read, In read total_seqs ->
      occurrences read total_seqs < high_freq_thre cfg)) /\
  (forall code, snd run = Raise (SystemExit code) -> fst run = []) /\
  (edit_dis = 1 \/ edit_dis = 2 ->
   forall e, snd run = Raise e -> e = SystemExit 1).
Proof.
  cbv zeta. unfold generate_graph.
  destruct (count_loop cfg (Counter (map snd records)) ([], [], []))
    as [[graph high] low] eqn:Ecl.
  destruct (count_loop_partition cfg _ _ _ _ Ecl) as (Hhigh & _ & _).
  destruct (Z.eqb_spec (Z.of_nat (List.length high)) 0) as [E|E].
  - destruct high as [|h high]; [|simpl in E; lia].
    simpl. split; [|split; [reflexivity|]].
    + split.
      * intros _ read Hin.
        destruct (Z.lt_ge_cases (occurrences read (map snd records))
                    (high_freq_thre cfg)) as [Hlt|Hge]; [exact Hlt|].
        assert (Hc : In read []) by (apply Hhigh; split; [exact Hin|lia]).
        destruct Hc.
      * intros _. exists 1. split; [lia|reflexivity].
    + intros _ e [= <-]. reflexivity.
  - destruct high as [|h high]; [simpl in E; lia|].
    set (run := match (if edit_dis =? 1 then _ else _) with
                | Some _ => _
                | None => _
                end).
    assert (Hrun : forall e, snd run = Raise e ->
                     e = UnboundLocalError /\ edit_dis <> 1 /\ edit_dis <> 2).
    { intros e. subst run.
      destruct (Z.eqb_spec edit_dis 1); [simpl; discriminate|].
      destruct (Z.eqb_spec edit_dis 2); simpl; [discriminate|].
      intros [= <-]. auto. }
    split; [split|split].
    + intros (code & _ & Hc). destruct (Hrun _ Hc) as [[=] _].
    + intros Hall. specialize (Hall h).
      destruct (proj1 (Hhigh h) (or_introl eq_refl)) as [Hin Hge].
      specialize (Hall Hin). lia.
    + intros code Hc. destruct (Hrun _ Hc) as [[=] _].
    + intros Hmode e He. destruct (Hrun _ He) as (_ & H1 & H2). lia.
Qed.

Lemma generate_graph_exit_witness :
  (1 = 1 \/ 1 = 2) /\
  forall e,
    snd (generate_graph example_config enumerate_ed1_seqs enumerate_ed2_seqs
           [("r1", "AAAA"); ("r2", "AAAC"); ("r3", "AAAA")] 1) = Raise e ->
    e = SystemExit 1.
Proof.
  split; [left; reflexivity|].
  apply (proj2 (proj2 (generate_graph_exit example_config enumerate_ed1_seqs
                         enumerate_ed2_seqs
                         [("r1", "AAAA"); ("r2", "AAAC"); ("r3", "AAAA")] 1))).
  left. reflexivity.
Defined.

(** C6.  When some read is high-frequency, [generate_graph] returns in
    either mode, and every edge of the graph it returns joins a
    high-frequency read with a read of the input that is in the enumerated
    neighbourhood of that read; in edit-distance-2 mode that second read is
    moreover low-frequency. *)
Theorem generate_graph_edges
    (cfg : config) (ed1 ed2 : string -> list string)
    (records : list (string * string)) (edit_dis : Z) :
  let total_seqs := map snd records in
  (exists read, In read total_seqs /\
     high_freq_thre cfg <= occurrences read total_seqs) ->
  edit_dis = 1 \/ edit_dis = 2 ->
  exists out,
    snd (generate_graph cfg ed1 ed2 records edit_dis) = Ok out /\
    forall u v, In (u, v) (Nx.edges (out_graph out)) ->
      exists read nb,
        ((u = read /\ v = nb) \/ (u = nb /\ v = read)) /\
        In read total_seqs /\
        high_freq_thre cfg <= occurrences read total_seqs /\
        In nb total_seqs /\
        (edit_dis = 1 -> In nb (ed1 read)) /\
        (edit_dis = 2 ->
           In nb (ed2 read) /\ occurrences nb total_seqs < high_freq_thre cfg).
Proof.
  cbv zeta. intros (read0 & Hin0 & Hge0) Hmode. unfold generate_graph.
  destruct (count_loop cfg (Counter (map snd records)) ([], [], []))
    as [[graph high] low] eqn:Ecl.
  destruct (count_loop_partition cfg _ _ _ _ Ecl) as (Hhigh & Hlow & Hnone).
  assert (Hne : In read0 high) by (apply Hhigh; split; assumption).
  destruct (Z.eqb_spec (Z.of_nat (List.length high)) 0) as [E|_].
  { destruct high; [destruct Hne|simpl in E; lia]. }
  assert (Hadj : forall es u v,
    In (u, v) (Nx.edges (if 0 <? Z.of_nat (List.length es)
                         then Nx.add_edges_from graph es else graph)) ->
    In (u, v) es \/ In (v, u) es).
  { intros es u v H. apply edges_adjacent in H.
    destruct (0 <? Z.of_nat (List.length es)).
    - apply add_edges_from_adjacent in H. destruct H as [H|H]; [|exact H].
      destruct (Hnone u v H).
    - destruct (Hnone u v H). }
  destruct Hmode as [-> | ->]; simpl.
  - eexists. split; [reflexivity|]. simpl. intros u v Huv.
    destruct (Hadj _ u v Huv) as [H|H];
      apply real_ed1_seqs_in in H; destruct H as (Hh & Hu & He);
      apply Hhigh in Hh; destruct Hh as [Hh1 Hh2]; apply set_of_in in Hu.
    + exists u, v. repeat split; auto; intros; lia.
    + exists v, u. repeat split; auto; intros; lia.
  - eexists. split; [reflexivity|]. simpl. intros u v Huv.
    destruct (Hadj _ u v Huv) as [H|H];
      apply real_ed2_seqs_in in H; destruct H as (Hh & Hu & He);
      apply Hhigh in Hh; destruct Hh as [Hh1 Hh2];
      apply Hlow in Hu; destruct Hu as [Hu1 Hu2].
    + exists u, v. repeat split; auto; intros; lia.
    + exists v, u. repeat split; auto; intros; lia.
Qed.

Lemma generate_graph_edges_witness :
  (exists read, In read (map snd ambiguous_example_records) /\
     high_freq_thre example_config
       <= occurrences read (map snd ambiguous_example_records)) /\
  exists out,
    snd (generate_graph example_config enumerate_ed1_seqs enumerate_ed2_seqs
           ambiguous_example_records 1) = Ok out /\
    forall u v, In (u, v) (Nx.edges (out_graph out)) ->
      exists read nb,
        ((u = read /\ v = nb) \/ (u = nb /\ v = read)) /\
        In read (map snd ambiguous_example_records) /\
        high_freq_thre example_config
          <= occurrences read (map snd ambiguous_example_records) /\
        In nb (map snd ambiguous_example_records) /\
        (1 = 1 -> In nb (enumerate_ed1_seqs read)) /\
        (1 = 2 ->
           In nb (enumerate_ed2_seqs read) /\
           occurrences nb (map snd ambiguous_example_records)
             < high_freq_thre example_config).
Proof.
  assert (H : exists read, In read (map snd ambiguous_example_records) /\
     high_freq_thre example_config
       <= occurrences read (map snd ambiguous_example_records)).
  { exists "CAAA". split; [simpl; tauto|vm_compute; discriminate]. }
  split; [exact H|].
  apply (generate_graph_edges example_config enumerate_ed1_seqs enumerate_ed2_seqs
           ambiguous_example_records 1 H).
  left. reflexivity.
Defined.

(** ** Isolated negatives *)

Section Negatives.

Variable cfg : config.

Lemma negatives_loop_spec (g : Nx.graph) (isolates : list string) :
  (forall k, In k isolates ->
     (exists c, Nx.node_count g k = Ok c) /\ Nx.degree g k = Ok 0) ->
  forall acc,
    negatives_loop cfg g isolates acc = Ok (acc ++ negative_rows cfg g isolates).
Proof.
  unfold negative_rows.
  induction isolates as [|k isolates IH]; intros Hok acc; simpl.
  - rewrite app_nil_r. reflexivity.
  - destruct (Hok k (or_introl eq_refl)) as [[c Hc] Hd]. rewrite Hc. cbn [bind].
    assert (Hrest : forall k', In k' isolates ->
              (exists c', Nx.node_count g k' = Ok c') /\ Nx.degree g k' = Ok 0).
    { intros k' Hk'. apply Hok. right. exact Hk'. }
    destruct (high_freq_thre cfg <=? c).
    + rewrite Hd. cbn [bind]. rewrite (IH Hrest), <- app_assoc. reflexivity.
    + rewrite (IH Hrest). reflexivity.
Qed.

(** On a graph that is not connected the extractor does what the
    specification says: one row per isolated high-frequency read. *)
Lemma extract_isolated_negatives_not_connected (g : Nx.graph) (edit_dis : Z) :
  Nx.wf_graph g = true -> Nx.is_connected g = Ok false ->
  extract_isolated_negatives cfg g edit_dis
    = Ok (negative_rows cfg g (Nx.isolates g)).
Proof.
  intros Hwf Hc. unfold extract_isolated_negatives. rewrite Hc. cbn [bind negb].
  rewrite negatives_loop_spec; [reflexivity|].
  intros k Hk. unfold Nx.isolates in Hk. apply filter_In in Hk.
  destruct Hk as [Hin Hd]. apply lookup_in_nodes in Hin.
  destruct (wf_graph_lookups g k Hwf Hin) as (c & _ & _ & _ & Hcount & _).
  split; [eauto|].
  destruct (Nx.degree g k) as [[| |]|]; try discriminate. reflexivity.
Qed.

Lemma extract_isolated_negatives_scattered :
  extract_isolated_negatives cfg scattered_example 1
    = Ok (negative_rows cfg scattered_example ["GGGG"; "GGTT"]).
Proof.
  apply (extract_isolated_negatives_not_connected scattered_example 1);
    reflexivity.
Qed.

End Negatives.

(** ** More on the annotator *)

Section AnnotatorSymmetry.

Lemma levenshtein_sym (a b : string) : levenshtein a b = levenshtein b a.
Proof.
  revert b; induction a as [|x a IHa]; intros b.
  - rewrite levenshtein_nil_r. reflexivity.
  - induction b as [|y b IHb].
    + rewrite levenshtein_nil_r. reflexivity.
    + rewrite !levenshtein_cons.
      rewrite (IHa (String y b)), IHb, (IHa b).
      replace (Ascii.eqb y x) with (Ascii.eqb x y)
        by (destruct (Ascii.eqb_spec x y), (Ascii.eqb_spec y x); congruence).
      lia.
Qed.

(** No edit script is shorter than the difference of the lengths. *)
Lemma levenshtein_length (a b : string) :
  (String.length a <= String.length b + levenshtein a b)%nat /\
  (String.length b <= String.length a + levenshtein a b)%nat.
Proof.
  revert b; induction a as [|x a IHa]; intros b.
  - simpl. lia.
  - induction b as [|y b IHb].
    + simpl. lia.
    + rewrite levenshtein_cons.
      pose proof (IHa (String y b)) as H1. pose proof (IHa b) as H2.
      cbn [String.length] in *.
      destruct (Ascii.eqb x y); lia.
Qed.

Lemma str_getitem_error (s : string) (i : Z) (e : exn) :
  str_getitem s i = Raise e -> e = IndexError.
Proof.
  unfold str_getitem.
  destruct (_ || _); [congruence|].
  destruct (String.get _ _); congruence.
Qed.

Lemma str_getitem_char (s : string) (i : Z) (c : string) :
  str_getitem s i = Ok c -> exists x, c = String x EmptyString.
Proof.
  unfold str_getitem.
  destruct (_ || _); [discriminate|].
  destruct (String.get _ _); [|discriminate].
  intros [= <-]. eauto.
Qed.

(** Two accesses that can only fail the same way may be made in either
    order. *)
Lemma str_getitem_swap {A : Type} (s t : string) (i j : Z)
    (k : string -> string -> result A) :
  (c <- str_getitem s i ;; d <- str_getitem t j ;; k c d) =
  (d <- str_getitem t j ;; c <- str_getitem s i ;; k c d).
Proof.
  destruct (str_getitem s i) as [c|e] eqn:E1, (str_getitem t j) as [d|e'] eqn:E2;
    cbn [bind]; try reflexivity.
  apply str_getitem_error in E1, E2. congruence.
Qed.

Lemma string_eqb_sym (s t : string) : String.eqb s t = String.eqb t s.
Proof.
  destruct (String.eqb_spec s t), (String.eqb_spec t s); congruence.
Qed.

Lemma scan_mismatch_sym (read1 read2 : string) (indices : list Z) :
  forall position num,
    scan_mismatch read2 read1 indices position num =
    scan_mismatch read1 read2 indices position num.
Proof.
  induction indices as [|index rest IH]; intros position num; [reflexivity|].
  cbn [scan_mismatch]. rewrite str_getitem_swap.
  destruct (str_getitem read1 index) as [c|]; [|reflexivity]. cbn [bind].
  destruct (str_getitem read2 index) as [d|]; [|reflexivity]. cbn [bind].
  rewrite (string_eqb_sym d c), IH. reflexivity.
Qed.

Ltac step_getitem :=
  match goal with
  | |- context [bind (str_getitem ?s ?i) _] =>
      let E := fresh "E" in
      destruct (str_getitem s i) eqn:E; cbn [bind];
      try (apply str_getitem_error in E; subst)
  end.

Ltac finish_sym :=
  repeat step_getitem;
  repeat match goal with
         | |- context [if ?b then _ else _] => destruct b; cbn [bind]
         end;
  reflexivity.

(** Locating the error the other way round gives the same position, with
    the two letters and the two k-mers exchanged. *)
Lemma locate_error_sym (read1 read2 : string) :
  locate_error read2 read1 =
  ('(first, second, position, f_kmer, s_kmer) <- locate_error read1 read2 ;;
   Ok (second, first, position, s_kmer, f_kmer)).
Proof.
  unfold locate_error. cbv zeta.
  destruct (Z.eqb_spec (len read1) (len read2)) as [El|El].
  - rewrite <- El, Z.eqb_refl, scan_mismatch_sym.
    destruct (scan_mismatch read1 read2 (range (len read1)) (-1) 0)
      as [[position num]|]; [|reflexivity]. cbn [bind].
    rewrite str_getitem_swap. finish_sym.
  - destruct (Z.eqb_spec (len read2) (len read1)) as [|_]; [congruence|].
    destruct (Z.ltb_spec (len read1) (len read2)) as [Hlt|Hge].
    + destruct (Z.ltb_spec (len read2) (len read1)); [lia|].
      rewrite scan_mismatch_sym.
      destruct (scan_mismatch read1 read2 (range (len read1)) (-1) 0)
        as [[position num]|]; [|reflexivity]. cbn [bind].
      finish_sym.
    + destruct (Z.ltb_spec (len read2) (len read1)) as [Hlt|]; [|lia].
      rewrite scan_mismatch_sym.
      destruct (scan_mismatch read1 read2 (range (len read2)) (-1) 0)
        as [[position num]|]; [|reflexivity]. cbn [bind].
      finish_sym.
Qed.

(** Both letters of the error type are single characters. *)
Lemma locate_error_chars (read1 read2 first second f_kmer s_kmer : string)
    (position : Z) :
  locate_error read1 read2 = Ok (first, second, position, f_kmer, s_kmer) ->
  exists x y, first = String x EmptyString /\ second = String y EmptyString.
Proof.
  intros H. unfold locate_error in H. cbv zeta in H.
  repeat match type of H with
         | context [bind (scan_mismatch ?a ?b ?l ?p ?n) _] =>
             destruct (scan_mismatch a b l p n) as [[? ?]|]; cbn [bind] in H
         | context [bind (str_getitem ?s ?i) _] =>
             let E := fresh "E" in
             destruct (str_getitem s i) eqn:E; cbn [bind] in H;
             [apply str_getitem_char in E; destruct E as [? ->]|]
         | context [if ?b then _ else _] => destruct b
         end; try discriminate;
  injection H as <- <- _ _ _; eauto.
Qed.

Lemma annotator_mirror (read1 read2 : string) (c1 d1 c2 d2 : pyval) :
  err_type_classification [PStr read2; c2; d2; PStr read1; c1; d1] =
  match err_type_classification [PStr read1; c1; d1; PStr read2; c2; d2] with
  | Ok newline => Ok (mirror newline)
  | Raise e => Raise e
  end.
Proof.
  rewrite !err_type_classification_line.
  unfold editdistance_eval. rewrite (levenshtein_sym read2 read1).
  destruct (Z.of_nat (levenshtein read1 read2) =? 1); [|reflexivity].
  rewrite locate_error_sym.
  destruct (locate_error read1 read2) as [[[[[f s] p] k1] k2]|] eqn:E;
    [|reflexivity].
  destruct (locate_error_chars _ _ _ _ _ _ _ E) as (x & y & -> & ->).
  reflexivity.
Qed.

End AnnotatorSymmetry.

(** X1.  Annotating a pair of reads the other way round gives the mirror
    image of the record: the same errorPosition, the two letters of errorType
    exchanged, the two k-mers exchanged and the reads with their counts and
    degrees exchanged; and it fails the other way round exactly when it fails
    this way round, with the same exception. *)
Theorem err_type_classification_mirror
    (read1 read2 : string) (c1 d1 c2 d2 : pyval) :
  err_type_classification [PStr read2; c2; d2; PStr read1; c1; d1] =
  match err_type_classification [PStr read1; c1; d1; PStr read2; c2; d2] with
  | Ok newline => Ok (mirror newline)
  | Raise e => Raise e
  end.
Proof. exact (annotator_mirror read1 read2 c1 d1 c2 d2). Qed.

Section AnnotatorInsertion.

(** The scanning loop over a common range: it stops at the first index at
    which the reads disagree, or runs through a range on which they agree. *)
Lemma scan_mismatch_first (read1 read2 : string) :
  forall (m k : nat) (position num : Z),
    (k + m <= String.length read1)%nat -> (k + m <= String.length read2)%nat ->
    (exists p, (k <= p < k + m)%nat /\
       String.get p read1 <> String.get p read2 /\
       (forall i, (k <= i < p)%nat -> String.get i read1 = String.get i read2) /\
       scan_mismatch read1 read2 (map Z.of_nat (seq k m)) position num =
         Ok (Z.of_nat p, num + Z.of_nat (p - k)))
    \/ ((forall i, (k <= i < k + m)%nat ->
           String.get i read1 = String.get i read2) /\
        scan_mismatch read1 read2 (map Z.of_nat (seq k m)) position num =
          Ok (position, num + Z.of_nat m)).
Proof.
  induction m as [|m IH]; intros k position num H1 H2.
  - right. split; [intros i Hi; lia|]. simpl. f_equal. f_equal. lia.
  - simpl.
    destruct (get_some read1 k) as [c Hc]; [lia|].
    destruct (get_some read2 k) as [d Hd]; [lia|].
    rewrite (str_getitem_nat _ _ _ Hc), (str_getitem_nat _ _ _ Hd). simpl.
    destruct (Ascii.eqb_spec c d) as [->|Hcd].
    + destruct (IH (S k) position (num + 1)) as [(p & Hp & Hne & Hpre & E)|[Hall E]];
        [lia|lia| |].
      * left. exists p. split; [lia|]. split; [exact Hne|]. split.
        { intros i Hi. destruct (Nat.eq_dec i k) as [->|]; [congruence|].
          apply Hpre. lia. }
        rewrite E. f_equal. f_equal. lia.
      * right. split.
        { intros i Hi. destruct (Nat.eq_dec i k) as [->|]; [congruence|].
          apply Hall. lia. }
        rewrite E. f_equal. f_equal. lia.
    + left. exists k. split; [lia|]. split; [congruence|].
      split; [intros i Hi; lia|].
      rewrite Nat.sub_diag. f_equal. f_equal. lia.
Qed.

Lemma str_getitem_last (s : string) (c : ascii) :
  String.get (String.length s - 1) s = Some c ->
  str_getitem s (-1) = Ok (String c EmptyString).
Proof.
  intros H. pose proof (get_lt _ _ _ H) as Hlt.
  unfold str_getitem, len. cbn [Z.ltb Z.compare].
  destruct (Z.ltb_spec (-1 + Z.of_nat (String.length s)) 0); [lia|].
  destruct (Z.leb_spec (Z.of_nat (String.length s))
                       (-1 + Z.of_nat (String.length s))); [lia|].
  cbn [orb].
  replace (Z.to_nat (-1 + Z.of_nat (String.length s)))
    with (String.length s - 1)%nat by lia.
  rewrite H. reflexivity.
Qed.

Lemma str_slice_tail (s : string) :
  2 <= len s ->
  str_slice s (Some (-2)) None = substring (String.length s - 2) 2 s.
Proof.
  intros H. unfold str_slice, adjust. cbn [Z.ltb Z.compare].
  rewrite Z.max_r by lia.
  destruct (Z.leb_spec (len s) (-2 + len s)); [lia|].
  replace (len s - (-2 + len s)) with 2 by lia.
  unfold len.
  replace (Z.to_nat (-2 + Z.of_nat (String.length s)))
    with (String.length s - 2)%nat by lia.
  reflexivity.
Qed.

End AnnotatorInsertion.

(** X2.  When the second read is one character longer than the (non-empty)
    first and the two are at edit distance 1, the annotator reports an
    insertion: errorPosition is the first index [p] at which the reads
    disagree, or the length of the first read when it is a prefix of the
    second; errorType is ["X-"] followed by the second read's character at
    [p]; the first k-mer is made of the first read's characters next to the
    gap with ["X"] in the gap, the second k-mer is the window of the second
    read around [p]. *)
Theorem err_type_classification_insertion
    (read1 read2 : string) (c1 d1 c2 d2 : pyval) :
  (0 < String.length read1)%nat ->
  String.length read2 = S (String.length read1) ->
  editdistance_eval read1 read2 = 1 ->
  exists (p : nat) (y : ascii) (f_kmer s_kmer : string),
    (p <= String.length read1)%nat /\
    String.get p read2 = Some y /\
    (forall i, (i < p)%nat -> String.get i read1 = String.get i read2) /\
    ((p < String.length read1)%nat ->
       String.get p read1 <> String.get p read2) /\
    err_type_classification [PStr read1; c1; d1; PStr read2; c2; d2] =
      Ok [PStr read1; c1; d1;
          PStr (String "X" (String "-" (String y EmptyString)));
          PInt (Z.of_nat p); PStr f_kmer; PStr s_kmer; PStr read2; c2; d2] /\
    (p = 0%nat ->
       exists a, String.get 0 read1 = Some a /\
         f_kmer = String "X" (String a EmptyString) /\
         s_kmer = substring 0 2 read2) /\
    (p = String.length read1 ->
       exists a, String.get (p - 1) read1 = Some a /\
         f_kmer = String a (String "X" EmptyString) /\
         s_kmer = substring (String.length read2 - 2) 2 read2) /\
    ((0 < p < String.length read1)%nat ->
       exists a b, String.get (p - 1) read1 = Some a /\
         String.get p read1 = Some b /\
         f_kmer = String a (String "X" (String b EmptyString)) /\
         s_kmer = substring (p - 1) 3 read2).
Proof.
  intros Hpos Hlen Hdis.
  rewrite err_type_classification_line, Hdis. cbn [Z.eqb Pos.eqb].
  assert (Hl2 : len read2 = Z.of_nat (String.length read1) + 1)
    by (unfold len; lia).
  unfold locate_error. cbv zeta. rewrite range_unfold.
  destruct (Z.eqb_spec (len read1) (len read2)) as [El|_];
    [unfold len in El; lia|].
  destruct (Z.ltb_spec (len read1) (len read2)) as [_|Hge];
    [|unfold len in Hge; lia].
  change (len read1) with (Z.of_nat (String.length read1)). rewrite Nat2Z.id.
  destruct (scan_mismatch_first read1 read2 (String.length read1) 0 (-1) 0)
    as [(p & Hp & Hne & Hpre & E)|[Hall E]]; try lia; rewrite E; cbn [bind].
  - destruct (Z.eqb_spec (0 + Z.of_nat (p - 0)) (Z.of_nat (String.length read1)));
      [lia|].
    destruct (get_some read2 p) as [y Hy]; [lia|].
    rewrite (str_getitem_nat _ _ _ Hy). cbn [bind].
    destruct (Z.eqb_spec (Z.of_nat p) 0) as [E0|E0].
    + destruct (get_some read1 0) as [a Ha]; [lia|].
      pose proof (str_getitem_nat _ _ _ Ha) as Ea. cbn [Z.of_nat] in Ea.
      rewrite Ea. cbn [bind].
      rewrite str_slice_head by lia.
      assert (p = 0%nat) by lia. subst p.
      exists 0%nat, y. do 2 eexists.
      split; [lia|]. split; [exact Hy|]. split; [intros i Hi; lia|].
      split; [intros _; exact Hne|]. split; [reflexivity|].
      split; [intros _; exists a; auto|].
      split; intros; lia.
    + destruct (Z.eqb_spec (Z.of_nat p) (Z.of_nat (String.length read1))); [lia|].
      destruct (get_some read1 (p - 1)) as [a Ha]; [lia|].
      destruct (get_some read1 p) as [b Hb]; [lia|].
      replace (Z.of_nat p - 1) with (Z.of_nat (p - 1)) by lia.
      rewrite (str_getitem_nat _ _ _ Ha), (str_getitem_nat _ _ _ Hb). cbn [bind].
      replace (Z.of_nat (p - 1)) with (Z.of_nat p - 1) by lia.
      rewrite str_slice_window by lia.
      replace (Z.to_nat (Z.of_nat p - 1)) with (p - 1)%nat by lia.
      exists p, y. do 2 eexists.
      split; [lia|]. split; [exact Hy|].
      split; [intros i Hi; apply Hpre; lia|].
      split; [intros _; exact Hne|]. split; [reflexivity|].
      split; [intros; lia|]. split; [intros; lia|].
      intros _. exists a, b. auto.
  - destruct (Z.eqb_spec (0 + Z.of_nat (String.length read1))
                         (Z.of_nat (String.length read1))); [|lia].
    destruct (get_some read2 (String.length read1)) as [y Hy]; [lia|].
    rewrite (str_getitem_nat _ _ _ Hy). cbn [bind].
    destruct (Z.eqb_spec (Z.of_nat (String.length read1)) 0); [lia|].
    rewrite Z.eqb_refl.
    destruct (get_some read1 (String.length read1 - 1)) as [a Ha]; [lia|].
    rewrite (str_getitem_last _ _ Ha). cbn [bind].
    rewrite str_slice_tail by lia.
    exists (String.length read1), y. do 2 eexists.
    split; [lia|]. split; [exact Hy|].
    split; [intros i Hi; apply Hall; lia|].
    split; [intros; lia|]. split; [reflexivity|].
    split; [intros; lia|]. split; [|intros; lia].
    intros _. exists a. auto.
Qed.

Lemma err_type_classification_insertion_witness :
  exists (p : nat) (y : ascii) (f_kmer s_kmer : string),
    (p <= String.length "ACT")%nat /\
    String.get p "ACGT" = Some y /\
    (forall i, (i < p)%nat -> String.get i "ACT" = String.get i "ACGT") /\
    ((p < String.length "ACT")%nat ->
       String.get p "ACT" <> String.get p "ACGT") /\
    err_type_classification [PStr "ACT"; PInt 50; PInt 1; PStr "ACGT"; PInt 1; PInt 1] =
      Ok [PStr "ACT"; PInt 50; PInt 1;
          PStr (String "X" (String "-" (String y EmptyString)));
          PInt (Z.of_nat p); PStr f_kmer; PStr s_kmer; PStr "ACGT"; PInt 1; PInt 1] /\
    (p = 0%nat ->
       exists a, String.get 0 "ACT" = Some a /\
         f_kmer = String "X" (String a EmptyString) /\
         s_kmer = substring 0 2 "ACGT") /\
    (p = String.length "ACT" ->
       exists a, String.get (p - 1) "ACT" = Some a /\
         f_kmer = String a (String "X" EmptyString) /\
         s_kmer = substring (String.length "ACGT" - 2) 2 "ACGT") /\
    ((0 < p < String.length "ACT")%nat ->
       exists a b, String.get (p - 1) "ACT" = Some a /\
         String.get p "ACT" = Some b /\
         f_kmer = String a (String "X" (String b EmptyString)) /\
         s_kmer = substring (p - 1) 3 "ACGT").
Proof.
  apply (err_type_classification_insertion "ACT" "ACGT");
    [simpl; lia | reflexivity | reflexivity].
Defined.

Section AnnotatorBounds.

Lemma get_ext (a b : string) :
  String.length a = String.length b ->
  (forall i, (i < String.length a)%nat -> String.get i a = String.get i b) ->
  a = b.
Proof.
  intros Hlen H. apply get_correct. intros n.
  destruct (Nat.lt_ge_cases n (String.length a)) as [Hlt|Hge]; [auto|].
  rewrite !get_none by lia. reflexivity.
Qed.

Lemma locate_error_position_le
    (read1 read2 first second f_kmer s_kmer : string) (position : Z) :
  len read1 <= len read2 -> read1 <> read2 ->
  locate_error read1 read2 = Ok (first, second, position, f_kmer, s_kmer) ->
  0 <= position <= len read1 /\ position < len read2.
Proof.
  intros Hle Hne H. unfold locate_error in H. cbv zeta in H.
  rewrite range_unfold in H.
  change (len read1) with (Z.of_nat (String.length read1)) in *.
  change (len read2) with (Z.of_nat (String.length read2)) in *.
  rewrite Nat2Z.id in H.
  destruct (scan_mismatch_first read1 read2 (String.length read1) 0 (-1) 0)
    as [(p & Hp & _ & _ & E)|[Hall E]]; try lia.
  - rewrite E in H.
    destruct (Z.eqb_spec (Z.of_nat (String.length read1))
                         (Z.of_nat (String.length read2))).
    + cbn [bind] in H.
      repeat match type of H with
             | context [bind (str_getitem ?s ?i) _] =>
                 destruct (str_getitem s i); cbn [bind] in H
             | context [if ?b then _ else _] => destruct b
             end; try discriminate; injection H as _ _ <- _ _; lia.
    + destruct (Z.ltb_spec (Z.of_nat (String.length read1))
                           (Z.of_nat (String.length read2))); [|lia].
      cbn [bind] in H.
      destruct (Z.eqb_spec (0 + Z.of_nat (p - 0)) (Z.of_nat (String.length read1)));
        [lia|].
      repeat match type of H with
             | context [bind (str_getitem ?s ?i) _] =>
                 destruct (str_getitem s i); cbn [bind] in H
             | context [if ?b then _ else _] => destruct b
             end; try discriminate; injection H as _ _ <- _ _; lia.
  - rewrite E in H.
    destruct (Z.eqb_spec (Z.of_nat (String.length read1))
                         (Z.of_nat (String.length read2))).
    + exfalso. apply Hne. apply get_ext; [lia|]. intros i Hi. apply Hall. lia.
    + destruct (Z.ltb_spec (Z.of_nat (String.length read1))
                           (Z.of_nat (String.length read2))); [|lia].
      cbn [bind] in H.
      destruct (Z.eqb_spec (0 + Z.of_nat (String.length read1))
                           (Z.of_nat (String.length read1))); [|lia].
      repeat match type of H with
             | context [bind (str_getitem ?s ?i) _] =>
                 destruct (str_getitem s i); cbn [bind] in H
             | context [if ?b then _ else _] => destruct b
             end; try discriminate; injection H as _ _ <- _ _; lia.
Qed.

Lemma locate_error_position
    (read1 read2 first second f_kmer s_kmer : string) (position : Z) :
  read1 <> read2 ->
  locate_error read1 read2 = Ok (first, second, position, f_kmer, s_kmer) ->
  0 <= position /\ position <= len read1 /\ position <= len read2 /\
  position < Z.max (len read1) (len read2).
Proof.
  intros Hne H.
  destruct (Z.le_gt_cases (len read1) (len read2)) as [Hle|Hgt].
  - pose proof (locate_error_position_le _ _ _ _ _ _ _ Hle Hne H). lia.
  - rewrite (locate_error_sym read2 read1) in H.
    destruct (locate_error read2 read1) as [[[[[f s] p] k1] k2]|] eqn:E;
      [|discriminate].
    cbn [bind] in H. injection H as _ _ <- _ _.
    assert (Hne' : read2 <> read1) by congruence.
    assert (Hle : len read2 <= len read1) by lia.
    pose proof (locate_error_position_le _ _ _ _ _ _ _ Hle Hne' E). lia.
Qed.

End AnnotatorBounds.

(** X3.  Whatever record the annotator returns, the two reads are at edit
    distance 1, their lengths differ by at most 1, errorType is three
    characters with ["-"] in the middle, and errorPosition is a valid index
    of the longer read that does not exceed the length of the shorter. *)
Theorem err_type_classification_bounds
    (read1 read2 : string) (c1 d1 c2 d2 : pyval) (newline : row) :
  err_type_classification [PStr read1; c1; d1; PStr read2; c2; d2] = Ok newline ->
  exists (x y : ascii) (p : Z) (k1 k2 : string),
    newline = [PStr read1; c1; d1;
               PStr (String x (String "-" (String y EmptyString)));
               PInt p; PStr k1; PStr k2; PStr read2; c2; d2] /\
    editdistance_eval read1 read2 = 1 /\
    Z.abs (len read1 - len read2) <= 1 /\
    0 <= p /\ p <= len read1 /\ p <= len read2 /\
    p < Z.max (len read1) (len read2).
Proof.
  rewrite err_type_classification_line.
  destruct (Z.eqb_spec (editdistance_eval read1 read2) 1) as [Hd|]; [|discriminate].
  destruct (locate_error read1 read2) as [[[[[f s] p] k1] k2]|] eqn:E;
    [|discriminate].
  cbn [bind]. intros [= <-].
  destruct (locate_error_chars _ _ _ _ _ _ _ E) as (x & y & -> & ->).
  exists x, y, p, k1, k2. split; [reflexivity|]. split; [exact Hd|].
  assert (Hne : read1 <> read2).
  { intros ->. unfold editdistance_eval in Hd. rewrite levenshtein_refl in Hd.
    discriminate. }
  split.
  { pose proof (levenshtein_length read1 read2) as [H1 H2].
    unfold editdistance_eval in Hd. unfold len. lia. }
  exact (locate_error_position _ _ _ _ _ _ _ Hne E).
Qed.

Lemma err_type_classification_bounds_witness :
  exists (x y : ascii) (p : Z) (k1 k2 : string),
    [PStr "ACGT"; PInt 50; PInt 1; PStr "G-X"; PInt 2; PStr "CGT"; PStr "CXT";
     PStr "ACT"; PInt 1; PInt 1] =
      [PStr "ACGT"; PInt 50; PInt 1;
       PStr (String x (String "-" (String y EmptyString)));
       PInt p; PStr k1; PStr k2; PStr "ACT"; PInt 1; PInt 1] /\
    editdistance_eval "ACGT" "ACT" = 1 /\
    Z.abs (len "ACGT" - len "ACT") <= 1 /\
    0 <= p /\ p <= len "ACGT" /\ p <= len "ACT" /\
    p < Z.max (len "ACGT") (len "ACT").
Proof.
  apply (err_type_classification_bounds "ACGT" "ACT" (PInt 50) (PInt 1)
           (PInt 1) (PInt 1)).
  reflexivity.
Defined.

(** X4.  On two non-empty reads the annotator has exactly two outcomes: a
    ten-column record when the reads are at edit distance 1, and
    [ValueError] at any other distance. *)
Theorem err_type_classification_outcomes
    (read1 read2 : string) (c1 d1 c2 d2 : pyval) :
  0 < len read1 -> 0 < len read2 ->
  (editdistance_eval read1 read2 = 1 /\
   exists newline,
     err_type_classification [PStr read1; c1; d1; PStr read2; c2; d2] = Ok newline /\
     List.length newline = 10%nat) \/
  (editdistance_eval read1 read2 <> 1 /\
   err_type_classification [PStr read1; c1; d1; PStr read2; c2; d2] = Raise ValueError).
Proof.
  intros H1 H2.
  destruct (err_type_classification_nonempty read1 read2 c1 d1 c2 d2 H1 H2)
    as [Hok Hbad].
  destruct (Z.eq_dec (editdistance_eval read1 read2) 1) as [E|E].
  - left. split; [exact E|]. exact (Hok E).
  - right. split; [exact E|]. exact (Hbad E).
Qed.

Lemma err_type_classification_outcomes_witness :
  (editdistance_eval "ACGT" "AGCT" = 1 /\
   exists newline,
     err_type_classification
       [PStr "ACGT"; PInt 9; PInt 1; PStr "AGCT"; PInt 1; PInt 1] = Ok newline /\
     List.length newline = 10%nat) \/
  (editdistance_eval "ACGT" "AGCT" <> 1 /\
   err_type_classification
     [PStr "ACGT"; PInt 9; PInt 1; PStr "AGCT"; PInt 1; PInt 1] = Raise ValueError).
Proof.
  apply (err_type_classification_outcomes "ACGT" "AGCT"); reflexivity.
Defined.

(** ** More on the classification pass *)

Section PassRows.

Variable cfg : config.
Variable edit_dis : Z.

Lemma list_getitem_in {A : Type} (l : list A) (i : Z) (x : A) :
  list_getitem l i = Ok x -> In x l.
Proof.
  intros H. apply list_getitem_ok in H. destruct H as [_ H].
  apply nth_error_In in H. exact H.
Qed.

Lemma emitted_row_skeleton (g1 g2 : Nx.graph) (b : bool) (n : string) (r : row) :
  skeleton g1 = skeleton g2 ->
  emitted_row cfg edit_dis g1 b n r -> emitted_row cfg edit_dis g2 b n r.
Proof.
  intros H (p & pc & pd & c & d & neis & Hr & Hc & Hmax & Hd & Hdeg & Hn &
            Hin & Hpc & Hh & Hpd).
  exists p, pc, pd, c, d, neis.
  rewrite <- (node_count_skeleton _ _ n H), <- (degree_skeleton _ _ n H),
    <- (neighbors_skeleton _ _ n H), <- (node_count_skeleton _ _ p H).
  repeat (split; [assumption|]).
  destruct b.
  - rewrite <- (degree_skeleton _ _ p H). assumption.
  - destruct Hpd as (nei & Hl & Hnd). exists nei.
    rewrite <- (degree_skeleton _ _ nei H). auto.
Qed.

Lemma ambiguous_candidates_rows (g : Nx.graph) (nei : option string)
    (node : string) (c d : Z) (n2c : list (string * Z)) :
  (forall p, In p n2c -> high_freq_thre cfg <= snd p) ->
  forall acc tmp,
    ambiguous_candidates cfg edit_dis g nei node c d n2c acc = Ok tmp ->
    exists rows, tmp = acc ++ rows /\
      Forall2 (fun p r => exists nei' pd,
                 nei = Some nei' /\ Nx.degree g nei' = Ok pd /\
                 finish_line edit_dis
                   [PStr (fst p); PInt (snd p); PInt pd;
                    PStr node; PInt c; PInt d] = Ok r) n2c rows.
Proof.
  induction n2c as [|[cre cnt] rest IH]; intros Hhigh acc tmp H; simpl in H.
  - injection H as <-. exists []. rewrite app_nil_r. split; constructor.
  - destruct (Z.leb_spec (high_freq_thre cfg) cnt) as [_|Hlt].
    2:{ specialize (Hhigh (cre, cnt) (or_introl eq_refl)). simpl in Hhigh. lia. }
    destruct nei as [n0|]; [|discriminate]. cbn [bind] in H.
    destruct (Nx.degree g n0) as [d0|] eqn:Ed; [|discriminate]. cbn [bind] in H.
    destruct (finish_line edit_dis _) as [r|] eqn:Er; [|discriminate].
    cbn [bind] in H.
    apply IH in H; [|intros p Hp; apply Hhigh; right; assumption].
    destruct H as (rows & -> & Hrows).
    exists (r :: rows). rewrite <- app_assoc. split; [reflexivity|].
    constructor; [|assumption]. exists n0, d0. auto.
Qed.

Ltac emitted_fields :=
  repeat (split; [first [ assumption | left; assumption | right; assumption
                        | eapply list_getitem_in; eassumption ]|]).

(** What the [if]/[elif] statement adds for an eligible node. *)
Lemma classify_node_rows (g : Nx.graph) (node : string) (c d : Z)
    (neis : list string) (dg : list row) (da : list (list row)) :
  Nx.node_count g node = Ok c -> c <= max_error_freq cfg ->
  Nx.degree g node = Ok d -> Nx.neighbors g node = Ok neis ->
  classify_node cfg edit_dis g node c d neis ([], []) = Ok (dg, da) ->
  Forall (emitted_genuine cfg edit_dis g) dg /\
  Forall (emitted_group cfg edit_dis g) da.
Proof.
  intros Hc Hmax Hd Hn H. unfold classify_node in H.
  destruct (Z.eqb_spec d 1) as [E1|E1].
  - destruct (list_getitem neis 0) as [nei|] eqn:En; [|discriminate].
    cbn [bind] in H.
    destruct (Nx.node_count g nei) as [nc|] eqn:Enc; [|discriminate].
    cbn [bind] in H.
    destruct (Nx.degree g nei) as [nd|] eqn:End'; [|discriminate].
    cbn [bind] in H.
    destruct (Z.leb_spec (high_freq_thre cfg) nc) as [Hh|Hl].
    + destruct (finish_line edit_dis _) as [r|] eqn:Er; [|discriminate].
      cbn [bind] in H. injection H as <- <-. split; [|constructor].
      constructor; [|constructor]. exists node.
      exists nei, nc, nd, c, d, neis. emitted_fields. assumption.
    + injection H as <- <-. split; constructor.
  - destruct (Z.leb_spec d (ambiguous_error_node_degree cfg)) as [Hle|Hgt].
    2:{ injection H as <- <-. split; constructor. }
    destruct (collect_high cfg g neis 0 []) as [[hn n2c]|] eqn:Ech; [|discriminate].
    cbn [bind] in H. apply collect_high_spec in Ech. destruct Ech as [-> ->].
    simpl app in H. set (hp := high_pairs cfg g neis) in *.
    assert (Hhigh : forall p, In p hp ->
              In (fst p) neis /\ Nx.node_count g (fst p) = Ok (snd p) /\
              high_freq_thre cfg <= snd p).
    { intros p Hp. apply (high_pairs_high cfg g neis p Hp). }
    destruct (Z.eqb_spec (0 + Z.of_nat (List.length hp)) 1) as [Eh|Eh].
    + destruct hp as [|[fn fc] [|q hp']] eqn:Ehp; simpl in Eh; try lia.
      simpl in H.
      destruct (Nx.degree g fn) as [fd|] eqn:Efd; [|discriminate].
      cbn [bind] in H.
      destruct (Hhigh (fn, fc) (or_introl eq_refl)) as (Hin & Hfc & Hfh).
      simpl in Hin, Hfc, Hfh.
      destruct (Z.leb_spec (high_freq_thre cfg) fc) as [_|Hlt]; [|lia].
      destruct (finish_line edit_dis _) as [r|] eqn:Er; [|discriminate].
      cbn [bind] in H. injection H as <- <-.
      split; [|constructor]. constructor; [|constructor]. exists node.
      exists fn, fc, fd, c, d, neis. emitted_fields. assumption.
    + destruct (ambiguous_candidates _ _ _ _ _ _ _ _ _) as [tmp|] eqn:Ea;
        [|discriminate].
      cbn [bind] in H.
      apply ambiguous_candidates_rows in Ea;
        [|intros p Hp; apply (Hhigh p Hp)].
      destruct Ea as (rows & -> & Hrows). simpl app in H.
      destruct rows as [|r rows]; injection H as <- <-;
        (split; [constructor|]); constructor; [|constructor].
      exists node. split.
      * pose proof (Forall2_length Hrows) as Hlen. simpl in Hlen |- *. lia.
      * apply Forall_forall. intros r' Hr'.
        destruct (Forall2_in_r _ _ _ Hrows r' Hr')
          as ([pn pc] & Hp & nei' & pd & Hnei & Hpd & Hfl).
        destruct (Hhigh _ Hp) as (Hin & Hpc & Hph). simpl in Hin, Hpc, Hph, Hfl.
        exists pn, pc, pd, c, d, neis. emitted_fields.
        exists nei'. auto.
Qed.

Lemma node_emission_rows (g : Nx.graph) (n : string) (dg : list row)
    (da : list (list row)) :
  node_emission cfg edit_dis g n = Ok (dg, da) ->
  Forall (emitted_genuine cfg edit_dis g) dg /\
  Forall (emitted_group cfg edit_dis g) da.
Proof.
  unfold node_emission, eligible. intros H.
  destruct (Nx.node_count g n) as [c|] eqn:Ec; [|discriminate]. cbn [bind] in H.
  destruct (Nx.degree g n) as [d|] eqn:Ed; [|discriminate]. cbn [bind] in H.
  destruct (Z.leb_spec c (max_error_freq cfg)) as [Hmax|_].
  2:{ cbn [bind] in H. injection H as <- <-. split; constructor. }
  destruct (Nx.node_flag g n) as [[|]|]; [| |discriminate]; cbn [bind negb] in H.
  { injection H as <- <-. split; constructor. }
  destruct (Nx.neighbors g n) as [neis|] eqn:En; [|discriminate]. cbn [bind] in H.
  exact (classify_node_rows g n c d neis dg da Ec Hmax Ed En H).
Qed.

(** The rows and groups that a loop adds, read in the graph the loop
    started from. *)
Lemma for_each_visit_rows (l : list string) :
  forall g gen ambi g' gen' ambi',
    for_each (visit_node cfg edit_dis) (g, gen, ambi) l = Ok (g', gen', ambi') ->
    exists dg da,
      gen' = gen ++ dg /\ ambi' = ambi ++ da /\
      Forall (emitted_genuine cfg edit_dis g) dg /\
      Forall (emitted_group cfg edit_dis g) da.
Proof.
  induction l as [|n l IH]; intros g gen ambi g' gen' ambi' H;
    cbn [for_each] in H.
  - injection H as <- <- <-. exists [], []. rewrite !app_nil_r.
    repeat split; constructor.
  - rewrite visit_node_eq in H.
    destruct (node_emission cfg edit_dis g n) as [[dg da]|] eqn:Ee;
      [|discriminate]. cbn [bind] in H.
    destruct (mark cfg g n) as [g1|] eqn:Em; [|discriminate]. cbn [bind] in H.
    apply IH in H. destruct H as (dg' & da' & -> & -> & Hg & Ha).
    pose proof (mark_skeleton cfg _ _ _ Em) as Hsk.
    destruct (node_emission_rows _ _ _ _ Ee) as [Hg0 Ha0].
    exists (dg ++ dg'), (da ++ da'). rewrite !app_assoc.
    split; [reflexivity|]. split; [reflexivity|]. split.
    + apply Forall_app. split; [assumption|].
      eapply Forall_impl; [|exact Hg]. intros r [m Hr]. exists m.
      revert Hr. apply emitted_row_skeleton, Hsk.
    + apply Forall_app. split; [assumption|].
      eapply Forall_impl; [|exact Ha]. intros grp (m & Hlen & Hrows).
      exists m. split; [assumption|].
      eapply Forall_impl; [|exact Hrows]. intros r.
      apply emitted_row_skeleton, Hsk.
Qed.

Lemma classify_subgraph_rows (g g' : Nx.graph) (gen : list row)
    (ambi : list (list row)) :
  classify_subgraph cfg edit_dis g = Ok (g', gen, ambi) ->
  Forall (emitted_genuine cfg edit_dis g) gen /\
  Forall (emitted_group cfg edit_dis g) ambi.
Proof.
  unfold classify_subgraph.
  destruct (0 <? Z.of_nat (List.length (Nx.edges g))).
  - intros H. apply for_each_visit_rows in H.
    destruct H as (dg & da & -> & -> & Hg & Ha). split; assumption.
  - intros [= <- <- <-]. split; constructor.
Qed.

End PassRows.

Section PassFrame.

Variable cfg : config.
Variable edit_dis : Z.

Lemma flag_raised_refl (g : Nx.graph) (m : string) : flag_raised g g m.
Proof. left. reflexivity. Qed.

Lemma flag_raised_trans (g1 g2 g3 : Nx.graph) (m : string) :
  flag_raised g1 g2 m -> flag_raised g2 g3 m -> flag_raised g1 g3 m.
Proof.
  unfold flag_raised. intros [E1|[F1 T1]] [E2|[F2 T2]].
  - left. congruence.
  - right. rewrite <- E1. auto.
  - right. rewrite E2. auto.
  - congruence.
Qed.

Lemma mark_flag_raised (g g' : Nx.graph) (n m : string) :
  mark cfg g n = Ok g' -> flag_raised g g' m.
Proof.
  unfold mark, eligible. intros H.
  destruct (Nx.node_count g n) as [c|]; [|discriminate]. cbn [bind] in H.
  destruct (c <=? max_error_freq cfg); cbn [bind] in H.
  2:{ injection H as <-. apply flag_raised_refl. }
  destruct (Nx.node_flag g n) as [[|]|] eqn:Ef; [| |discriminate];
    cbn [bind negb] in H.
  { injection H as <-. apply flag_raised_refl. }
  destruct (String.eqb_spec m n) as [->|Hm].
  - right. split; [assumption|]. apply (set_flag_flag _ _ _ _ H).
  - left. apply (set_flag_flag_other _ _ _ _ _ H Hm).
Qed.

Lemma for_each_visit_frame (l : list string) :
  forall g gen ambi g' gen' ambi',
    for_each (visit_node cfg edit_dis) (g, gen, ambi) l = Ok (g', gen', ambi') ->
    skeleton g' = skeleton g /\ forall m, flag_raised g g' m.
Proof.
  induction l as [|n l IH]; intros g gen ambi g' gen' ambi' H;
    cbn [for_each] in H.
  - injection H as <- <- <-. split; [reflexivity|]. intros m.
    apply flag_raised_refl.
  - rewrite visit_node_eq in H.
    destruct (node_emission cfg edit_dis g n) as [[dg da]|]; [|discriminate].
    cbn [bind] in H.
    destruct (mark cfg g n) as [g1|] eqn:Em; [|discriminate]. cbn [bind] in H.
    apply IH in H. destruct H as [Hsk Hfl]. split.
    + rewrite Hsk. apply (mark_skeleton cfg _ _ _ Em).
    + intros m. apply (flag_raised_trans g g1 g'); [|apply Hfl].
      apply (mark_flag_raised _ _ _ _ Em).
Qed.

Lemma list_update_other {A : Type} (l : list A) (i k : nat) (x : A) :
  k <> i -> nth_error (list_update l i x) k = nth_error l k.
Proof.
  revert i k; induction l as [|y l IH]; intros [|i] [|k] H; simpl;
    try reflexivity; try contradiction.
  apply IH. congruence.
Qed.

End PassFrame.

(** X5.  Every row that a classification pass returns is the line of a node
    of the visited subgraph whose count is at most [max_error_freq] and
    whose degree is 1 or at most [ambiguous_error_node_degree], and of one
    of its neighbours whose count is at least [high_freq_thre], with both
    counts read from the subgraph.  In a genuine row the StartDegree is the
    degree of that neighbour; in a row of an ambiguous group it is the
    degree of the node's last neighbour.  Every group has at least two rows,
    all for the same node. *)
Theorem extract_genuine_ambi_errs_subgraph_rows
    (cfg : config) (sub_graphs sub_graphs' : list Nx.graph) (edit_dis ii : Z)
    (gen_lst : list row) (ambi_lst : list (list row)) :
  extract_genuine_ambi_errs_subgraph cfg (sub_graphs, edit_dis) ii =
    Ok ((gen_lst, ambi_lst), sub_graphs') ->
  exists sub_graph,
    list_getitem sub_graphs ii = Ok sub_graph /\
    Forall (emitted_genuine cfg edit_dis sub_graph) gen_lst /\
    Forall (emitted_group cfg edit_dis sub_graph) ambi_lst.
Proof.
  unfold extract_genuine_ambi_errs_subgraph. intros H.
  destruct (list_getitem sub_graphs ii) as [g|]; [|discriminate].
  cbn [bind] in H.
  destruct (classify_subgraph cfg edit_dis g) as [[[g' gen] ambi]|] eqn:Ec;
    [|discriminate].
  cbn [bind] in H. injection H as <- <- _.
  exists g. split; [reflexivity|].
  exact (classify_subgraph_rows cfg edit_dis g g' gen ambi Ec).
Qed.

Lemma extract_genuine_ambi_errs_subgraph_rows_witness :
  exists sub_graph,
    list_getitem [star_example; ambiguous_example] 1 = Ok sub_graph /\
    Forall (emitted_genuine example_config 1 sub_graph)
      [[PStr "AACA"; PInt 6; PInt 2; PStr "A-C"; PInt 3; PStr "CA"; PStr "CC";
        PStr "AACC"; PInt 1; PInt 1]] /\
    Forall (emitted_group example_config 1 sub_graph)
      [[[PStr "CAAA"; PInt 5; PInt 2; PStr "C-A"; PInt 0; PStr "CA"; PStr "AA";
         PStr "AAAA"; PInt 1; PInt 2];
        [PStr "AACA"; PInt 6; PInt 2; PStr "C-A"; PInt 2; PStr "ACA"; PStr "AAA";
         PStr "AAAA"; PInt 1; PInt 2]]].
Proof.
  eapply (extract_genuine_ambi_errs_subgraph_rows example_config
            [star_example; ambiguous_example] _ 1 1).
  vm_compute. reflexivity.
Defined.

(** X6.  A classification pass changes nothing but flags, and only in the
    subgraph it visits: the list of subgraphs keeps its length, every other
    subgraph is left as it was, and in the visited one the node keys, the
    counts and the adjacency are unchanged, while every flag is either as
    before or has gone from [False] to [True]. *)
Theorem extract_genuine_ambi_errs_subgraph_frame
    (cfg : config) (sub_graphs sub_graphs' : list Nx.graph) (edit_dis ii : Z)
    (lists : list row * list (list row)) :
  extract_genuine_ambi_errs_subgraph cfg (sub_graphs, edit_dis) ii =
    Ok (lists, sub_graphs') ->
  List.length sub_graphs' = List.length sub_graphs /\
  (forall k, k <> index_of (List.length sub_graphs) ii ->
     nth_error sub_graphs' k = nth_error sub_graphs k) /\
  exists sub_graph sub_graph',
    list_getitem sub_graphs ii = Ok sub_graph /\
    list_getitem sub_graphs' ii = Ok sub_graph' /\
    skeleton sub_graph' = skeleton sub_graph /\
    forall m, flag_raised sub_graph sub_graph' m.
Proof.
  unfold extract_genuine_ambi_errs_subgraph. intros H.
  destruct (list_getitem sub_graphs ii) as [g|] eqn:Eg; [|discriminate].
  cbn [bind] in H.
  destruct (classify_subgraph cfg edit_dis g) as [[[g' gen] ambi]|] eqn:Ec;
    [|discriminate].
  cbn [bind] in H. injection H as _ <-.
  split; [apply list_update_length|].
  split; [intros k Hk; apply list_update_other; exact Hk|].
  exists g, g'. split; [reflexivity|].
  split; [apply (list_getitem_setitem _ _ _ _ Eg)|].
  unfold classify_subgraph in Ec.
  destruct (0 <? Z.of_nat (List.length (Nx.edges g))).
  - apply (for_each_visit_frame cfg edit_dis) in Ec. exact Ec.
  - injection Ec as <- _ _. split; [reflexivity|]. intros m.
    apply flag_raised_refl.
Qed.

Lemma extract_genuine_ambi_errs_subgraph_frame_witness :
  List.length [ambiguous_example; star_example_visited] =
    List.length [ambiguous_example; star_example] /\
  (forall k, k <> index_of (List.length [ambiguous_example; star_example]) (-1) ->
     nth_error [ambiguous_example; star_example_visited] k =
     nth_error [ambiguous_example; star_example] k) /\
  exists sub_graph sub_graph',
    list_getitem [ambiguous_example; star_example] (-1) = Ok sub_graph /\
    list_getitem [ambiguous_example; star_example_visited] (-1) = Ok sub_graph' /\
    skeleton sub_graph' = skeleton sub_graph /\
    forall m, flag_raised sub_graph sub_graph' m.
Proof.
  apply (extract_genuine_ambi_errs_subgraph_frame example_config
           [ambiguous_example; star_example] _ 2 (-1) (star_example_rows, [])).
  vm_compute. reflexivity.
Defined.

(** ** More on graph construction *)

Section BuilderGraph.

Variable cfg : config.

Lemma add_node_fresh (g : Nx.graph) (n : string) (c : Z) (f : bool) :
  ~ In n (Nx.nodes g) ->
  Nx.add_node g n c f = g ++ [(n, Nx.mk_node (Some c) (Some f) [])].
Proof.
  induction g as [|[k d] g IH]; simpl; intros H; [reflexivity|].
  destruct (String.eqb_spec k n) as [->|Hk]; [tauto|].
  f_equal. apply IH. tauto.
Qed.

Lemma has_node_in (g : Nx.graph) (n : string) :
  Nx.has_node g n = true <-> In n (Nx.nodes g).
Proof.
  unfold Nx.has_node. rewrite lookup_in_nodes.
  destruct (Nx.lookup g n); split; congruence.
Qed.

(** The loop over the counter adds one node per key, with the count of the
    key and the flag [False], and no adjacency. *)
Lemma count_loop_graph (rc : list (string * Z)) :
  forall graph high low graph' high' low',
    NoDup (map fst rc) ->
    (forall r, In r (map fst rc) -> ~ In r (Nx.nodes graph)) ->
    count_loop cfg rc (graph, high, low) = (graph', high', low') ->
    graph' = graph ++ map (fun p => (fst p, fresh_node (snd p) [])) rc.
Proof.
  induction rc as [|[read frequency] rc IH];
    intros graph high low graph' high' low' Hnd Hfresh H; simpl in H.
  - injection H as <- _ _. rewrite app_nil_r. reflexivity.
  - inversion Hnd as [|? ? Hr Hrc]; subst.
    assert (Hn : ~ In read (Nx.nodes graph)) by (apply Hfresh; left; reflexivity).
    assert (Eh : Nx.has_node graph read = false).
    { destruct (Nx.has_node graph read) eqn:E; [|reflexivity].
      apply has_node_in in E. contradiction. }
    rewrite Eh in H. cbn [negb] in H. rewrite (add_node_fresh _ _ _ _ Hn) in H.
    assert (Hfresh' : forall r, In r (map fst rc) ->
              ~ In r (Nx.nodes (graph ++ [(read, Nx.mk_node (Some frequency) (Some false) [])]))).
    { intros r Hin. unfold Nx.nodes. rewrite map_app, in_app_iff. simpl.
      intros [Hg|[<-|[]]]; [|contradiction].
      apply (Hfresh r); [right; exact Hin|exact Hg]. }
    simpl. rewrite (app_assoc graph [_] _ : graph ++ (_ :: _) = _).
    destruct (high_freq_thre cfg <=? frequency);
      apply (IH _ _ _ _ _ _ Hrc Hfresh' H).
Qed.

Lemma nodes_attributes (g : Nx.graph) : Nx.nodes g = map fst (attributes g).
Proof. unfold Nx.nodes, attributes. rewrite map_map. reflexivity. Qed.

Lemma lookup_attributes (g1 g2 : Nx.graph) (n : string) :
  attributes g1 = attributes g2 ->
  option_map (fun d => (Nx.attr_count d, Nx.attr_flag d)) (Nx.lookup g1 n) =
  option_map (fun d => (Nx.attr_count d, Nx.attr_flag d)) (Nx.lookup g2 n).
Proof.
  revert g2; induction g1 as [|[k d] g1 IH]; intros [|[k' d'] g2] H;
    try discriminate; [reflexivity|].
  simpl in H. injection H as Hk Hc Hf Hrest. subst k'. simpl.
  destruct (String.eqb k n); [simpl; rewrite Hc, Hf; reflexivity|].
  apply IH, Hrest.
Qed.

Lemma node_count_attributes (g1 g2 : Nx.graph) (n : string) :
  attributes g1 = attributes g2 -> Nx.node_count g1 n = Nx.node_count g2 n.
Proof.
  intros H. apply (lookup_attributes _ _ n) in H. unfold Nx.node_count.
  destruct (Nx.lookup g1 n) as [d1|], (Nx.lookup g2 n) as [d2|];
    try discriminate; [|reflexivity].
  injection H as Hc _. rewrite Hc. reflexivity.
Qed.

Lemma node_flag_attributes (g1 g2 : Nx.graph) (n : string) :
  attributes g1 = attributes g2 -> Nx.node_flag g1 n = Nx.node_flag g2 n.
Proof.
  intros H. apply (lookup_attributes _ _ n) in H. unfold Nx.node_flag.
  destruct (Nx.lookup g1 n) as [d1|], (Nx.lookup g2 n) as [d2|];
    try discriminate; [|reflexivity].
  injection H as _ Hf. rewrite Hf. reflexivity.
Qed.

Lemma ensure_node_present (g : Nx.graph) (n : string) :
  In n (Nx.nodes g) -> Nx.ensure_node g n = g.
Proof.
  induction g as [|[k d] g IH]; simpl; intros H; [contradiction|].
  destruct (String.eqb_spec k n) as [->|Hk]; [reflexivity|].
  f_equal. apply IH. tauto.
Qed.

Lemma add_adj_attributes (g : Nx.graph) (u v : string) :
  In u (Nx.nodes g) -> attributes (Nx.add_adj g u v) = attributes g.
Proof.
  induction g as [|[k d] g IH]; simpl; intros H; [contradiction|].
  destruct (String.eqb_spec k u) as [->|Hk]; [reflexivity|].
  simpl. f_equal. apply IH. tauto.
Qed.

Lemma add_edge_attributes (g : Nx.graph) (u v : string) :
  In u (Nx.nodes g) -> In v (Nx.nodes g) ->
  attributes (Nx.add_edge g (u, v)) = attributes g.
Proof.
  intros Hu Hv. unfold Nx.add_edge.
  rewrite (ensure_node_present g u Hu), (ensure_node_present g v Hv).
  rewrite add_adj_attributes.
  - apply add_adj_attributes, Hu.
  - rewrite nodes_attributes, (add_adj_attributes g u v Hu), <- nodes_attributes.
    exact Hv.
Qed.

Lemma add_edges_from_attributes (es : list (string * string)) :
  forall g,
    (forall u v, In (u, v) es -> In u (Nx.nodes g) /\ In v (Nx.nodes g)) ->
    attributes (Nx.add_edges_from g es) = attributes g.
Proof.
  unfold Nx.add_edges_from.
  induction es as [|[a b] es IH]; intros g H; cbn [fold_left]; [reflexivity|].
  destruct (H a b (or_introl eq_refl)) as [Ha Hb].
  pose proof (add_edge_attributes g a b Ha Hb) as E.
  rewrite IH; [exact E|].
  intros u v Huv. rewrite !nodes_attributes, E, <- !nodes_attributes.
  apply H. right. exact Huv.
Qed.

End BuilderGraph.

Section BuilderEdges.

Lemma adjacent_cons (k : string) (d : Nx.node_data) (g : Nx.graph) (u v : string) :
  adjacent ((k, d) :: g) u v <-> (u = k /\ In v (Nx.adj d)) \/ adjacent g u v.
Proof.
  unfold adjacent. split.
  - intros (d' & [[= <- <-]|Hin] & Hv); [left; auto|right; eauto].
  - intros [[-> Hv]|(d' & Hin & Hv)].
    + exists d. split; [left; reflexivity|exact Hv].
    + exists d'. split; [right; exact Hin|exact Hv].
Qed.

Lemma ensure_node_keeps (g : Nx.graph) (n u v : string) :
  adjacent g u v -> adjacent (Nx.ensure_node g n) u v.
Proof.
  induction g as [|[k d] g IH]; simpl; intros H.
  - destruct H as (d & [] & _).
  - destruct (String.eqb k n); [exact H|].
    apply adjacent_cons in H. apply adjacent_cons. tauto.
Qed.

Lemma add_adj_keeps (g : Nx.graph) (a b u v : string) :
  adjacent g u v -> adjacent (Nx.add_adj g a b) u v.
Proof.
  induction g as [|[k d] g IH]; simpl; intros H.
  - destruct H as (d & [] & _).
  - apply adjacent_cons in H.
    destruct (String.eqb k a); apply adjacent_cons; [|tauto].
    destruct H as [[-> Hv]|H]; [left|right; exact H].
    split; [reflexivity|]. simpl.
    destruct (Nx.mem b (Nx.adj d)); [exact Hv|].
    apply in_app_iff. left. exact Hv.
Qed.

Lemma add_adj_adds (g : Nx.graph) (a b : string) :
  adjacent (Nx.add_adj g a b) a b.
Proof.
  induction g as [|[k d] g IH]; simpl.
  - eexists. split; [left; reflexivity|]. simpl. auto.
  - destruct (String.eqb_spec k a) as [->|Hk]; apply adjacent_cons; [left|right; exact IH].
    split; [reflexivity|]. simpl.
    destruct (Nx.mem b (Nx.adj d)) eqn:Em.
    + apply mem_true_iff, Em.
    + apply in_app_iff. right. left. reflexivity.
Qed.

Lemma add_edge_keeps (g : Nx.graph) (e : string * string) (u v : string) :
  adjacent g u v -> adjacent (Nx.add_edge g e) u v.
Proof.
  destruct e as [a b]. unfold Nx.add_edge. intros H.
  apply add_adj_keeps, add_adj_keeps, ensure_node_keeps, ensure_node_keeps, H.
Qed.

Lemma add_edge_adds (g : Nx.graph) (a b : string) :
  adjacent (Nx.add_edge g (a, b)) a b /\ adjacent (Nx.add_edge g (a, b)) b a.
Proof.
  unfold Nx.add_edge. split.
  - apply add_adj_keeps, add_adj_adds.
  - apply add_adj_adds.
Qed.

Lemma add_edges_from_keeps (es : list (string * string)) :
  forall g u v, adjacent g u v -> adjacent (Nx.add_edges_from g es) u v.
Proof.
  unfold Nx.add_edges_from.
  induction es as [|e es IH]; intros g u v H; cbn [fold_left]; [exact H|].
  apply IH, add_edge_keeps, H.
Qed.

(** Every edge handed to [add_edges_from] is in the graph afterwards, in
    both directions. *)
Lemma add_edges_from_adds (es : list (string * string)) :
  forall g a b, In (a, b) es ->
    adjacent (Nx.add_edges_from g es) a b /\ adjacent (Nx.add_edges_from g es) b a.
Proof.
  induction es as [|e es IH]; intros g a b H; [contradiction|].
  change (Nx.add_edges_from g (e :: es))
    with (Nx.add_edges_from (Nx.add_edge g e) es).
  destruct H as [->|H]; [|apply IH, H].
  destruct (add_edge_adds g a b) as [H1 H2].
  split; apply add_edges_from_keeps; assumption.
Qed.

Lemma real_ed1_seqs_intro (ed1 : string -> list string) (univ high : list string)
    (u v : string) :
  In u high -> In v univ -> In v (ed1 u) ->
  In (u, v) (flat_map (real_ed1_seqs ed1 univ) high).
Proof.
  intros Hu Hv He. apply in_flat_map. exists u. split; [exact Hu|].
  unfold real_ed1_seqs. apply in_map_iff. exists v. split; [reflexivity|].
  apply filter_In. split; [exact Hv|]. apply mem_true_iff, He.
Qed.

Lemma set_of_intro (l : list string) (x : string) :
  In x l -> In x (set_of String.eqb l).
Proof.
  induction l as [|y l IH]; simpl; [tauto|].
  destruct (String.eqb_spec y x) as [->|Hne]; [left; reflexivity|].
  intros [E|H]; [contradiction|]. right. apply filter_In.
  split; [apply IH, H|].
  destruct (String.eqb_spec y x); [contradiction|reflexivity].
Qed.

Lemma real_ed2_seqs_intro (ed2 : string -> list string) (univ high : list string)
    (u v : string) :
  In u high -> In v univ -> In v (ed2 u) ->
  In (u, v) (flat_map (real_ed2_seqs ed2 univ) high).
Proof.
  intros Hu Hv He. apply in_flat_map. exists u. split; [exact Hu|].
  unfold real_ed2_seqs. apply in_map_iff. exists v. split; [reflexivity|].
  apply filter_In. split; [apply set_of_intro, He|]. apply mem_true_iff, Hv.
Qed.

End BuilderEdges.

Section CounterKeys.

(** Dropping entries of a counter keeps its keys distinct. *)
Lemma filter_keys_NoDup (keep : string * Z -> bool) (rc : list (string * Z)) :
  NoDup (map fst rc) -> NoDup (map fst (filter keep rc)).
Proof.
  induction rc as [|[k n] rc IH]; simpl; intros Hnd; [constructor|].
  inversion Hnd as [|? ? Hk Hrc]; subst.
  destruct (keep (k, n)); simpl; [|apply IH, Hrc].
  constructor; [|apply IH, Hrc].
  intros Hin. apply Hk. apply in_map_iff in Hin.
  destruct Hin as (y & Ey & Hy). apply filter_In in Hy.
  apply in_map_iff. exists y. tauto.
Qed.

Lemma Counter_NoDup (l : list string) : NoDup (map fst (Counter l)).
Proof.
  unfold Counter.
  destruct (Counter_fold l [] EmptyString ltac:(constructor)) as (_ & H & _).
  exact H.
Qed.

Lemma Counter_keys (l : list string) (r : string) :
  In r (map fst (Counter l)) <-> In r l.
Proof.
  unfold Counter.
  destruct (Counter_fold l [] r ltac:(constructor)) as (_ & _ & H).
  rewrite H. simpl. tauto.
Qed.

End CounterKeys.

Section BuilderOutput.

Variable cfg : config.
Variables ed1 ed2 : string -> list string.

(** A call that returns: the reads it has dispatched, the edges it has
    gathered, and the graph it returns. *)
Lemma generate_graph_output (records : list (string * string)) (edit_dis : Z)
    (events : list event) (out : graph_output) :
  generate_graph cfg ed1 ed2 records edit_dis = (events, Ok out) ->
  exists high low es,
    (forall r, In r high <->
       In r (map snd records) /\
       high_freq_thre cfg <= occurrences r (map snd records)) /\
    (forall r, In r low <->
       In r (map snd records) /\
       occurrences r (map snd records) < high_freq_thre cfg) /\
    NoDup high /\
    events = map Dispatch high /\
    ((edit_dis = 1 /\
      es = flat_map (real_ed1_seqs ed1 (set_of String.eqb (map snd records))) high)
     \/ (edit_dis = 2 /\ es = flat_map (real_ed2_seqs ed2 low) high)) /\
    out_graph out =
      Nx.add_edges_from
        (map (fun p => (fst p, fresh_node (snd p) [])) (Counter (map snd records)))
        es /\
    out_unique_seqs out = set_of String.eqb (map snd records) /\
    (edit_dis = 1 ->
     out_seqs2id_dict out =
       Some (fold_left (fun d item => setdefault_append d (snd item) (fst item))
                       records [])).
Proof.
  unfold generate_graph.
  destruct (count_loop cfg (Counter (map snd records)) ([], [], []))
    as [[graph high] low] eqn:Ecl.
  destruct (count_loop_partition cfg _ _ _ _ Ecl) as (Hhigh & Hlow & _).
  pose proof (count_loop_spec cfg _ _ _ _ _ _ _ Ecl) as (Eh & _ & _).
  pose proof (count_loop_graph cfg _ _ _ _ _ _ _ (Counter_NoDup _)
                (fun r _ (H : In r (Nx.nodes [])) => H) Ecl) as Eg.
  simpl in Eh, Eg.
  assert (Hnd : NoDup high).
  { rewrite Eh. apply filter_keys_NoDup, Counter_NoDup. }
  assert (Hes : forall es : list (string * string),
            (if 0 <? Z.of_nat (List.length es)
             then Nx.add_edges_from graph es else graph) =
            Nx.add_edges_from graph es).
  { intros [|e es]; reflexivity. }
  destruct (Z.eqb_spec (Z.of_nat (List.length high)) 0); [discriminate|].
  destruct (Z.eqb_spec edit_dis 1) as [->|N1].
  - unfold pool_imap. cbn beta iota. rewrite Hes. intros [= <- <-].
    exists high, low. eexists.
    split; [exact Hhigh|]. split; [exact Hlow|]. split; [exact Hnd|].
    split; [reflexivity|]. split; [left; split; reflexivity|].
    cbn [out_graph out_unique_seqs out_seqs2id_dict]. rewrite Eg.
    split; [reflexivity|]. split; reflexivity.
  - destruct (Z.eqb_spec edit_dis 2) as [->|N2]; [|discriminate].
    unfold pool_imap. cbn beta iota. rewrite Hes. intros [= <- <-].
    exists high, low. eexists.
    split; [exact Hhigh|]. split; [exact Hlow|]. split; [exact Hnd|].
    split; [reflexivity|]. split; [right; split; reflexivity|].
    cbn [out_graph out_unique_seqs out_seqs2id_dict]. rewrite Eg.
    split; [reflexivity|]. split; [reflexivity|]. intros; lia.
Qed.

End BuilderOutput.

Section BuilderNodes.

Variable cfg : config.
Variables ed1 ed2 : string -> list string.

Lemma lookup_fresh (rc : list (string * Z)) (r : string) (n : Z) :
  NoDup (map fst rc) -> In (r, n) rc ->
  Nx.lookup (map (fun p => (fst p, fresh_node (snd p) [])) rc) r =
    Some (fresh_node n []).
Proof.
  induction rc as [|[k m] rc IH]; simpl; intros Hnd Hin; [contradiction|].
  inversion Hnd as [|? ? Hk Hrc]; subst.
  destruct Hin as [[= -> ->]|Hin].
  - rewrite String.eqb_refl. reflexivity.
  - destruct (String.eqb_spec k r) as [->|_]; [|apply IH; assumption].
    exfalso. apply Hk. apply (in_map fst) in Hin. exact Hin.
Qed.

(** The node keys and attributes of the returned graph are those of the
    counter: adding the edges has created no node and touched no
    attribute. *)
Lemma generate_graph_attributes (records : list (string * string)) (edit_dis : Z)
    (events : list event) (out : graph_output) :
  generate_graph cfg ed1 ed2 records edit_dis = (events, Ok out) ->
  attributes (out_graph out) =
    map (fun p => (fst p, (Some (snd p), Some false))) (Counter (map snd records)).
Proof.
  intros H. apply generate_graph_output in H.
  destruct H as (high & low & es & Hhigh & Hlow & _ & _ & Hes & -> & _ & _).
  rewrite add_edges_from_attributes.
  - unfold attributes. rewrite map_map. reflexivity.
  - intros u v Huv. unfold Nx.nodes. rewrite map_map. simpl.
    change (map (fun x : string * Z => fst x) (Counter (map snd records)))
      with (map fst (Counter (map snd records))).
    rewrite !Counter_keys.
    destruct Hes as [[_ ->]|[_ ->]].
    + apply real_ed1_seqs_in in Huv. destruct Huv as (Hu & Hv & _).
      apply Hhigh in Hu. apply set_of_in in Hv. tauto.
    + apply real_ed2_seqs_in in Huv. destruct Huv as (Hu & Hv & _).
      apply Hhigh in Hu. apply Hlow in Hv. tauto.
Qed.

End BuilderNodes.

(** X7.  The graph that [generate_graph] returns has exactly the distinct
    reads of the input as its nodes, each once; the returned set of unique
    sequences has the same members; every node carries the number of
    occurrences of its read as [count] and [False] as [flag]. *)
Theorem generate_graph_nodes
    (cfg : config) (ed1 ed2 : string -> list string)
    (records : list (string * string)) (edit_dis : Z) (out : graph_output) :
  snd (generate_graph cfg ed1 ed2 records edit_dis) = Ok out ->
  NoDup (Nx.nodes (out_graph out)) /\
  (forall r, In r (Nx.nodes (out_graph out)) <-> In r (map snd records)) /\
  (forall r, In r (out_unique_seqs out) <-> In r (map snd records)) /\
  (forall r, In r (map snd records) ->
     Nx.node_count (out_graph out) r = Ok (occurrences r (map snd records)) /\
     Nx.node_flag (out_graph out) r = Ok false).
Proof.
  intros H.
  destruct (generate_graph cfg ed1 ed2 records edit_dis) as [events res] eqn:E.
  simpl in H. subst res.
  pose proof (generate_graph_attributes _ _ _ _ _ _ _ E) as Ha.
  destruct (generate_graph_output _ _ _ _ _ _ _ E)
    as (_ & _ & _ & _ & _ & _ & _ & _ & _ & Hu & _).
  assert (Hn : Nx.nodes (out_graph out) = map fst (Counter (map snd records))).
  { rewrite nodes_attributes, Ha, map_map. reflexivity. }
  set (g0 := map (fun p : string * Z => (fst p, fresh_node (snd p) []))
                 (Counter (map snd records))).
  assert (Ha0 : attributes (out_graph out) = attributes g0).
  { rewrite Ha. unfold g0, attributes. rewrite map_map. reflexivity. }
  split; [rewrite Hn; apply Counter_NoDup|].
  split; [intros r; rewrite Hn; apply Counter_keys|].
  split.
  { intros r. rewrite Hu. split; [apply set_of_in|apply set_of_intro]. }
  intros r Hr.
  rewrite (node_count_attributes _ _ r Ha0), (node_flag_attributes _ _ r Ha0).
  assert (Hl : Nx.lookup g0 r =
               Some (fresh_node (occurrences r (map snd records)) [])).
  { apply lookup_fresh; [apply Counter_NoDup|]. apply Counter_spec. auto. }
  unfold Nx.node_count, Nx.node_flag. rewrite Hl. split; reflexivity.
Qed.

Lemma generate_graph_nodes_witness :
  NoDup (Nx.nodes (out_graph small_output)) /\
  (forall r, In r (Nx.nodes (out_graph small_output)) <->
             In r (map snd small_records)) /\
  (forall r, In r (out_unique_seqs small_output) <-> In r (map snd small_records)) /\
  (forall r, In r (map snd small_records) ->
     Nx.node_count (out_graph small_output) r =
       Ok (occurrences r (map snd small_records)) /\
     Nx.node_flag (out_graph small_output) r = Ok false).
Proof.
  apply (generate_graph_nodes small_config enumerate_ed1_seqs enumerate_ed2_seqs
           small_records 1 small_output).
  vm_compute. reflexivity.
Defined.

Section BuilderAdjacency.

Variable cfg : config.
Variables ed1 ed2 : string -> list string.

Lemma fresh_nodes_not_adjacent (rc : list (string * Z)) (u v : string) :
  ~ adjacent (map (fun p => (fst p, fresh_node (snd p) [])) rc) u v.
Proof.
  intros (d & Hin & Hv). apply in_map_iff in Hin.
  destruct Hin as (p & [= _ <-] & _). destruct Hv.
Qed.

Lemma In_lookup (g : Nx.graph) (n : string) (d : Nx.node_data) :
  NoDup (Nx.nodes g) -> In (n, d) g -> Nx.lookup g n = Some d.
Proof.
  induction g as [|[k d'] g IH]; simpl; intros Hnd Hin; [contradiction|].
  inversion Hnd as [|? ? Hk Hg]; subst.
  destruct Hin as [[= -> ->]|Hin].
  - rewrite String.eqb_refl. reflexivity.
  - destruct (String.eqb_spec k n) as [->|_]; [|apply IH; assumption].
    exfalso. apply Hk. apply (in_map fst) in Hin. exact Hin.
Qed.

(** Adjacency in the returned graph: both ends are reads of the input, one
    of them was dispatched and the other is in its gathered neighbourhood;
    and adjacency goes both ways. *)
Lemma generate_graph_adjacent (records : list (string * string)) (edit_dis : Z)
    (events : list event) (out : graph_output) (u v : string) :
  generate_graph cfg ed1 ed2 records edit_dis = (events, Ok out) ->
  adjacent (out_graph out) u v ->
  In u (map snd records) /\ In v (map snd records) /\
  adjacent (out_graph out) v u.
Proof.
  intros E H. apply generate_graph_output in E.
  destruct E as (high & low & es & Hhigh & Hlow & _ & _ & Hes & Eg & _ & _).
  rewrite Eg in *.
  assert (Hends : forall a b, In (a, b) es ->
            In a (map snd records) /\ In b (map snd records)).
  { intros a b Hab. destruct Hes as [[_ ->]|[_ ->]].
    - apply real_ed1_seqs_in in Hab. destruct Hab as (Ha & Hb & _).
      apply Hhigh in Ha. apply set_of_in in Hb. tauto.
    - apply real_ed2_seqs_in in Hab. destruct Hab as (Ha & Hb & _).
      apply Hhigh in Ha. apply Hlow in Hb. tauto. }
  apply add_edges_from_adjacent in H. destruct H as [H|[H|H]].
  - destruct (fresh_nodes_not_adjacent _ _ _ H).
  - destruct (Hends _ _ H) as [Hu Hv].
    split; [exact Hu|]. split; [exact Hv|]. apply (add_edges_from_adds es _ u v H).
  - destruct (Hends _ _ H) as [Hv Hu].
    split; [exact Hu|]. split; [exact Hv|]. apply (add_edges_from_adds es _ v u H).
Qed.

Lemma NoDup_map_Dispatch (l : list string) : NoDup l -> NoDup (map Dispatch l).
Proof.
  induction l as [|x l IH]; simpl; intros H; [constructor|].
  inversion H as [|? ? Hx Hl]; subst. constructor; [|apply IH, Hl].
  intros Hin. apply in_map_iff in Hin. destruct Hin as (y & [= ->] & Hy).
  contradiction.
Qed.

Lemma built_graph_nodes (records : list (string * string)) (edit_dis : Z)
    (events : list event) (out : graph_output) :
  generate_graph cfg ed1 ed2 records edit_dis = (events, Ok out) ->
  Nx.nodes (out_graph out) = map fst (Counter (map snd records)).
Proof.
  intros E. pose proof (generate_graph_attributes _ _ _ _ _ _ _ E) as Ha.
  rewrite nodes_attributes, Ha, map_map. reflexivity.
Qed.

Lemma built_graph_wf (records : list (string * string)) (edit_dis : Z)
    (events : list event) (out : graph_output) :
  generate_graph cfg ed1 ed2 records edit_dis = (events, Ok out) ->
  Nx.wf_graph (out_graph out) = true.
Proof.
  intros E. pose proof (generate_graph_attributes _ _ _ _ _ _ _ E) as Ha.
  pose proof (built_graph_nodes _ _ _ _ E) as Hn.
  unfold Nx.wf_graph. apply andb_true_iff. split.
  - apply distinct_NoDup. rewrite Hn. apply Counter_NoDup.
  - apply forallb_forall. intros [k d] Hkd. simpl.
    assert (Hattr : In (k, (Nx.attr_count d, Nx.attr_flag d))
                       (attributes (out_graph out))).
    { unfold attributes. apply in_map_iff. exists (k, d). auto. }
    rewrite Ha in Hattr. apply in_map_iff in Hattr.
    destruct Hattr as (p & [= _ <- <-] & _).
    apply forallb_forall. intros v Hv.
    assert (Hadj : adjacent (out_graph out) k v) by (exists d; auto).
    destruct (generate_graph_adjacent _ _ _ _ _ _ E Hadj) as (_ & Hin & _).
    apply has_node_in. rewrite Hn. apply Counter_keys, Hin.
Qed.

End BuilderAdjacency.

(** X8.  The graph that [generate_graph] returns is well formed: its node
    keys are distinct, every node has a [count] and a [flag], and every
    neighbour of a node is itself a node; and it is undirected: a read is
    among the neighbours of another exactly when that one is among its
    own. *)
Theorem generate_graph_well_formed
    (cfg : config) (ed1 ed2 : string -> list string)
    (records : list (string * string)) (edit_dis : Z) (out : graph_output) :
  snd (generate_graph cfg ed1 ed2 records edit_dis) = Ok out ->
  Nx.wf_graph (out_graph out) = true /\
  (forall u v, adjacent (out_graph out) u v -> adjacent (out_graph out) v u).
Proof.
  intros H.
  destruct (generate_graph cfg ed1 ed2 records edit_dis) as [events res] eqn:E.
  simpl in H. subst res. split.
  - apply (built_graph_wf _ _ _ _ _ _ _ E).
  - intros u v Huv.
    apply (generate_graph_adjacent _ _ _ _ _ _ _ _ _ E Huv).
Qed.

Lemma generate_graph_well_formed_witness :
  Nx.wf_graph (out_graph small_output) = true /\
  (forall u v, adjacent (out_graph small_output) u v ->
               adjacent (out_graph small_output) v u).
Proof.
  apply (generate_graph_well_formed small_config enumerate_ed1_seqs
           enumerate_ed2_seqs small_records 1 small_output).
  vm_compute. reflexivity.
Defined.

(** X9.  [generate_graph] leaves out no edge: a high-frequency read and a
    read of the input that is in its enumerated neighbourhood (and, in
    edit-distance-2 mode, is low-frequency) are neighbours of each other in
    the returned graph. *)
Theorem generate_graph_edges_complete
    (cfg : config) (ed1 ed2 : string -> list string)
    (records : list (string * string)) (edit_dis : Z) (out : graph_output)
    (read nb : string) :
  snd (generate_graph cfg ed1 ed2 records edit_dis) = Ok out ->
  In read (map snd records) ->
  high_freq_thre cfg <= occurrences read (map snd records) ->
  In nb (map snd records) ->
  (edit_dis = 1 /\ In nb (ed1 read)) \/
  (edit_dis = 2 /\ In nb (ed2 read) /\
   occurrences nb (map snd records) < high_freq_thre cfg) ->
  exists neis neis',
    Nx.neighbors (out_graph out) read = Ok neis /\ In nb neis /\
    Nx.neighbors (out_graph out) nb = Ok neis' /\ In read neis'.
Proof.
  intros H Hread Hhf Hnb Hmode.
  destruct (generate_graph cfg ed1 ed2 records edit_dis) as [events res] eqn:E.
  simpl in H. subst res.
  pose proof (generate_graph_attributes _ _ _ _ _ _ _ E) as Ha.
  assert (Hnd : NoDup (Nx.nodes (out_graph out))).
  { rewrite nodes_attributes, Ha, map_map. apply Counter_NoDup. }
  destruct (generate_graph_output _ _ _ _ _ _ _ E)
    as (high & low & es & Hhigh & Hlow & _ & _ & Hes & Eg & _ & _).
  assert (Hin : In (read, nb) es).
  { destruct Hes as [[E1 ->]|[E2 ->]]; destruct Hmode as [[M He]|[M [He Hl]]];
      try lia.
    - apply real_ed1_seqs_intro; [apply Hhigh; auto|apply set_of_intro, Hnb|exact He].
    - apply real_ed2_seqs_intro; [apply Hhigh; auto|apply Hlow; auto|exact He]. }
  destruct (add_edges_from_adds es
              (map (fun p => (fst p, fresh_node (snd p) []))
                   (Counter (map snd records))) read nb Hin)
    as [(d & Hd & Hv) (d' & Hd' & Hv')].
  rewrite <- Eg in Hd, Hd'.
  exists (Nx.adj d), (Nx.adj d'). unfold Nx.neighbors.
  rewrite (In_lookup _ _ _ Hnd Hd), (In_lookup _ _ _ Hnd Hd'). auto.
Qed.

Lemma generate_graph_edges_complete_witness :
  exists neis neis',
    Nx.neighbors (out_graph small_output) "AAAA" = Ok neis /\ In "AAAC" neis /\
    Nx.neighbors (out_graph small_output) "AAAC" = Ok neis' /\ In "AAAA" neis'.
Proof.
  apply (generate_graph_edges_complete small_config enumerate_ed1_seqs
           enumerate_ed2_seqs small_records 1 small_output "AAAA" "AAAC").
  - vm_compute. reflexivity.
  - simpl. tauto.
  - vm_compute. discriminate.
  - simpl. tauto.
  - left. split; [reflexivity|]. vm_compute. tauto.
Defined.

(** X10.  A call of [generate_graph] that returns has handed the worker
    pool one task for every high-frequency read, none for any other read and
    none twice. *)
Theorem generate_graph_dispatch
    (cfg : config) (ed1 ed2 : string -> list string)
    (records : list (string * string)) (edit_dis : Z) (out : graph_output) :
  snd (generate_graph cfg ed1 ed2 records edit_dis) = Ok out ->
  NoDup (fst (generate_graph cfg ed1 ed2 records edit_dis)) /\
  forall read,
    In (Dispatch read) (fst (generate_graph cfg ed1 ed2 records edit_dis)) <->
    In read (map snd records) /\
    high_freq_thre cfg <= occurrences read (map snd records).
Proof.
  intros H.
  destruct (generate_graph cfg ed1 ed2 records edit_dis) as [events res] eqn:E.
  simpl in H. subst res. simpl.
  destruct (generate_graph_output _ _ _ _ _ _ _ E)
    as (high & low & es & Hhigh & _ & Hnd & -> & _).
  split; [apply NoDup_map_Dispatch, Hnd|].
  intros read. rewrite <- Hhigh. rewrite in_map_iff. split.
  - intros (r & [= ->] & Hr). exact Hr.
  - intros Hr. exists read. auto.
Qed.

Lemma generate_graph_dispatch_witness :
  NoDup (fst (generate_graph small_config enumerate_ed1_seqs enumerate_ed2_seqs
                small_records 1)) /\
  forall read,
    In (Dispatch read)
       (fst (generate_graph small_config enumerate_ed1_seqs enumerate_ed2_seqs
               small_records 1)) <->
    In read (map snd small_records) /\
    high_freq_thre small_config <= occurrences read (map snd small_records).
Proof.
  apply (generate_graph_dispatch small_config enumerate_ed1_seqs
           enumerate_ed2_seqs small_records 1 small_output).
  vm_compute. reflexivity.
Defined.

Section Seqs2Id.

Lemma dict_get_setdefault_append (d : list (string * list string))
    (k id seq : string) :
  dict_get (setdefault_append d k id) seq =
  if String.eqb k seq
  then Some (match dict_get d seq with Some ids => ids ++ [id] | None => [id] end)
  else dict_get d seq.
Proof.
  induction d as [|[k' ids] d IH]; simpl.
  - destruct (String.eqb k seq); reflexivity.
  - destruct (String.eqb_spec k' k) as [->|Hk]; simpl.
    + destruct (String.eqb k seq); reflexivity.
    + destruct (String.eqb_spec k' seq) as [->|Hs].
      * destruct (String.eqb_spec k seq); [congruence|reflexivity].
      * exact IH.
Qed.

(** The dictionary after the loop over the records: under each sequence,
    what was there before followed by the identifiers of its records. *)
Lemma seqs2id_dict_fold (records : list (string * string)) (seq : string) :
  forall d,
    dict_get (fold_left (fun d item => setdefault_append d (snd item) (fst item))
                        records d) seq =
    match dict_get d seq, ids_of seq records with
    | Some ids, new => Some (ids ++ new)
    | None, [] => None
    | None, new => Some new
    end.
Proof.
  induction records as [|[id s] records IH]; intros d; simpl.
  - destruct (dict_get d seq); [rewrite app_nil_r|]; reflexivity.
  - rewrite IH, dict_get_setdefault_append. unfold ids_of. simpl.
    destruct (String.eqb s seq); simpl.
    + destruct (dict_get d seq); [rewrite <- app_assoc|]; reflexivity.
    + reflexivity.
Qed.

Lemma ids_of_nil (records : list (string * string)) (seq : string) :
  ids_of seq records = [] <-> ~ In seq (map snd records).
Proof.
  unfold ids_of. induction records as [|[id s] records IH]; simpl; [tauto|].
  destruct (String.eqb_spec s seq) as [->|Hs]; simpl.
  - split; [discriminate|tauto].
  - rewrite IH. tauto.
Qed.

End Seqs2Id.

(** X11.  In edit-distance-1 mode the dictionary that [generate_graph]
    returns maps every read of the input to the identifiers of the records
    that carry it, in input order, and has no other key. *)
Theorem generate_graph_seqs2id_dict
    (cfg : config) (ed1 ed2 : string -> list string)
    (records : list (string * string)) (out : graph_output) :
  snd (generate_graph cfg ed1 ed2 records 1) = Ok out ->
  exists seqs2id_dict,
    out_seqs2id_dict out = Some seqs2id_dict /\
    (forall seq, In seq (map snd records) ->
       dict_get seqs2id_dict seq = Some (ids_of seq records)) /\
    (forall seq, ~ In seq (map snd records) -> dict_get seqs2id_dict seq = None).
Proof.
  intros H.
  destruct (generate_graph cfg ed1 ed2 records 1) as [events res] eqn:E.
  simpl in H. subst res.
  destruct (generate_graph_output _ _ _ _ _ _ _ E)
    as (_ & _ & _ & _ & _ & _ & _ & _ & _ & _ & Hd).
  eexists. split; [apply Hd; reflexivity|].
  split; intros seq Hseq; rewrite seqs2id_dict_fold; simpl.
  - destruct (ids_of seq records) eqn:Ei; [|reflexivity].
    apply ids_of_nil in Ei. contradiction.
  - apply ids_of_nil in Hseq. rewrite Hseq. reflexivity.
Qed.

Lemma generate_graph_seqs2id_dict_witness :
  exists seqs2id_dict,
    out_seqs2id_dict small_output = Some seqs2id_dict /\
    (forall seq, In seq (map snd small_records) ->
       dict_get seqs2id_dict seq = Some (ids_of seq small_records)) /\
    (forall seq, ~ In seq (map snd small_records) ->
       dict_get seqs2id_dict seq = None).
Proof.
  apply (generate_graph_seqs2id_dict small_config enumerate_ed1_seqs
           enumerate_ed2_seqs small_records small_output).
  vm_compute. reflexivity.
Defined.

(** ** Merging the passes *)

Section Merge.

Variable cfg : config.

Lemma number_groups_numbered (groups : list (list row)) :
  forall idx df, number_groups groups idx df = df ++ numbered idx groups.
Proof.
  induction groups as [|grp groups IH]; intros idx df; simpl.
  - rewrite app_nil_r. reflexivity.
  - rewrite IH, <- app_assoc. reflexivity.
Qed.

(** What the merging loop has gathered: every genuine row of every pass,
    and the groups of those passes only that returned a genuine row. *)
Lemma gather_results_spec (shared_obs : list Nx.graph * Z) (indices : list Z) :
  forall gen ambi gen' ambi',
    gather_results cfg shared_obs indices gen ambi = Ok (gen', ambi') ->
    exists results,
      Forall2 (fun ii res => exists sub_graphs',
                 extract_genuine_ambi_errs_subgraph cfg shared_obs ii =
                   Ok (res, sub_graphs')) indices results /\
      gen' = gen ++ List.concat (map fst results) /\
      ambi' = ambi ++ List.concat (map snd (filter has_genuine results)).
Proof.
  induction indices as [|ii indices IH]; intros gen ambi gen' ambi' H;
    cbn [gather_results] in H.
  - injection H as <- <-. exists []. simpl. rewrite !app_nil_r.
    split; [constructor|]. split; reflexivity.
  - destruct (extract_genuine_ambi_errs_subgraph cfg shared_obs ii)
      as [[[g a] subs']|] eqn:E; [|discriminate].
    cbn [bind fst snd] in H.
    destruct g as [|r g].
    + apply IH in H. destruct H as (results & HF & -> & ->).
      exists (([], a) :: results). simpl.
      split; [constructor; [exists subs'; exact E|exact HF]|].
      split; reflexivity.
    + apply IH in H. destruct H as (results & HF & -> & ->).
      exists ((r :: g, a) :: results).
      split; [constructor; [exists subs'; exact E|exact HF]|].
      cbn [map fst snd List.concat filter has_genuine].
      rewrite <- !app_assoc. split; reflexivity.
Qed.

Lemma finish_line_width (edit_dis : Z) (p n : string) (pc pd c d : Z) (r : row) :
  finish_line edit_dis [PStr p; PInt pc; PInt pd; PStr n; PInt c; PInt d] = Ok r ->
  List.length r = if edit_dis =? 1 then 10%nat else 6%nat.
Proof.
  unfold finish_line. destruct (edit_dis =? 1).
  - intros H. apply err_type_classification_shape in H.
    destruct H as (t & k1 & k2 & q & ->). reflexivity.
  - intros [= <-]. reflexivity.
Qed.

Lemma emitted_row_width (edit_dis : Z) (g : Nx.graph) (b : bool) (n : string)
    (r : row) :
  emitted_row cfg edit_dis g b n r ->
  List.length r = if edit_dis =? 1 then 10%nat else 6%nat.
Proof.
  intros (p & pc & pd & c & d & neis & Hr & _).
  exact (finish_line_width _ _ _ _ _ _ _ _ Hr).
Qed.

Lemma pass_widths (shared_obs : list Nx.graph * Z) (ii : Z)
    (res : list row * list (list row)) (sub_graphs' : list Nx.graph) :
  extract_genuine_ambi_errs_subgraph cfg shared_obs ii = Ok (res, sub_graphs') ->
  (forall r, In r (fst res) ->
     List.length r = if snd shared_obs =? 1 then 10%nat else 6%nat) /\
  (forall grp r, In grp (snd res) -> In r grp ->
     List.length r = if snd shared_obs =? 1 then 10%nat else 6%nat).
Proof.
  destruct shared_obs as [sub_graphs edit_dis].
  unfold extract_genuine_ambi_errs_subgraph. intros H.
  destruct (list_getitem sub_graphs ii) as [g|]; [|discriminate].
  cbn [bind] in H.
  destruct (classify_subgraph cfg edit_dis g) as [[[g' gen] ambi]|] eqn:Ec;
    [|discriminate].
  cbn [bind] in H. injection H as <- _.
  destruct (classify_subgraph_rows cfg edit_dis g g' gen ambi Ec) as [Hg Ha].
  simpl. split.
  - intros r Hr. rewrite Forall_forall in Hg. destruct (Hg r Hr) as [n Hn].
    exact (emitted_row_width _ _ _ _ _ Hn).
  - intros grp r Hgrp Hr. rewrite Forall_forall in Ha.
    destruct (Ha grp Hgrp) as (n & _ & Hrows). rewrite Forall_forall in Hrows.
    exact (emitted_row_width _ _ _ _ _ (Hrows r Hr)).
Qed.

Lemma numbered_in (groups : list (list row)) :
  forall idx r, In r (numbered idx groups) ->
    exists k grp r0, idx <= k /\ In grp groups /\ In r0 grp /\ r = PInt k :: r0.
Proof.
  induction groups as [|grp groups IH]; intros idx r H; simpl in H;
    [contradiction|].
  apply in_app_iff in H. destruct H as [H|H].
  - apply in_map_iff in H. destruct H as (r0 & <- & Hr0).
    exists idx, grp, r0. split; [lia|]. split; [left; reflexivity|]. auto.
  - apply IH in H. destruct H as (k & grp' & r0 & Hk & Hg & Hr0 & ->).
    exists k, grp', r0. split; [lia|]. split; [right; exact Hg|]. auto.
Qed.

End Merge.

(** X12.  What [extract_genuine_ambi_errs] returns, in terms of the passes
    over the subgraphs (each run on the subgraphs as handed in): the genuine
    frame holds the genuine rows of all passes, in order; the ambiguous
    frame holds the groups of those passes only that returned at least one
    genuine row, the groups of the other passes being dropped; and the
    groups kept are numbered 0, 1, 2, ... in order, every row carrying the
    number of its group in front. *)
Theorem extract_genuine_ambi_errs_merge
    (cfg : config) (subgraphs : list Nx.graph) (edit_dis : Z)
    (genuine_df ambiguous_df : frame) :
  extract_genuine_ambi_errs cfg subgraphs edit_dis = Ok (genuine_df, ambiguous_df) ->
  exists results,
    Forall2 (fun ii res => exists sub_graphs',
               extract_genuine_ambi_errs_subgraph cfg (subgraphs, edit_dis) ii =
                 Ok (res, sub_graphs'))
            (range (Z.of_nat (List.length subgraphs))) results /\
    snd genuine_df = List.concat (map fst results) /\
    snd ambiguous_df =
      numbered 0 (List.concat (map snd (filter has_genuine results))).
Proof.
  unfold extract_genuine_ambi_errs. intros H.
  destruct (gather_results cfg (subgraphs, edit_dis)
              (range (Z.of_nat (List.length subgraphs))) [] [])
    as [[gen ambi]|] eqn:Eg; [|discriminate].
  cbn [bind] in H.
  destruct (genu_columns edit_dis) as [gc|]; [|discriminate].
  destruct (ambiguous_columns edit_dis) as [ac|]; [|discriminate].
  injection H as <- <-.
  apply gather_results_spec in Eg. destruct Eg as (results & HF & -> & ->).
  exists results. split; [exact HF|]. split; [reflexivity|].
  cbn [snd app]. apply number_groups_numbered.
Qed.

Lemma extract_genuine_ambi_errs_merge_witness :
  exists results,
    Forall2 (fun ii res => exists sub_graphs',
               extract_genuine_ambi_errs_subgraph example_config
                 ([fork_example; ambiguous_example], 2) ii =
                 Ok (res, sub_graphs'))
            (range (Z.of_nat (List.length [fork_example; ambiguous_example])))
            results /\
    snd merged_example_genuine = List.concat (map fst results) /\
    snd merged_example_ambiguous =
      numbered 0 (List.concat (map snd (filter has_genuine results))).
Proof.
  apply (extract_genuine_ambi_errs_merge example_config
           [fork_example; ambiguous_example] 2).
  vm_compute. reflexivity.
Defined.

(** X13.  The rows that [extract_genuine_ambi_errs] returns fit the frames
    they are put in: every genuine row has as many values as there are
    genuine columns (ten in edit-distance-1 mode, six otherwise), the
    ambiguous columns are the genuine ones after ["idx"], and every
    ambiguous row has as many values as there are ambiguous columns. *)
Theorem extract_genuine_ambi_errs_widths
    (cfg : config) (subgraphs : list Nx.graph) (edit_dis : Z)
    (genuine_df ambiguous_df : frame) :
  extract_genuine_ambi_errs cfg subgraphs edit_dis = Ok (genuine_df, ambiguous_df) ->
  genu_columns edit_dis = Some (fst genuine_df) /\
  fst ambiguous_df = "idx" :: fst genuine_df /\
  (forall r, In r (snd genuine_df) ->
     List.length r = List.length (fst genuine_df)) /\
  (forall r, In r (snd ambiguous_df) ->
     List.length r = List.length (fst ambiguous_df)).
Proof.
  unfold extract_genuine_ambi_errs. intros H.
  destruct (gather_results cfg (subgraphs, edit_dis)
              (range (Z.of_nat (List.length subgraphs))) [] [])
    as [[gen ambi]|] eqn:Eg; [|discriminate].
  cbn [bind] in H.
  destruct (genu_columns edit_dis) as [gc|] eqn:Egc; [|discriminate].
  destruct (ambiguous_columns edit_dis) as [ac|] eqn:Eac; [|discriminate].
  injection H as <- <-. cbn [fst snd].
  apply gather_results_spec in Eg. destruct Eg as (results & HF & -> & ->).
  assert (Hw : List.length gc = (if edit_dis =? 1 then 10%nat else 6%nat) /\
               ac = "idx" :: gc).
  { unfold genu_columns, ambiguous_columns in Egc, Eac.
    destruct (edit_dis =? 1).
    - injection Egc as <-. injection Eac as <-. split; reflexivity.
    - destruct ((edit_dis =? 2) || (edit_dis =? 3)); [|discriminate].
      injection Egc as <-. injection Eac as <-. split; reflexivity. }
  destruct Hw as [Hgc ->].
  split; [reflexivity|]. split; [reflexivity|]. cbn [app]. split.
  - intros r Hr. apply in_concat in Hr. destruct Hr as (l & Hl & Hr).
    apply in_map_iff in Hl. destruct Hl as (res & <- & Hres).
    destruct (Forall2_in_r _ _ _ HF res Hres) as (ii & _ & subs' & E).
    rewrite Hgc. apply (proj1 (pass_widths cfg _ _ _ _ E)). exact Hr.
  - intros r Hr. rewrite number_groups_numbered in Hr. cbn [app] in Hr.
    apply numbered_in in Hr. destruct Hr as (k & grp & r0 & _ & Hgrp & Hr0 & ->).
    apply in_concat in Hgrp. destruct Hgrp as (l & Hl & Hgrp).
    apply in_map_iff in Hl. destruct Hl as (res & <- & Hres).
    apply filter_In in Hres. destruct Hres as [Hres _].
    destruct (Forall2_in_r _ _ _ HF res Hres) as (ii & _ & subs' & E).
    cbn [List.length]. rewrite Hgc. f_equal.
    apply (proj2 (pass_widths cfg _ _ _ _ E) grp r0); assumption.
Qed.

Lemma extract_genuine_ambi_errs_widths_witness :
  genu_columns 2 = Some (fst merged_example_genuine) /\
  fst merged_example_ambiguous = "idx" :: fst merged_example_genuine /\
  (forall r, In r (snd merged_example_genuine) ->
     List.length r = List.length (fst merged_example_genuine)) /\
  (forall r, In r (snd merged_example_ambiguous) ->
     List.length r = List.length (fst merged_example_ambiguous)).
Proof.
  apply (extract_genuine_ambi_errs_widths example_config
           [fork_example; ambiguous_example] 2).
  vm_compute. reflexivity.
Defined.

(** ** High-ambiguous pairs *)

Section HighAmbiguous.

Variable cfg : config.

Lemma number_pairs_app (rows1 rows2 : list row) :
  forall idx,
    number_pairs idx (rows1 ++ rows2) =
    number_pairs idx rows1 ++
    number_pairs (idx + Z.of_nat (List.length rows1)) rows2.
Proof.
  induction rows1 as [|r rows1 IH]; intros idx.
  - simpl. rewrite Z.add_0_r. reflexivity.
  - cbn [app number_pairs List.length]. rewrite IH.
    replace (idx + 1 + Z.of_nat (List.length rows1))
      with (idx + Z.of_nat (S (List.length rows1))) by lia.
    reflexivity.
Qed.

(** The loop over the edges of one subgraph: a mirrored pair of rows for
    every edge whose two ends have counts above the threshold. *)
Lemma high_ambiguous_edges_spec (s : Nx.graph) (es : list (string * string)) :
  forall df idx df' idx',
    for_each (high_ambiguous_edge cfg s) (df, idx) es = Ok (df', idx') ->
    exists rows,
      Forall2 pair_row (map (pair s) (filter (high_pair cfg s) es)) rows /\
      df' = df ++ number_pairs idx rows /\
      idx' = idx + Z.of_nat (List.length rows).
Proof.
  induction es as [|[a b] es IH]; intros df idx df' idx' H; cbn [for_each] in H.
  - injection H as <- <-. exists []. simpl. rewrite app_nil_r, Z.add_0_r.
    split; [constructor|]. split; reflexivity.
  - unfold high_ambiguous_edge at 1 in H.
    cbn [filter]. unfold high_pair at 1. cbn [fst snd].
    destruct (Nx.node_count s a) as [ca|] eqn:Eca; [|discriminate].
    cbn [bind] in H.
    destruct (Nx.node_count s b) as [cb|] eqn:Ecb; [|discriminate].
    cbn [bind] in H.
    destruct (Nx.degree s a) as [da|] eqn:Eda; [|discriminate]. cbn [bind] in H.
    destruct (Nx.degree s b) as [db|] eqn:Edb; [|discriminate]. cbn [bind] in H.
    destruct ((high_freq_thre cfg <? ca) && (high_freq_thre cfg <? cb)).
    + rewrite (annotator_mirror a b (PInt ca) (PInt da) (PInt cb) (PInt db)) in H.
      destruct (err_type_classification
                  [PStr a; PInt ca; PInt da; PStr b; PInt cb; PInt db])
        as [r|] eqn:Er; [|discriminate].
      cbn [bind] in H. apply IH in H. destruct H as (rows & HF & -> & ->).
      exists (r :: rows). split.
      * cbn [map]. constructor; [|exact HF].
        exists ca, da, cb, db. auto.
      * cbn [number_pairs List.length]. rewrite <- !app_assoc.
        split; [reflexivity|lia].
    + cbn [bind] in H. apply IH in H. exact H.
Qed.

Lemma high_ambiguous_subgraphs_spec (subgraphs : list Nx.graph) :
  forall df idx df' idx',
    for_each (high_ambiguous_subgraph cfg) (df, idx) subgraphs = Ok (df', idx') ->
    exists rows,
      Forall2 pair_row (high_edges cfg subgraphs) rows /\
      df' = df ++ number_pairs idx rows /\
      idx' = idx + Z.of_nat (List.length rows).
Proof.
  induction subgraphs as [|s subgraphs IH]; intros df idx df' idx' H;
    cbn [for_each] in H.
  - injection H as <- <-. exists []. simpl. rewrite app_nil_r, Z.add_0_r.
    split; [constructor|]. split; reflexivity.
  - destruct (high_ambiguous_subgraph cfg (df, idx) s) as [[df1 idx1]|] eqn:Es;
      [|discriminate].
    cbn [bind] in H.
    assert (Hs : exists rows,
              Forall2 pair_row (map (pair s) (filter (high_pair cfg s) (Nx.edges s)))
                      rows /\
              df1 = df ++ number_pairs idx rows /\
              idx1 = idx + Z.of_nat (List.length rows)).
    { unfold high_ambiguous_subgraph in Es.
      destruct (Nx.edges s) as [|e es] eqn:Ee.
      - simpl in Es. injection Es as <- <-. exists []. simpl.
        rewrite app_nil_r, Z.add_0_r. split; [constructor|]. split; reflexivity.
      - destruct (0 <? Z.of_nat (List.length (e :: es))) eqn:El;
          [|apply Z.ltb_ge in El; cbn [List.length] in El; lia].
        apply high_ambiguous_edges_spec in Es. exact Es. }
    destruct Hs as (rows1 & HF1 & -> & ->).
    apply IH in H. destruct H as (rows2 & HF2 & -> & ->).
    exists (rows1 ++ rows2). unfold high_edges. cbn [flat_map].
    split; [apply Forall2_app; assumption|].
    rewrite number_pairs_app, length_app, <- app_assoc. split; [reflexivity|lia].
Qed.

End HighAmbiguous.

(** X14.  [extract_high_ambiguous_errs] returns two rows for every edge
    whose two ends both have a count strictly above [high_freq_thre], and
    none for any other edge: the annotated line of the edge read from its
    first end to its second, followed by the mirror image of that row, both
    under the same [idx]; the pairs are numbered 0, 1, 2, ... in the order
    of the subgraphs and of their edges. *)
Theorem extract_high_ambiguous_errs_pairs
    (cfg : config) (subgraphs : list Nx.graph) (high_ambiguous_df : list row) :
  extract_high_ambiguous_errs cfg subgraphs = Ok high_ambiguous_df ->
  exists rows,
    Forall2 pair_row (high_edges cfg subgraphs) rows /\
    high_ambiguous_df = number_pairs 0 rows.
Proof.
  unfold extract_high_ambiguous_errs. intros H.
  destruct (for_each (high_ambiguous_subgraph cfg) ([], 0) subgraphs)
    as [[df idx]|] eqn:E; [|discriminate].
  cbn [bind] in H. injection H as <-.
  apply high_ambiguous_subgraphs_spec in E.
  destruct E as (rows & HF & -> & _). exists rows. split; [exact HF|reflexivity].
Qed.

Lemma extract_high_ambiguous_errs_pairs_witness :
  exists rows,
    Forall2 pair_row (high_edges example_config [twin_example; ambiguous_example])
            rows /\
    twin_example_rows = number_pairs 0 rows.
Proof.
  apply (extract_high_ambiguous_errs_pairs example_config
           [twin_example; ambiguous_example]).
  vm_compute. reflexivity.
Defined.

(** ** Amplicon errors *)

Section AmpliconReset.

Lemma set_flag_none (g : Nx.graph) (n : string) (b : bool) :
  Nx.lookup g n = None -> Nx.set_flag g n b = Raise KeyError.
Proof.
  induction g as [|[k d] g IH]; simpl; intros H; [reflexivity|].
  destruct (String.eqb k n); [discriminate|].
  rewrite (IH H). reflexivity.
Qed.

Lemma lookup_none_skeleton (g1 g2 : Nx.graph) (n : string) :
  skeleton g1 = skeleton g2 -> Nx.lookup g1 n = None -> Nx.lookup g2 n = None.
Proof.
  intros H E. apply (lookup_skeleton _ _ n) in H. rewrite E in H.
  destruct (Nx.lookup g2 n); [discriminate|reflexivity].
Qed.

Lemma set_flag_same (g1 g2 : Nx.graph) (n : string) (b : bool) :
  skeleton g1 = skeleton g2 ->
  same_outcome (fun a c => skeleton a = skeleton g1 /\ skeleton c = skeleton g2)
               (Nx.set_flag g1 n b) (Nx.set_flag g2 n b).
Proof.
  intros H. unfold same_outcome.
  destruct (Nx.lookup g1 n) as [d|] eqn:E1.
  - assert (E2 : Nx.lookup g2 n <> None).
    { intros E2. apply (lookup_none_skeleton g2 g1 n (eq_sym H)) in E2.
      congruence. }
    destruct (set_flag_total g1 n b) as [a Ea]; [congruence|].
    destruct (set_flag_total g2 n b E2) as [c Ec].
    rewrite Ea, Ec. split; eapply set_flag_skeleton; eassumption.
  - rewrite (set_flag_none _ _ _ E1).
    rewrite (set_flag_none _ _ _ (lookup_none_skeleton _ _ _ H E1)).
    reflexivity.
Qed.

Lemma reset_keeps (l : list string) (m : string) :
  forall g g',
    for_each (fun g node => Nx.set_flag g node false) g l = Ok g' ->
    Nx.node_flag g m = Ok false -> Nx.node_flag g' m = Ok false.
Proof.
  induction l as [|n l IH]; intros g g' H Hm; cbn [for_each] in H.
  - injection H as <-. exact Hm.
  - destruct (Nx.set_flag g n false) as [g1|] eqn:E; [|discriminate].
    cbn [bind] in H. apply (IH _ _ H).
    destruct (String.eqb_spec m n) as [->|Hne].
    + apply (set_flag_flag _ _ _ _ E).
    + rewrite (set_flag_flag_other _ _ _ _ _ E Hne). exact Hm.
Qed.

Lemma reset_loop_same (l : list string) :
  forall g1 g2,
    skeleton g1 = skeleton g2 ->
    same_outcome
      (fun a c => skeleton a = skeleton g1 /\ skeleton c = skeleton g2 /\
                  forall n, In n l ->
                    Nx.node_flag a n = Ok false /\ Nx.node_flag c n = Ok false)
      (for_each (fun g node => Nx.set_flag g node false) g1 l)
      (for_each (fun g node => Nx.set_flag g node false) g2 l).
Proof.
  induction l as [|n l IH]; intros g1 g2 H; cbn [for_each].
  - simpl. repeat split; try reflexivity; contradiction.
  - pose proof (set_flag_same g1 g2 n false H) as Hs. unfold same_outcome in Hs.
    destruct (Nx.set_flag g1 n false) as [a|] eqn:Ea,
             (Nx.set_flag g2 n false) as [c|] eqn:Ec;
      try contradiction; cbn [bind]; [|exact Hs].
    destruct Hs as [Ha Hc].
    assert (Hac : skeleton a = skeleton c) by congruence.
    specialize (IH a c Hac). unfold same_outcome in IH |- *.
    destruct (for_each _ a l) as [a'|] eqn:Ea',
             (for_each _ c l) as [c'|] eqn:Ec'; try contradiction; [|exact IH].
    destruct IH as (Ha' & Hc' & Hfl).
    split; [congruence|]. split; [congruence|].
    intros m [<-|Hm]; [|apply Hfl, Hm].
    split.
    + apply (reset_keeps _ _ _ _ Ea'), (set_flag_flag _ _ _ _ Ea).
    + apply (reset_keeps _ _ _ _ Ec'), (set_flag_flag _ _ _ _ Ec).
Qed.

Lemma node_flag_none (g : Nx.graph) (n : string) :
  ~ In n (Nx.nodes g) -> Nx.node_flag g n = Raise KeyError.
Proof.
  intros H. unfold Nx.node_flag.
  destruct (Nx.lookup g n) eqn:E; [|reflexivity].
  exfalso. apply H. apply lookup_in_nodes. congruence.
Qed.

(** The first loop takes two subgraphs that are alike up to flags to two
    subgraphs that the second loop cannot tell apart. *)
Lemma amplicon_reset_same (g1 g2 : Nx.graph) :
  skeleton g1 = skeleton g2 ->
  same_outcome reset_alike (amplicon_reset g1) (amplicon_reset g2).
Proof.
  intros H. unfold amplicon_reset.
  rewrite <- (edges_skeleton _ _ H), <- (nodes_skeleton _ _ H).
  destruct (Nx.edges g1) as [|e es] eqn:Ee.
  - simpl. split; [exact H|]. rewrite Ee. intros C. contradiction.
  - destruct (0 <? Z.of_nat (List.length (e :: es))) eqn:El;
      [|apply Z.ltb_ge in El; cbn [List.length] in El; lia].
    pose proof (reset_loop_same (Nx.nodes g1) g1 g2 H) as Hs.
    unfold same_outcome in Hs |- *.
    destruct (for_each _ g1 (Nx.nodes g1)) as [a|],
             (for_each _ g2 (Nx.nodes g1)) as [c|]; try contradiction;
      [|exact Hs].
    destruct Hs as (Ha & Hc & Hfl). split; [congruence|].
    intros _ n. destruct (in_dec string_dec n (Nx.nodes g1)) as [Hin|Hout].
    + destruct (Hfl n Hin) as [-> ->]. reflexivity.
    + rewrite !node_flag_none; [reflexivity| |].
      * rewrite (nodes_skeleton c g2 Hc), <- (nodes_skeleton g1 g2 H). exact Hout.
      * rewrite (nodes_skeleton a g1 Ha). exact Hout.
Qed.

Lemma amplicon_reset_all_same (subgraphs1 subgraphs2 : list Nx.graph) :
  Forall2 (fun g1 g2 => skeleton g1 = skeleton g2) subgraphs1 subgraphs2 ->
  same_outcome (Forall2 reset_alike)
               (amplicon_reset_all subgraphs1) (amplicon_reset_all subgraphs2).
Proof.
  intros HF. induction HF as [|g1 g2 l1 l2 Hg HF IH]; [constructor|].
  cbn [amplicon_reset_all].
  pose proof (amplicon_reset_same g1 g2 Hg) as Hs. unfold same_outcome in *.
  destruct (amplicon_reset g1) as [a|], (amplicon_reset g2) as [c|];
    try contradiction; cbn [bind]; [|exact Hs].
  destruct (amplicon_reset_all l1) as [l1'|], (amplicon_reset_all l2) as [l2'|];
    try contradiction; cbn [bind]; [|exact IH].
  constructor; assumption.
Qed.

End AmpliconReset.

Section AmpliconLoop.

Variable amplicon_low_freq : Z.
Variable amplicon_high_freq : Z.
Variable amplicon_error_node_degree : Z.

Lemma amplicon_neighbors_skeleton (g1 g2 : Nx.graph) (node : string)
    (c d idx : Z) (neis : list string) :
  skeleton g1 = skeleton g2 ->
  forall df,
    amplicon_neighbors amplicon_high_freq g1 node c d idx neis df =
    amplicon_neighbors amplicon_high_freq g2 node c d idx neis df.
Proof.
  intros H. induction neis as [|nei neis IH]; intros df; [reflexivity|].
  cbn [amplicon_neighbors].
  rewrite (node_count_skeleton _ _ nei H), (degree_skeleton _ _ nei H).
  destruct (Nx.node_count g2 nei) as [nc|]; [|reflexivity]. cbn [bind].
  destruct (Nx.degree g2 nei) as [nd|]; [|reflexivity]. cbn [bind].
  destruct (amplicon_high_freq <=? nc); [|apply IH].
  destruct (err_type_classification _); [|reflexivity]. cbn [bind]. apply IH.
Qed.

(** The loop body cannot tell apart two subgraphs with the same view. *)
Lemma amplicon_visit_node_same (g1 g2 : Nx.graph) (df : list row) (idx : Z)
    (node : string) :
  same_view g1 g2 ->
  same_outcome
    (fun st1 st2 => same_view (fst (fst st1)) (fst (fst st2)) /\
                    snd (fst st1) = snd (fst st2) /\ snd st1 = snd st2)
    (amplicon_visit_node amplicon_low_freq amplicon_high_freq
       amplicon_error_node_degree (g1, df, idx) node)
    (amplicon_visit_node amplicon_low_freq amplicon_high_freq
       amplicon_error_node_degree (g2, df, idx) node).
Proof.
  intros [Hsk Hfl]. unfold amplicon_visit_node.
  rewrite (node_count_skeleton _ _ node Hsk), (degree_skeleton _ _ node Hsk),
    (neighbors_skeleton _ _ node Hsk), (Hfl node).
  destruct (Nx.node_count g2 node) as [c|]; [|reflexivity]. cbn [bind].
  destruct (Nx.degree g2 node) as [d|]; [|reflexivity]. cbn [bind].
  assert (Hstay : same_outcome
            (fun st1 st2 : amplicon_state =>
               same_view (fst (fst st1)) (fst (fst st2)) /\
               snd (fst st1) = snd (fst st2) /\ snd st1 = snd st2)
            (Ok (g1, df, idx)) (Ok (g2, df, idx))).
  { simpl. repeat split; [exact Hsk|exact Hfl]. }
  destruct (c <=? amplicon_low_freq); cbn [bind]; [|exact Hstay].
  destruct (Nx.node_flag g2 node) as [f|]; [|reflexivity]. cbn [bind].
  destruct (negb f && (d <=? amplicon_error_node_degree)); [|exact Hstay].
  destruct (Nx.neighbors g2 node) as [neis|]; [|reflexivity]. cbn [bind].
  rewrite (amplicon_neighbors_skeleton g1 g2 node c d idx neis Hsk).
  destruct (amplicon_neighbors _ g2 _ _ _ _ _ _) as [df'|]; [|reflexivity].
  cbn [bind].
  pose proof (set_flag_same g1 g2 node true Hsk) as Hs. unfold same_outcome in Hs.
  destruct (Nx.set_flag g1 node true) as [a|] eqn:Ea,
           (Nx.set_flag g2 node true) as [b|] eqn:Eb;
    try contradiction; cbn [bind]; [|exact Hs].
  destruct Hs as [Ha Hb]. simpl. split; [|split; reflexivity].
  split; [congruence|]. intros m.
  destruct (String.eqb_spec m node) as [->|Hne].
  - rewrite (set_flag_flag _ _ _ _ Ea), (set_flag_flag _ _ _ _ Eb). reflexivity.
  - rewrite (set_flag_flag_other _ _ _ _ _ Ea Hne),
      (set_flag_flag_other _ _ _ _ _ Eb Hne). apply Hfl.
Qed.

Lemma amplicon_nodes_same (l : list string) :
  forall g1 g2 df idx,
    same_view g1 g2 ->
    same_outcome
      (fun st1 st2 => same_view (fst (fst st1)) (fst (fst st2)) /\
                      snd (fst st1) = snd (fst st2) /\ snd st1 = snd st2)
      (for_each (amplicon_visit_node amplicon_low_freq amplicon_high_freq
                   amplicon_error_node_degree) (g1, df, idx) l)
      (for_each (amplicon_visit_node amplicon_low_freq amplicon_high_freq
                   amplicon_error_node_degree) (g2, df, idx) l).
Proof.
  induction l as [|n l IH]; intros g1 g2 df idx Hv; cbn [for_each].
  - simpl. destruct Hv. repeat split; assumption.
  - pose proof (amplicon_visit_node_same g1 g2 df idx n Hv) as Hs.
    unfold same_outcome in Hs.
    destruct (amplicon_visit_node _ _ _ (g1, df, idx) n) as [[[a df1] i1]|],
             (amplicon_visit_node _ _ _ (g2, df, idx) n) as [[[b df2] i2]|];
      try contradiction; cbn [bind]; [|exact Hs].
    simpl in Hs. destruct Hs as (Hab & -> & ->). apply IH, Hab.
Qed.

Lemma amplicon_subgraph_same (g1 g2 : Nx.graph) (st : list row * Z) :
  reset_alike g1 g2 ->
  amplicon_subgraph amplicon_low_freq amplicon_high_freq
    amplicon_error_node_degree st g1 =
  amplicon_subgraph amplicon_low_freq amplicon_high_freq
    amplicon_error_node_degree st g2.
Proof.
  intros [Hsk Hfl]. destruct st as [df idx]. unfold amplicon_subgraph.
  rewrite <- (edges_skeleton _ _ Hsk), <- (nodes_skeleton _ _ Hsk).
  destruct (Nx.edges g1) as [|e es] eqn:Ee; [reflexivity|].
  destruct (0 <? Z.of_nat (List.length (e :: es))); [|reflexivity].
  assert (Hv : same_view g1 g2) by (split; [exact Hsk|apply Hfl; discriminate]).
  pose proof (amplicon_nodes_same (Nx.nodes g1) g1 g2 df idx Hv) as Hs.
  unfold same_outcome in Hs.
  set (body := amplicon_visit_node amplicon_low_freq amplicon_high_freq
                 amplicon_error_node_degree) in *.
  destruct (for_each body (g1, df, idx) (Nx.nodes g1)) as [[[a df1] i1]|],
           (for_each body (g2, df, idx) (Nx.nodes g1)) as [[[b df2] i2]|];
    try contradiction; cbn [bind].
  - simpl in Hs. destruct Hs as (_ & -> & ->). reflexivity.
  - congruence.
Qed.

Lemma amplicon_subgraphs_same (subgraphs1 subgraphs2 : list Nx.graph) :
  Forall2 reset_alike subgraphs1 subgraphs2 ->
  forall st,
    for_each (amplicon_subgraph amplicon_low_freq amplicon_high_freq
                amplicon_error_node_degree) st subgraphs1 =
    for_each (amplicon_subgraph amplicon_low_freq amplicon_high_freq
                amplicon_error_node_degree) st subgraphs2.
Proof.
  intros HF. induction HF as [|g1 g2 l1 l2 Hg HF IH]; intros st; [reflexivity|].
  cbn [for_each]. rewrite (amplicon_subgraph_same g1 g2 st Hg).
  destruct (amplicon_subgraph _ _ _ st g2) as [st'|]; [|reflexivity].
  cbn [bind]. apply IH.
Qed.

End AmpliconLoop.

(** X15.  The outcome of [extract_amplicon_err_samples] does not depend on
    the flags that earlier passes have left in the subgraphs: two lists of
    subgraphs with the same node keys, counts and adjacency give the same
    rows, or the same exception, whatever their flags are. *)
Theorem extract_amplicon_err_samples_flags
    (amplicon_low_freq amplicon_high_freq amplicon_error_node_degree : Z)
    (subgraphs1 subgraphs2 : list Nx.graph) :
  Forall2 (fun g1 g2 => skeleton g1 = skeleton g2) subgraphs1 subgraphs2 ->
  extract_amplicon_err_samples amplicon_low_freq amplicon_high_freq
    amplicon_error_node_degree subgraphs1 =
  extract_amplicon_err_samples amplicon_low_freq amplicon_high_freq
    amplicon_error_node_degree subgraphs2.
Proof.
  intros HF. unfold extract_amplicon_err_samples.
  pose proof (amplicon_reset_all_same _ _ HF) as Hs. unfold same_outcome in Hs.
  destruct (amplicon_reset_all subgraphs1) as [l1|],
           (amplicon_reset_all subgraphs2) as [l2|];
    try contradiction; cbn [bind]; [|congruence].
  rewrite (amplicon_subgraphs_same _ _ _ _ _ Hs). reflexivity.
Qed.

Lemma extract_amplicon_err_samples_flags_witness :
  extract_amplicon_err_samples 3 50 4 [star_example_visited; lone_example] =
  extract_amplicon_err_samples 3 50 4 [star_example; lone_example].
Proof.
  apply (extract_amplicon_err_samples_flags 3 50 4).
  repeat constructor.
Defined.

(** ** Isolates *)

Section IsolateNames.

Lemma dict_getitem_get {V : Type} (d : list (string * V)) (k : string) :
  dict_getitem d k = match dict_get d k with
                     | Some v => Ok v
                     | None => Raise KeyError
                     end.
Proof.
  induction d as [|[k' v] d IH]; simpl; [reflexivity|].
  destruct (String.eqb k' k); [reflexivity|exact IH].
Qed.

(** A loop over keys that are all in the dictionary gathers their lists. *)
Lemma extend_names_spec (d : list (string * list string))
    (f : string -> list string) (keys : list string) :
  (forall k, In k keys -> dict_get d k = Some (f k)) ->
  forall acc, extend_names d keys acc = Ok (acc ++ flat_map f keys).
Proof.
  induction keys as [|k keys IH]; intros H acc; simpl.
  - rewrite app_nil_r. reflexivity.
  - rewrite dict_getitem_get, (H k (or_introl eq_refl)). cbn [bind].
    rewrite IH by (intros k' Hk'; apply H; right; exact Hk').
    rewrite <- app_assoc. reflexivity.
Qed.

Lemma ids_of_in (records : list (string * string)) (seq id : string) :
  In id (ids_of seq records) <-> In (id, seq) records.
Proof.
  unfold ids_of. rewrite in_map_iff. split.
  - intros ([id' s] & <- & H). apply filter_In in H. destruct H as [H E].
    simpl in E. apply String.eqb_eq in E. subst s. exact H.
  - intros H. exists (id, seq). split; [reflexivity|].
    apply filter_In. split; [exact H|]. simpl. apply String.eqb_refl.
Qed.

Lemma set_of_NoDup (l : list string) : NoDup (set_of String.eqb l).
Proof.
  induction l as [|x l IH]; simpl; [constructor|].
  constructor; [|apply NoDup_filter, IH].
  intros H. apply filter_In in H. destruct H as [_ H]. cbv beta in H.
  rewrite String.eqb_refl in H. discriminate.
Qed.

(** The identifiers gathered over distinct sequences are as many as the
    records that carry one of those sequences. *)
Lemma ids_of_count (records : list (string * string)) (keys : list string) :
  NoDup keys ->
  List.length (flat_map (fun seq => ids_of seq records) keys) =
  List.length (filter (fun item => Nx.mem (snd item) keys) records).
Proof.
  intros Hnd. induction records as [|[id s] records IH].
  - simpl. induction keys as [|k keys IHk]; [reflexivity|].
    simpl. inversion Hnd; subst. auto.
  - cbn [filter snd]. rewrite <- (Nat.add_0_r (List.length (flat_map _ keys))) in IH.
    assert (Hstep : List.length (flat_map (fun seq => ids_of seq ((id, s) :: records)) keys) =
                    (List.length (flat_map (fun seq => ids_of seq records) keys) +
                     (if Nx.mem s keys then 1 else 0))%nat).
    { clear IH. induction keys as [|k keys IHk]; [reflexivity|].
      inversion Hnd as [|? ? Hk Hkeys]; subst.
      cbn [flat_map]. rewrite !length_app, (IHk Hkeys).
      unfold ids_of at 1. cbn [filter snd]. unfold Nx.mem. cbn [existsb].
      fold (Nx.mem s keys).
      destruct (String.eqb_spec s k) as [->|Hne].
      - cbn [map List.length orb].
        assert (Em : Nx.mem k keys = false).
        { destruct (Nx.mem k keys) eqn:Em; [|reflexivity].
          apply mem_true_iff in Em. contradiction. }
        rewrite Em. fold (ids_of k records). lia.
      - cbn [orb]. fold (ids_of k records). lia. }
    rewrite Hstep. rewrite Nat.add_0_r in IH. rewrite IH.
    destruct (Nx.mem s keys); cbn [List.length]; lia.
Qed.

Lemma filter_split_length {A : Type} (p q : A -> bool) (l : list A) :
  (forall x, In x l -> q x = negb (p x)) ->
  (List.length (filter p l) + List.length (filter q l))%nat = List.length l.
Proof.
  induction l as [|x l IH]; intros H; [reflexivity|]. simpl.
  rewrite (H x (or_introl eq_refl)).
  specialize (IH (fun y Hy => H y (or_intror Hy))).
  destruct (p x); simpl; lia.
Qed.

Lemma isolates_in (g : Nx.graph) (n : string) :
  In n (Nx.isolates g) <-> In n (Nx.nodes g) /\ Nx.degree g n = Ok 0.
Proof.
  unfold Nx.isolates. rewrite filter_In. split; intros [Hin Hd]; split; auto.
  - destruct (Nx.degree g n) as [[| |]|]; try discriminate. reflexivity.
  - rewrite Hd. reflexivity.
Qed.

End IsolateNames.

Section IsolateSplit.

Lemma seqs2id_dict_lookup (records : list (string * string)) (seq : string) :
  In seq (map snd records) ->
  dict_get (fold_left (fun d item => setdefault_append d (snd item) (fst item))
                      records []) seq = Some (ids_of seq records).
Proof.
  intros H. rewrite seqs2id_dict_fold. simpl.
  destruct (ids_of seq records) eqn:Ei; [|reflexivity].
  apply ids_of_nil in Ei. contradiction.
Qed.

Lemma mem_complement (iso univ : list string) (s : string) :
  In s univ ->
  Nx.mem s (filter (fun x => negb (Nx.mem x iso)) univ) = negb (Nx.mem s iso).
Proof.
  intros Hs.
  destruct (Nx.mem s (filter _ univ)) eqn:E1.
  - apply mem_true_iff, filter_In in E1. destruct E1 as [_ E1]. auto.
  - destruct (Nx.mem s iso) eqn:E2; [reflexivity|].
    assert (C : Nx.mem s (filter (fun x => negb (Nx.mem x iso)) univ) = true).
    { apply mem_true_iff, filter_In. split; [exact Hs|]. rewrite E2. reflexivity. }
    congruence.
Qed.

End IsolateSplit.

(** X16.  On the graph, the set of unique sequences and the dictionary that
    [generate_graph] returns in edit-distance-1 mode, a call of
    [extract_isolates] that returns splits the records in two without losing
    or doubling any: the identifiers written to the isolates file are those
    of the records whose read has degree 0 in the graph, the identifiers
    written to the other file are those of the records whose read has
    another degree, and the two lists together are as long as the input. *)
Theorem extract_isolates_split
    (cfg : config) (ed1 ed2 : string -> list string)
    (records : list (string * string)) (out : graph_output)
    (seqs2id_dict : list (string * list string))
    (input_file result_dir file_type isolates_file non_isolates_file : string)
    (name_lst non_name_lst : list string) :
  snd (generate_graph cfg ed1 ed2 records 1) = Ok out ->
  out_seqs2id_dict out = Some seqs2id_dict ->
  extract_isolates input_file result_dir file_type (out_graph out)
                   (out_unique_seqs out) seqs2id_dict =
    Ok ((isolates_file, name_lst), (non_isolates_file, non_name_lst)) ->
  (forall id, In id name_lst <->
     exists seq, In (id, seq) records /\ Nx.degree (out_graph out) seq = Ok 0) /\
  (forall id, In id non_name_lst <->
     exists seq, In (id, seq) records /\ Nx.degree (out_graph out) seq <> Ok 0) /\
  (List.length name_lst + List.length non_name_lst)%nat = List.length records.
Proof.
  intros Hrun Hdict H.
  destruct (generate_graph cfg ed1 ed2 records 1) as [events res] eqn:E.
  simpl in Hrun. subst res.
  pose proof (generate_graph_attributes _ _ _ _ _ _ _ E) as Ha.
  assert (Hn : Nx.nodes (out_graph out) = map fst (Counter (map snd records))).
  { rewrite nodes_attributes, Ha, map_map. reflexivity. }
  destruct (generate_graph_output _ _ _ _ _ _ _ E)
    as (_ & _ & _ & _ & _ & _ & _ & _ & _ & Hu & Hd).
  rewrite (Hd eq_refl) in Hdict. injection Hdict as <-.
  set (g := out_graph out) in *. rewrite Hu in H.
  set (univ := set_of String.eqb (map snd records)) in *.
  set (iso := Nx.isolates g) in *.
  set (rest := filter (fun s => negb (Nx.mem s iso)) univ).
  assert (Hnode : forall seq, In seq (map snd records) -> In seq (Nx.nodes g)).
  { intros seq Hs. rewrite Hn. apply Counter_keys, Hs. }
  assert (Hiso : forall seq, In seq iso -> In seq (map snd records)).
  { intros seq Hs. apply isolates_in in Hs. destruct Hs as [Hs _].
    rewrite Hn in Hs. apply (proj1 (Counter_keys _ _)) in Hs. exact Hs. }
  assert (Hrest : forall seq, In seq rest -> In seq (map snd records)).
  { intros seq Hs. apply filter_In in Hs. destruct Hs as [Hs _].
    apply set_of_in in Hs. exact Hs. }
  unfold extract_isolates in H.
  destruct (Nx.is_connected g) as [[|]|]; try discriminate. cbn [bind negb] in H.
  fold iso in H. fold rest in H.
  rewrite (extend_names_spec _ (fun seq => ids_of seq records) iso) in H
    by (intros k Hk; apply seqs2id_dict_lookup, Hiso, Hk).
  cbn [bind app] in H.
  rewrite (extend_names_spec _ (fun seq => ids_of seq records) rest) in H
    by (intros k Hk; apply seqs2id_dict_lookup, Hrest, Hk).
  cbn [bind app] in H.
  assert (Hnames : name_lst = flat_map (fun seq => ids_of seq records) iso /\
                   non_name_lst = flat_map (fun seq => ids_of seq records) rest).
  { destruct (list_getitem (str_split "/" input_file) (-1)) as [bases|];
      [|discriminate]. cbn [bind] in H.
    destruct (Nx.mem file_type _).
    - destruct (list_getitem (str_split "." bases) 0); [|discriminate].
      cbn [bind] in H. injection H as _ <- _ <-. auto.
    - destruct (Nx.mem file_type _); [|discriminate].
      destruct (list_getitem (str_split "." bases) 0); [|discriminate].
      cbn [bind] in H. injection H as _ <- _ <-. auto. }
  destruct Hnames as [-> ->]. clear H.
  split; [|split].
  - intros id. rewrite in_flat_map. split.
    + intros (seq & Hs & Hid). apply ids_of_in in Hid.
      apply isolates_in in Hs. exists seq. tauto.
    + intros (seq & Hid & Hdeg). exists seq. split; [|apply ids_of_in, Hid].
      apply isolates_in. split; [|exact Hdeg].
      apply Hnode. apply (in_map snd) in Hid. exact Hid.
  - intros id. rewrite in_flat_map. split.
    + intros (seq & Hs & Hid). apply ids_of_in in Hid.
      exists seq. split; [exact Hid|]. intros Hdeg.
      apply filter_In in Hs. destruct Hs as [Hs Hm].
      assert (Hin : In seq iso).
      { apply isolates_in. split; [|exact Hdeg].
        apply Hnode, Hrest. apply filter_In. auto. }
      apply mem_true_iff in Hin. rewrite Hin in Hm. discriminate.
    + intros (seq & Hid & Hdeg). exists seq. split; [|apply ids_of_in, Hid].
      apply filter_In. split.
      * apply set_of_intro. apply (in_map snd) in Hid. exact Hid.
      * destruct (Nx.mem seq iso) eqn:Em; [|reflexivity].
        apply mem_true_iff, isolates_in in Em. tauto.
  - rewrite !ids_of_count.
    + apply filter_split_length. intros [id s] Hitem. simpl.
      apply mem_complement. apply set_of_intro.
      apply (in_map snd) in Hitem. exact Hitem.
    + apply NoDup_filter, set_of_NoDup.
    + apply NoDup_filter. rewrite Hn. apply Counter_NoDup.
Qed.

Lemma extract_isolates_split_witness :
  (forall id, In id ["r4"] <->
     exists seq, In (id, seq) split_records /\
       Nx.degree (out_graph split_output) seq = Ok 0) /\
  (forall id, In id ["r1"; "r3"; "r2"] <->
     exists seq, In (id, seq) split_records /\
       Nx.degree (out_graph split_output) seq <> Ok 0) /\
  (List.length ["r4"] + List.length ["r1"; "r3"; "r2"])%nat =
    List.length split_records.
Proof.
  apply (extract_isolates_split small_config enumerate_ed1_seqs
           enumerate_ed2_seqs split_records split_output
           [("AAAA", ["r1"; "r3"]); ("AAAC", ["r2"]); ("GGGG", ["r4"])]
           "data/reads.fastq" "out/" "fastq"
           "out/reads_isolates.fastq" "out/reads_non_isolates.fastq").
  - vm_compute. reflexivity.
  - reflexivity.
  - vm_compute. reflexivity.
Defined.



(** X18.  [generate_graph] returns in edit-distance modes 1 and 2 only.  In
    any other mode it hands no task to the worker pool and ends with the
    exit of status 1 when no read is high-frequency, and with
    [UnboundLocalError] (the shared sequences are never assigned) when some
    read is. *)
Theorem generate_graph_other_modes
    (cfg : config) (ed1 ed2 : string -> list string)
    (records : list (string * string)) (edit_dis : Z) :
  edit_dis <> 1 -> edit_dis <> 2 ->
  fst (generate_graph cfg ed1 ed2 records edit_dis) = [] /\
  ((forall read, In read (map snd records) ->
      occurrences read (map snd records) < high_freq_thre cfg) ->
   snd (generate_graph cfg ed1 ed2 records edit_dis) = Raise (SystemExit 1)) /\
  ((exists read, In read (map snd records) /\
      high_freq_thre cfg <= occurrences read (map snd records)) ->
   snd (generate_graph cfg ed1 ed2 records edit_dis) = Raise UnboundLocalError).
Proof.
  intros N1 N2. unfold generate_graph.
  destruct (count_loop cfg (Counter (map snd records)) ([], [], []))
    as [[graph high] low] eqn:Ecl.
  destruct (count_loop_partition cfg _ _ _ _ Ecl) as (Hhigh & _ & _).
  destruct (Z.eqb_spec edit_dis 1) as [|_]; [contradiction|].
  destruct (Z.eqb_spec edit_dis 2) as [|_]; [contradiction|].
  destruct high as [|h high]; cbn [List.length Z.of_nat Z.eqb].
  - split; [reflexivity|]. split; [reflexivity|].
    intros (read & Hin & Hge). exfalso. apply (proj2 (Hhigh read)). auto.
  - split; [reflexivity|]. split; [|reflexivity].
    intros Hlow. exfalso.
    destruct (proj1 (Hhigh h) (or_introl eq_refl)) as [Hin Hge].
    specialize (Hlow h Hin). lia.
Qed.

Lemma generate_graph_other_modes_witness :
  fst (generate_graph small_config enumerate_ed1_seqs enumerate_ed2_seqs
         small_records 3) = [] /\
  ((forall read, In read (map snd small_records) ->
      occurrences read (map snd small_records) < high_freq_thre small_config) ->
   snd (generate_graph small_config enumerate_ed1_seqs enumerate_ed2_seqs
          small_records 3) = Raise (SystemExit 1)) /\
  ((exists read, In read (map snd small_records) /\
      high_freq_thre small_config <= occurrences read (map snd small_records)) ->
   snd (generate_graph small_config enumerate_ed1_seqs enumerate_ed2_seqs
          small_records 3) = Raise UnboundLocalError).
Proof.
  apply (generate_graph_other_modes small_config enumerate_ed1_seqs
           enumerate_ed2_seqs small_records 3); lia.
Defined.

(** ** From the graph to the frames *)

Section Components.

Variable cfg : config.

Lemma component_copy_wf (graph sub_graph : Nx.graph) :
  Nx.wf_graph graph = true -> component_copy graph sub_graph ->
  Nx.wf_graph sub_graph = true.
Proof.
  intros Hwf [Hnd Hsub]. unfold Nx.wf_graph. apply andb_true_iff. split.
  - apply distinct_NoDup, Hnd.
  - apply forallb_forall. intros [k d'] Hkd. simpl.
    destruct (Hsub k d' Hkd) as (d & Hl & Hc & Hf & _ & Hin).
    destruct (wf_graph_node graph k d Hwf (lookup_In _ _ _ Hl))
      as (c & f & Ec & Ef & _).
    rewrite Hc, Hf, Ec, Ef. apply forallb_forall. intros v Hv.
    apply has_node_in, Hin, Hv.
Qed.

Lemma component_copy_ed1 (graph sub_graph : Nx.graph) :
  ed1_graph graph = true -> component_copy graph sub_graph ->
  ed1_graph sub_graph = true.
Proof.
  intros Hed [_ Hsub]. unfold ed1_graph. apply forallb_forall.
  intros [k d'] Hkd. apply forallb_forall. intros v Hv. simpl.
  destruct (Hsub k d' Hkd) as (d & Hl & _ & _ & Hadj & _).
  destruct (ed1_graph_edge graph k v d Hed (lookup_In _ _ _ Hl)
              (proj1 (Hadj v) Hv)) as (H1 & H2 & H3).
  rewrite !andb_true_iff. repeat split.
  - apply Z.ltb_lt, H2.
  - apply Z.ltb_lt, H1.
  - apply Z.eqb_eq, H3.
Qed.

Lemma component_copy_refl (graph : Nx.graph) :
  Nx.wf_graph graph = true -> component_copy graph graph.
Proof.
  intros Hwf. split; [apply wf_graph_NoDup, Hwf|].
  intros k d Hkd. exists d.
  split; [apply In_lookup; [apply wf_graph_NoDup, Hwf|exact Hkd]|].
  split; [reflexivity|]. split; [reflexivity|]. split; [tauto|].
  intros v Hv. destruct (wf_graph_node graph k d Hwf Hkd) as (_ & _ & _ & _ & Hadj).
  apply lookup_in_nodes, Hadj, Hv.
Qed.

Lemma list_getitem_range {A : Type} (l : list A) (i : nat) :
  (i < List.length l)%nat ->
  exists x, list_getitem l (Z.of_nat i) = Ok x /\ In x l.
Proof.
  intros Hi. unfold list_getitem.
  destruct (Z.ltb_spec (Z.of_nat i) 0); [lia|].
  destruct (Z.ltb_spec (Z.of_nat i) 0); [lia|].
  destruct (Z.leb_spec (Z.of_nat (List.length l)) (Z.of_nat i)); [lia|].
  cbn [orb]. rewrite Nat2Z.id.
  destruct (nth_error l i) as [x|] eqn:E.
  - exists x. split; [reflexivity|]. apply (nth_error_In _ _ E).
  - apply nth_error_None in E. lia.
Qed.

(** The merging loop returns when every pass does. *)
Lemma gather_results_total (shared_obs : list Nx.graph * Z) (indices : list Z) :
  (forall ii, In ii indices ->
     exists res, extract_genuine_ambi_errs_subgraph cfg shared_obs ii = Ok res) ->
  forall gen ambi,
    exists lists, gather_results cfg shared_obs indices gen ambi = Ok lists.
Proof.
  induction indices as [|ii indices IH]; intros H gen ambi;
    cbn [gather_results]; [eauto|].
  destruct (H ii (or_introl eq_refl)) as [[[g a] subs'] E]. rewrite E.
  cbn [bind fst snd].
  destruct g; apply IH; intros jj Hjj; apply H; right; exact Hjj.
Qed.

(** On component copies of a well-formed graph the passes all return, and
    so does the merge. *)
Lemma merge_returns (graph : Nx.graph) (subgraphs : list Nx.graph)
    (edit_dis : Z) :
  Nx.wf_graph graph = true ->
  (edit_dis = 1 -> ed1_graph graph = true) ->
  (forall sub_graph, In sub_graph subgraphs -> component_copy graph sub_graph) ->
  edit_dis = 1 \/ edit_dis = 2 ->
  exists genuine_df ambiguous_df,
    extract_genuine_ambi_errs cfg subgraphs edit_dis =
      Ok (genuine_df, ambiguous_df).
Proof.
  intros Hwf Hed Hsub Hmode. unfold extract_genuine_ambi_errs.
  assert (Hpass : forall ii,
            In ii (range (Z.of_nat (List.length subgraphs))) ->
            exists res,
              extract_genuine_ambi_errs_subgraph cfg (subgraphs, edit_dis) ii =
                Ok res).
  { intros ii Hii. unfold range in Hii. rewrite Nat2Z.id in Hii.
    apply in_map_iff in Hii. destruct Hii as (i & <- & Hi).
    apply in_seq in Hi.
    destruct (list_getitem_range subgraphs i) as (s & Es & Hs); [lia|].
    unfold extract_genuine_ambi_errs_subgraph. rewrite Es. cbn [bind].
    destruct (classify_subgraph_total cfg edit_dis s) as [[[s' g] a] Ec].
    - apply (component_copy_wf _ _ Hwf (Hsub s Hs)).
    - intros M. apply (component_copy_ed1 _ _ (Hed M) (Hsub s Hs)).
    - rewrite Ec. cbn [bind]. eauto. }
  destruct (gather_results_total _ _ Hpass [] []) as [[gen ambi] Eg].
  rewrite Eg. cbn [bind].
  destruct Hmode as [-> | ->]; cbn; eauto.
Qed.

End Components.

(** X19.  From the graph to the frames without an exception: on component
    copies of a graph that [generate_graph] has returned,
    [extract_genuine_ambi_errs] returns in the mode the graph was built in,
    provided, in edit-distance-1 mode, that the edges of the graph join
    non-empty reads at edit distance 1 (which is what the neighbourhood
    enumerator is there to ensure). *)
Theorem extract_genuine_ambi_errs_returns
    (cfg : config) (ed1 ed2 : string -> list string)
    (records : list (string * string)) (edit_dis : Z) (out : graph_output)
    (subgraphs : list Nx.graph) :
  snd (generate_graph cfg ed1 ed2 records edit_dis) = Ok out ->
  (edit_dis = 1 -> ed1_graph (out_graph out) = true) ->
  (forall sub_graph, In sub_graph subgraphs ->
     component_copy (out_graph out) sub_graph) ->
  exists genuine_df ambiguous_df,
    extract_genuine_ambi_errs cfg subgraphs edit_dis =
      Ok (genuine_df, ambiguous_df).
Proof.
  intros Hrun Hed Hsub.
  destruct (generate_graph cfg ed1 ed2 records edit_dis) as [events res] eqn:E.
  simpl in Hrun. subst res.
  apply (merge_returns cfg (out_graph out)); try assumption.
  - apply (built_graph_wf _ _ _ _ _ _ _ E).
  - destruct (generate_graph_output _ _ _ _ _ _ _ E)
      as (_ & _ & _ & _ & _ & _ & _ & [[M _]|[M _]] & _); auto.
Qed.

Lemma extract_genuine_ambi_errs_returns_witness :
  exists genuine_df ambiguous_df,
    extract_genuine_ambi_errs small_config [out_graph small_output] 1 =
      Ok (genuine_df, ambiguous_df).
Proof.
  apply (extract_genuine_ambi_errs_returns small_config enumerate_ed1_seqs
           enumerate_ed2_seqs small_records 1 small_output).
  - vm_compute. reflexivity.
  - reflexivity.
  - intros sub_graph [<-|[]]. apply component_copy_refl. reflexivity.
Defined.

(** ** The rows of the amplicon loop *)

Section AmpliconRows.

Variable amplicon_low_freq : Z.
Variable amplicon_high_freq : Z.
Variable amplicon_error_node_degree : Z.








End AmpliconRows.



(** ** The samples of one graph *)

Section Samples.

Variable cfg : config.

Lemma high_ambiguous_edges_total (s : Nx.graph) (es : list (string * string)) :
  Nx.wf_graph s = true -> ed1_graph s = true ->
  (forall e, In e es -> In e (Nx.edges s)) ->
  forall st, exists st', for_each (high_ambiguous_edge cfg s) st es = Ok st'.
Proof.
  intros Hwf Hed. induction es as [|[a b] es IH]; intros Hes [df idx];
    cbn [for_each]; [eauto|].
  assert (Hadj : adjacent s a b) by (apply edges_adjacent, Hes; left; reflexivity).
  destruct Hadj as (d & Hd & Hb).
  assert (Ha : Nx.lookup s a <> None).
  { apply lookup_in_nodes. apply (in_map fst) in Hd. exact Hd. }
  destruct (wf_graph_node s a d Hwf Hd) as (_ & _ & _ & _ & Hnb).
  destruct (wf_graph_lookups s a Hwf Ha) as (ca & _ & da & _ & Eca & _ & Eda & _).
  destruct (wf_graph_lookups s b Hwf (Hnb b Hb))
    as (cb & _ & db & _ & Ecb & _ & Edb & _).
  destruct (ed1_graph_edge s a b d Hed Hd Hb) as (Hlb & Hla & Hdis).
  unfold high_ambiguous_edge at 1. rewrite Eca, Ecb, Eda, Edb. cbn [bind].
  assert (Hrest : forall e, In e es -> In e (Nx.edges s))
    by (intros e He; apply Hes; right; exact He).
  destruct ((high_freq_thre cfg <? ca) && (high_freq_thre cfg <? cb));
    [|cbn [bind]; apply (IH Hrest)].
  rewrite (annotator_mirror a b (PInt ca) (PInt da) (PInt cb) (PInt db)).
  assert (Hab : editdistance_eval a b = 1).
  { unfold editdistance_eval in *. rewrite levenshtein_sym. exact Hdis. }
  destruct (proj1 (err_type_classification_nonempty a b (PInt ca) (PInt da)
                     (PInt cb) (PInt db) Hla Hlb) Hab) as (r & Er & _).
  rewrite Er. cbn [bind]. apply (IH Hrest).
Qed.

Lemma high_ambiguous_returns (subgraphs : list Nx.graph) :
  (forall s, In s subgraphs -> Nx.wf_graph s = true /\ ed1_graph s = true) ->
  exists high_ambiguous_df,
    extract_high_ambiguous_errs cfg subgraphs = Ok high_ambiguous_df.
Proof.
  intros H. unfold extract_high_ambiguous_errs.
  assert (Hloop : forall st, exists st',
            for_each (high_ambiguous_subgraph cfg) st subgraphs = Ok st').
  { induction subgraphs as [|s subgraphs IH]; intros st; cbn [for_each]; [eauto|].
    destruct (H s (or_introl eq_refl)) as [Hwf Hed].
    assert (Hs : exists st1, high_ambiguous_subgraph cfg st s = Ok st1).
    { unfold high_ambiguous_subgraph.
      destruct (0 <? Z.of_nat (List.length (Nx.edges s))); [|eauto].
      apply high_ambiguous_edges_total; auto. }
    destruct Hs as [st1 ->]. cbn [bind].
    apply IH. intros s' Hs'. apply H. right. exact Hs'. }
  destruct (Hloop ([], 0)) as [[df idx] ->]. cbn [bind]. eauto.
Qed.

(** What decides whether [extract_err_samples] returns on component copies
    of a well-formed graph: whether the graph is connected. *)
Lemma err_samples_iff (high_ambiguous : bool) (graph : Nx.graph)
    (subgraphs : list Nx.graph) (edit_dis : Z) :
  Nx.wf_graph graph = true ->
  (edit_dis = 1 -> ed1_graph graph = true) ->
  (forall sub_graph, In sub_graph subgraphs -> component_copy graph sub_graph) ->
  edit_dis = 1 \/ edit_dis = 2 ->
  ((exists frames,
      extract_err_samples cfg high_ambiguous graph subgraphs edit_dis =
        Ok frames) <->
   Nx.is_connected graph = Ok false).
Proof.
  intros Hwf Hed Hsub Hmode.
  destruct (merge_returns cfg _ _ _ Hwf Hed Hsub Hmode) as (gdf & adf & Em).
  unfold extract_err_samples. rewrite Em. cbn [bind]. split.
  - intros [frames H]. unfold extract_isolated_negatives in H.
    destruct (Nx.is_connected graph) as [[|]|]; try discriminate.
    reflexivity.
  - intros Hc.
    rewrite (extract_isolated_negatives_not_connected cfg _ _ Hwf Hc).
    cbn [bind].
    destruct (Z.eqb_spec edit_dis 1) as [M|_]; [|cbn [andb]; eauto].
    destruct high_ambiguous; cbn [andb]; [|eauto].
    destruct (high_ambiguous_returns subgraphs) as [df Eh].
    { intros s Hs. split.
      - apply (component_copy_wf _ _ Hwf (Hsub s Hs)).
      - apply (component_copy_ed1 _ _ (Hed M) (Hsub s Hs)). }
    rewrite Eh. cbn [bind]. eauto.
Qed.

(** The fourth value is there exactly in edit-distance-1 mode with the
    option set. *)
Lemma err_samples_fourth (high_ambiguous : bool) (graph : Nx.graph)
    (subgraphs : list Nx.graph) (edit_dis : Z)
    (genuine_df ambiguous_df : frame) (negative_df : list row)
    (fourth : option (list row)) :
  extract_err_samples cfg high_ambiguous graph subgraphs edit_dis =
    Ok (genuine_df, negative_df, ambiguous_df, fourth) ->
  if (edit_dis =? 1) && high_ambiguous
  then exists high_ambiguous_df, fourth = Some high_ambiguous_df
  else fourth = None.
Proof.
  unfold extract_err_samples. intros H.
  destruct (extract_genuine_ambi_errs cfg subgraphs edit_dis) as [[g a]|];
    [|discriminate]. cbn [bind] in H.
  destruct (extract_isolated_negatives cfg graph edit_dis); [|discriminate].
  cbn [bind] in H.
  destruct ((edit_dis =? 1) && high_ambiguous).
  - destruct (extract_high_ambiguous_errs cfg subgraphs) as [h|]; [|discriminate].
    cbn [bind] in H. injection H as _ _ _ <-. eauto.
  - injection H as _ _ _ <-. reflexivity.
Qed.

End Samples.

(** X21.  On a graph that [generate_graph] has returned and on copies of
    its components, [extract_err_samples] returns exactly when the graph is
    not connected; on a connected graph it raises instead (the set of
    isolates is never assigned).  In edit-distance-1 mode the edges of the
    graph are taken to join non-empty reads at edit distance 1. *)
Theorem extract_err_samples_returns
    (cfg : config) (ed1 ed2 : string -> list string)
    (records : list (string * string)) (edit_dis : Z) (out : graph_output)
    (subgraphs : list Nx.graph) (high_ambiguous : bool) :
  snd (generate_graph cfg ed1 ed2 records edit_dis) = Ok out ->
  (edit_dis = 1 -> ed1_graph (out_graph out) = true) ->
  (forall sub_graph, In sub_graph subgraphs ->
     component_copy (out_graph out) sub_graph) ->
  ((exists frames,
      extract_err_samples cfg high_ambiguous (out_graph out) subgraphs edit_dis =
        Ok frames) <->
   Nx.is_connected (out_graph out) = Ok false).
Proof.
  intros Hrun Hed Hsub.
  destruct (generate_graph cfg ed1 ed2 records edit_dis) as [events res] eqn:E.
  simpl in Hrun. subst res.
  apply err_samples_iff; try assumption.
  - apply (built_graph_wf _ _ _ _ _ _ _ E).
  - destruct (generate_graph_output _ _ _ _ _ _ _ E)
      as (_ & _ & _ & _ & _ & _ & _ & [[M _]|[M _]] & _); auto.
Qed.

Lemma extract_err_samples_returns_witness :
  (exists frames,
     extract_err_samples small_config true (out_graph split_output)
       split_components 1 = Ok frames) <->
  Nx.is_connected (out_graph split_output) = Ok false.
Proof.
  apply (extract_err_samples_returns small_config enumerate_ed1_seqs
           enumerate_ed2_seqs split_records 1 split_output split_components true).
  - vm_compute. reflexivity.
  - reflexivity.
  - intros sub_graph Hs. simpl in Hs.
    destruct Hs as [<-|[<-|[]]]; split;
      try (repeat constructor; simpl; intuition discriminate);
      intros k d' Hin; simpl in Hin;
      repeat (destruct Hin as [Hin|Hin]; [injection Hin as <- <-|]);
      try contradiction;
      (eexists; split; [reflexivity|]; simpl; tauto).
Defined.

(** ** The results of the class *)

Section DataFilesFacts.

Variable cfg : config.
Variables ed1 ed2 : string -> list string.

(** In edit-distance-2 mode [generate_graph] exits when no read is
    high-frequency and returns two values otherwise. *)
Lemma generate_graph_two_values (records : list (string * string)) :
  ((forall read, In read (map snd records) ->
      occurrences read (map snd records) < high_freq_thre cfg) ->
   snd (generate_graph cfg ed1 ed2 records 2) = Raise (SystemExit 1)) /\
  ((exists read, In read (map snd records) /\
      high_freq_thre cfg <= occurrences read (map snd records)) ->
   exists out,
     snd (generate_graph cfg ed1 ed2 records 2) = Ok out /\
     out_seq_lens_set out = None /\ out_seqs2id_dict out = None).
Proof.
  unfold generate_graph.
  destruct (count_loop cfg (Counter (map snd records)) ([], [], []))
    as [[graph high] low] eqn:Ecl.
  destruct (count_loop_partition cfg _ _ _ _ Ecl) as (Hhigh & _ & _).
  destruct high as [|h high]; cbn [List.length Z.of_nat Z.eqb].
  - split; [reflexivity|].
    intros (read & Hin & Hge). exfalso. apply (proj2 (Hhigh read)). auto.
  - split.
    + intros Hlow. exfalso.
      destruct (proj1 (Hhigh h) (or_introl eq_refl)) as [Hin Hge].
      specialize (Hlow h Hin). lia.
    + intros _. cbn. eexists. split; [reflexivity|]. split; reflexivity.
Qed.

End DataFilesFacts.

(** X22.  [data_files] cannot return in edit-distance-2 mode: it ends with
    the exit of status 1 when no read is high-frequency, and otherwise with
    [ValueError], because [generate_graph] returns two values in that mode
    and [data_files] unpacks four; the tasks handed to the worker pool are
    those of [generate_graph]. *)
Theorem data_files_mode_2
    (cfg : config) (high_ambiguous : bool) (ed1 ed2 : string -> list string)
    (component_copies : Nx.graph -> list Nx.graph)
    (input_file result_dir file_type : string)
    (records : list (string * string)) :
  fst (data_files cfg high_ambiguous ed1 ed2 component_copies input_file
         result_dir file_type records 2) =
    fst (generate_graph cfg ed1 ed2 records 2) /\
  ((forall read, In read (map snd records) ->
      occurrences read (map snd records) < high_freq_thre cfg) ->
   snd (data_files cfg high_ambiguous ed1 ed2 component_copies input_file
          result_dir file_type records 2) = Raise (SystemExit 1)) /\
  ((exists read, In read (map snd records) /\
      high_freq_thre cfg <= occurrences read (map snd records)) ->
   snd (data_files cfg high_ambiguous ed1 ed2 component_copies input_file
          result_dir file_type records 2) = Raise ValueError).
Proof.
  destruct (generate_graph_two_values cfg ed1 ed2 records) as [Hexit Hret].
  unfold data_files.
  destruct (generate_graph cfg ed1 ed2 records 2) as [events res].
  cbn [fst snd] in *. split; [reflexivity|]. split.
  - intros Hlow. rewrite (Hexit Hlow). reflexivity.
  - intros Hhigh. destruct (Hret Hhigh) as (out & -> & El & Ed).
    cbn [bind]. rewrite El. reflexivity.
Qed.

Lemma data_files_mode_2_witness :
  fst (data_files small_config false enumerate_ed1_seqs enumerate_ed2_seqs
         (fun g => [g]) "reads.fastq" "out/" "fastq" small_records 2) =
    fst (generate_graph small_config enumerate_ed1_seqs enumerate_ed2_seqs
           small_records 2) /\
  ((forall read, In read (map snd small_records) ->
      occurrences read (map snd small_records) < high_freq_thre small_config) ->
   snd (data_files small_config false enumerate_ed1_seqs enumerate_ed2_seqs
          (fun g => [g]) "reads.fastq" "out/" "fastq" small_records 2) =
     Raise (SystemExit 1)) /\
  ((exists read, In read (map snd small_records) /\
      high_freq_thre small_config <= occurrences read (map snd small_records)) ->
   snd (data_files small_config false enumerate_ed1_seqs enumerate_ed2_seqs
          (fun g => [g]) "reads.fastq" "out/" "fastq" small_records 2) =
     Raise ValueError).
Proof.
  apply (data_files_mode_2 small_config false enumerate_ed1_seqs
           enumerate_ed2_seqs (fun g => [g]) "reads.fastq" "out/" "fastq"
           small_records).
Defined.

Section DataFilesMode1.

Lemma str_split_nonempty (sep : ascii) (s : string) : str_split sep s <> [].
Proof.
  induction s as [|c s IH]; simpl; [discriminate|].
  destruct (Ascii.eqb c sep); [discriminate|].
  destruct (str_split sep s); discriminate.
Qed.

Lemma list_getitem_last_ok {A : Type} (l : list A) :
  l <> [] -> exists x, list_getitem l (-1) = Ok x.
Proof.
  intros Hl. unfold list_getitem. cbn [Z.ltb Z.compare].
  assert (Hn : (0 < List.length l)%nat) by (destruct l; [contradiction|simpl; lia]).
  destruct (Z.ltb_spec (-1 + Z.of_nat (List.length l)) 0); [lia|].
  destruct (Z.leb_spec (Z.of_nat (List.length l))
                       (-1 + Z.of_nat (List.length l))); [lia|].
  cbn [orb].
  destruct (nth_error l (Z.to_nat (-1 + Z.of_nat (List.length l)))) eqn:E;
    [eauto|].
  apply nth_error_None in E. lia.
Qed.

Lemma list_getitem_first_ok {A : Type} (l : list A) :
  l <> [] -> exists x, list_getitem l 0 = Ok x.
Proof.
  intros Hl. destruct l as [|x l]; [contradiction|]. exists x. reflexivity.
Qed.

(** On a graph that is not connected and with a dictionary that knows all
    the reads, [extract_isolates] returns exactly for the file types it has
    file names for. *)
Lemma extract_isolates_returns (input_file result_dir file_type : string)
    (graph : Nx.graph) (unique_seqs : list string)
    (seqs2id_dict : list (string * list string)) :
  Nx.is_connected graph = Ok false ->
  (forall k, In k (Nx.isolates graph) -> dict_get seqs2id_dict k <> None) ->
  (forall k, In k unique_seqs -> dict_get seqs2id_dict k <> None) ->
  ((exists files,
      extract_isolates input_file result_dir file_type graph unique_seqs
                       seqs2id_dict = Ok files) <->
   known_file_type file_type = true).
Proof.
  intros Hc Hiso Huniq. unfold extract_isolates. rewrite Hc. cbn [bind negb].
  set (f := fun k => match dict_get seqs2id_dict k with
                     | Some ids => ids
                     | None => []
                     end).
  assert (Hf : forall k, dict_get seqs2id_dict k <> None ->
                 dict_get seqs2id_dict k = Some (f k)).
  { intros k Hk. unfold f. destruct (dict_get seqs2id_dict k);
      [reflexivity|contradiction]. }
  rewrite (extend_names_spec _ f) by (intros k Hk; apply Hf, Hiso, Hk).
  cbn [bind].
  rewrite (extend_names_spec _ f).
  2:{ intros k Hk. apply Hf, Huniq. apply filter_In in Hk. tauto. }
  cbn [bind].
  destruct (list_getitem_last_ok (str_split "/" input_file)
              (str_split_nonempty _ _)) as [bases ->].
  cbn [bind].
  destruct (list_getitem_first_ok (str_split "." bases)
              (str_split_nonempty _ _)) as [base0 ->].
  unfold known_file_type.
  destruct (Nx.mem file_type ["fastq"; "fq"; "fastq.gz"; "fq.gz"]).
  - cbn [bind orb]. split; eauto.
  - destruct (Nx.mem file_type ["fasta"; "fa"; "fasta.gz"; "fas.gz"]);
      cbn [bind orb]; split; eauto; try discriminate.
    intros [files H]. discriminate.
Qed.

Variable cfg : config.
Variables ed1 ed2 : string -> list string.

(** In edit-distance-1 mode [generate_graph] returns four values: the set of
    read lengths is not empty and the dictionary is the one built from the
    records. *)
Lemma generate_graph_four_values (records : list (string * string))
    (events : list event) (out : graph_output) :
  generate_graph cfg ed1 ed2 records 1 = (events, Ok out) ->
  exists x l,
    out_seq_lens_set out = Some (x :: l) /\
    out_seqs2id_dict out =
      Some (fold_left (fun d item => setdefault_append d (snd item) (fst item))
                      records []).
Proof.
  unfold generate_graph.
  destruct (count_loop cfg (Counter (map snd records)) ([], [], []))
    as [[graph high] low] eqn:Ecl.
  destruct (count_loop_partition cfg _ _ _ _ Ecl) as (Hhigh & _ & _).
  destruct high as [|h high]; cbn [List.length Z.of_nat Z.eqb];
    [discriminate|].
  destruct (proj1 (Hhigh h) (or_introl eq_refl)) as [Hin _].
  cbn. intros [= _ <-]. cbn [out_seq_lens_set out_seqs2id_dict].
  destruct (map snd records) as [|s total]; [contradiction|].
  cbn [map set_of]. eauto.
Qed.

End DataFilesMode1.

(** X23.  When [generate_graph] returns in edit-distance-1 mode,
    [data_files] returns exactly when the graph is not connected and the
    file type is one of the eight that [extract_isolates] has file names
    for.  The edges of the graph are taken to join non-empty reads at edit
    distance 1, and the subgraphs to be copies of its components. *)
Theorem data_files_mode_1
    (cfg : config) (high_ambiguous : bool) (ed1 ed2 : string -> list string)
    (component_copies : Nx.graph -> list Nx.graph)
    (input_file result_dir file_type : string)
    (records : list (string * string)) (out : graph_output) :
  snd (generate_graph cfg ed1 ed2 records 1) = Ok out ->
  ed1_graph (out_graph out) = true ->
  (forall sub_graph, In sub_graph (component_copies (out_graph out)) ->
     component_copy (out_graph out) sub_graph) ->
  ((exists res,
      snd (data_files cfg high_ambiguous ed1 ed2 component_copies input_file
             result_dir file_type records 1) = Ok res) <->
   Nx.is_connected (out_graph out) = Ok false /\
   known_file_type file_type = true).
Proof.
  intros Hrun Hed Hsub. unfold data_files.
  destruct (generate_graph cfg ed1 ed2 records 1) as [events returned] eqn:E.
  simpl in Hrun. subst returned. cbn [snd bind].
  destruct (generate_graph_four_values _ _ _ _ _ _ E) as (x & l & -> & ->).
  cbn [bind py_max py_min].
  pose proof (built_graph_wf _ _ _ _ _ _ _ E) as Hwf.
  pose proof (built_graph_nodes _ _ _ _ _ _ _ E) as Hn.
  destruct (generate_graph_output _ _ _ _ _ _ _ E)
    as (_ & _ & _ & _ & _ & _ & _ & _ & _ & Hu & _).
  set (g := out_graph out) in *.
  set (d := fold_left (fun d item => setdefault_append d (snd item) (fst item))
                      records []).
  pose proof (err_samples_iff cfg high_ambiguous g (component_copies g) 1 Hwf
                (fun _ => Hed) Hsub (or_introl eq_refl)) as Hsamples.
  assert (Hfiles : Nx.is_connected g = Ok false ->
            ((exists files,
                extract_isolates input_file result_dir file_type g
                  (out_unique_seqs out) d = Ok files) <->
             known_file_type file_type = true)).
  { intros Hc. apply extract_isolates_returns; [exact Hc| |].
    - intros k Hk. apply isolates_in in Hk. destruct Hk as [Hk _].
      rewrite Hn in Hk. apply (proj1 (Counter_keys _ _)) in Hk.
      unfold d. rewrite (seqs2id_dict_lookup _ _ Hk). discriminate.
    - intros k Hk. rewrite Hu in Hk. apply set_of_in in Hk.
      unfold d. rewrite (seqs2id_dict_lookup _ _ Hk). discriminate. }
  change (1 =? 1) with true. change ((1 =? 2) || true) with true.
  cbn [andb].
  destruct (extract_err_samples cfg high_ambiguous g (component_copies g) 1)
    as [[[[gdf ndf] adf] fourth]|e] eqn:Es.
  - assert (Hc : Nx.is_connected g = Ok false)
      by (apply Hsamples; eexists; reflexivity).
    pose proof (err_samples_fourth cfg _ _ _ _ _ _ _ _ Es) as Hfourth.
    change (1 =? 1) with true in Hfourth. cbn [andb] in Hfourth.
    specialize (Hfiles Hc).
    destruct (extract_isolates input_file result_dir file_type g
                (out_unique_seqs out) d) as [[f1 f2]|e] eqn:Ei.
    + assert (Hk : known_file_type file_type = true)
        by (apply Hfiles; eexists; reflexivity).
      destruct high_ambiguous.
      * destruct Hfourth as [h ->]. cbn [bind]. split; eauto.
      * subst fourth. cbn [bind]. split; eauto.
    + assert (Hk : known_file_type file_type <> true).
      { intros Hk. apply Hfiles in Hk. destruct Hk as [files Hk]. discriminate. }
      destruct high_ambiguous.
      * destruct Hfourth as [h ->]. cbn [bind].
        split; [intros [res H]; discriminate|tauto].
      * subst fourth. cbn [bind].
        split; [intros [res H]; discriminate|tauto].
  - assert (Hc : Nx.is_connected g <> Ok false).
    { intros Hc. apply Hsamples in Hc. destruct Hc as [frames Hc]. discriminate. }
    destruct high_ambiguous; cbn [bind];
      (split; [intros [res H]; discriminate|tauto]).
Qed.

Lemma data_files_mode_1_witness :
  (exists res,
     snd (data_files small_config true enumerate_ed1_seqs enumerate_ed2_seqs
            (fun _ => split_components) "data/reads.fastq" "out/" "fastq"
            split_records 1) = Ok res) <->
  Nx.is_connected (out_graph split_output) = Ok false /\
  known_file_type "fastq" = true.
Proof.
  apply (data_files_mode_1 small_config true enumerate_ed1_seqs
           enumerate_ed2_seqs (fun _ => split_components) "data/reads.fastq"
           "out/" "fastq" split_records split_output).
  - vm_compute. reflexivity.
  - reflexivity.
  - intros sub_graph Hs. simpl in Hs.
    destruct Hs as [<-|[<-|[]]]; split;
      try (repeat constructor; simpl; intuition discriminate);
      intros k d' Hin; simpl in Hin;
      repeat (destruct Hin as [Hin|Hin]; [injection Hin as <- <-|]);
      try contradiction;
      (eexists; split; [reflexivity|]; simpl; tauto).
Defined.

(** ** The rows of the UMI variant *)

(** X24.  Every row that [extract_umi_genuine_errs] returns is the annotated
    line of a node of one of the subgraphs, of degree 1 to 4 and count at
    most [max_error_freq], and of its best-scored neighbour, whose count is
    at least [high_freq_thre]. *)
Theorem extract_umi_genuine_errs_rows
    (cfg : config) (subgraphs subgraphs' : list Nx.graph) (genuine_df : list row) :
  extract_umi_genuine_errs cfg subgraphs = Ok (subgraphs', genuine_df) ->
  Forall (fun r => exists sub_graph node,
            In sub_graph subgraphs /\ umi_emits cfg sub_graph node r)
         genuine_df.
Proof.
  unfold extract_umi_genuine_errs. intros H.
  apply umi_loop_spec in H. destruct H as (new & -> & Hrows & _).
  apply Forall_forall. exact Hrows.
Qed.

Lemma extract_umi_genuine_errs_rows_witness :
  Forall (fun r => exists sub_graph node,
            In sub_graph [lone_example; star_example] /\
            umi_emits example_config sub_graph node r)
         star_example_umi_rows.
Proof.
  apply (extract_umi_genuine_errs_rows example_config
           [lone_example; star_example] [lone_example; star_example_visited]).
  vm_compute. reflexivity.
Defined.
